(** * Instagram automation tool: dispatcher, activity log and remote client

    A shallow embedding of the JavaScript sources

    - [instagram-automation.js]: [parseCookieString],
      [shortcodeToMediaId] and the seven remote operations,
    - [automation-routes.js]: the [POST /run] handler (the dispatcher),
    - [server.js]: the activity-log and cookie methods of [MemStorage],

    followed by the properties of the specification that concern them.

    Conventions of the embedding.
    - A JavaScript string is a Rocq [string]; one [ascii] stands for one
      character as [for (const c of s)] visits it.
    - A JavaScript [Number] is an IEEE 754 binary64 value, taken from the
      standard library's executable specification [SpecFloat].
    - A request field is [option string]: [None] is a missing field
      ([undefined]), [Some s] a string.
    - An [async] function is run to completion; what it throws is an
      [Error] object.  Code that may throw lives in an outcome type, and
      the dispatcher in a state monad whose state survives a throw. *)

From Stdlib Require Import ZArith String Ascii List Lia Bool.
From Stdlib Require Import Floats.SpecFloat.
From Stdlib Require Import Sorting.Sorted.
From stdpp Require Import gmap strings list pretty.
Import ListNotations.

Local Open Scope string_scope.
Local Open Scope list_scope.
Local Open Scope stdpp_scope.
Local Open Scope Z_scope.

(* ================================================================= *)
(** ** JavaScript strings *)

Module Js.

(** [s.split(sep)] for a non-empty separator [sep] (every call site of
    the sources passes a literal: ["; "], ["="], ["/p/"], ["/"], ["?"]).
    The pieces between the leftmost non-overlapping occurrences of [sep];
    [skip] counts the characters of a matched separator still to drop. *)
Fixpoint split_from (sep : string) (skip : nat) (s : string) : list string :=
  match s with
  | EmptyString => [EmptyString]
  | String c rest =>
      match skip with
      | S k => split_from sep k rest
      | O =>
          if String.prefix sep s
          then EmptyString :: split_from sep (Nat.pred (String.length sep)) rest
          else match split_from sep 0 rest with
               | piece :: pieces => String c piece :: pieces
               | [] => [String c EmptyString]
               end
      end
  end.

Definition split (sep s : string) : list string := split_from sep 0 s.

(** White space removed by [trim], among the characters below 256:
    TAB, LF, VT, FF, CR, SPACE and NBSP. *)
Definition is_white (c : ascii) : bool :=
  let n := nat_of_ascii c in
  ((9 <=? n) && (n <=? 13) || (n =? 32) || (n =? 160))%nat.

Fixpoint trimStart (s : string) : string :=
  match s with
  | EmptyString => EmptyString
  | String c rest => if is_white c then trimStart rest else s
  end.

Fixpoint trimEnd (s : string) : string :=
  match s with
  | EmptyString => EmptyString
  | String c rest =>
      match trimEnd rest with
      | EmptyString => if is_white c then EmptyString else String c EmptyString
      | kept => String c kept
      end
  end.

Definition trim (s : string) : string := trimEnd (trimStart s).

(** [s.indexOf(c)] for a one-character [c]: the first position of [c]
    in [s], or [-1]. *)
Fixpoint indexOf_from (i : Z) (s : string) (c : ascii) : Z :=
  match s with
  | EmptyString => -1
  | String d rest => if Ascii.eqb d c then i else indexOf_from (i + 1) rest c
  end.

Definition indexOf (s : string) (c : ascii) : Z := indexOf_from 0 s c.

(** Truthiness of a string, and of a possibly missing field. *)
Definition truthy_string (s : string) : bool := negb (String.eqb s "").

Definition truthy (field : option string) : bool :=
  match field with
  | Some s => truthy_string s
  | None => false
  end.

(** [field || fallback] *)
Definition or_else (field : option string) (fallback : string) : string :=
  match field with
  | Some s => if truthy_string s then s else fallback
  | None => fallback
  end.

End Js.

(* ================================================================= *)
(** ** [parseCookieString] *)

(** The object [cookies] is the finite map of its own properties.
    [cookies[k] = v] with a string [v] adds or replaces the property
    [k], except for [k = "__proto__"], the prototype setter, which
    ignores a string. *)
Definition set_prop (cookies : gmap string string) (k v : string)
  : gmap string string :=
  if String.eqb k "__proto__" then cookies else <[k := v]> cookies.

(** The body of the [forEach] callback:
    [const [key, value] = part.split('=');
     if (key && value) cookies[key.trim()] = value.trim();] *)
Definition parseCookie_part (cookies : gmap string string) (part : string)
  : gmap string string :=
  match Js.split "=" part with
  | key :: value :: _ =>
      if Js.truthy_string key && Js.truthy_string value
      then set_prop cookies (Js.trim key) (Js.trim value)
      else cookies
  | _ => cookies
  end.

Definition parseCookieString (cookieStr : string) : gmap string string :=
  fold_left parseCookie_part (Js.split "; " cookieStr) ∅.

(* ================================================================= *)
(** ** JavaScript numbers *)

(** A [Number] is a binary64 float: 53 bits of precision, exponents
    below 1024.  [SFmul] and [SFadd] round to nearest, ties to even. *)
Module Number.

Definition number : Type := spec_float.

Definition prec : Z := 53.
Definition emax : Z := 1024.

Definition mul (x y : number) : number := SFmul prec emax x y.
Definition add (x y : number) : number := SFadd prec emax x y.

(** The [Number] nearest to an integer (an integer literal, or the
    result of [indexOf]). *)
Definition of_Z (z : Z) : number := binary_normalize prec emax z 0 false.

(** The integer a [Number] denotes, when it denotes one. *)
Definition to_Z (x : number) : option Z :=
  match x with
  | S754_zero _ => Some 0
  | S754_finite s m e =>
      let v := if s then Z.neg m else Z.pos m in
      if 0 <=? e then Some (v * 2 ^ e)
      else if (v mod 2 ^ (- e)) =? 0 then Some (v / 2 ^ (- e)) else None
  | _ => None
  end.

End Number.

Abbreviation number := Number.number.

(* ================================================================= *)
(** ** [shortcodeToMediaId] *)

Definition alphabet : string :=
  "ABCDEFGHIJKLMNOPQRSTUVWXYZabcdefghijklmnopqrstuvwxyz0123456789-_".

(** One turn of the loop: [mediaId = mediaId * 64 + alphabet.indexOf(c)]. *)
Definition mediaId_step (mediaId : number) (c : ascii) : number :=
  Number.add (Number.mul mediaId (Number.of_Z 64))
             (Number.of_Z (Js.indexOf alphabet c)).

(** [let mediaId = 0; for (const c of shortcode) { ... }]: the value of
    [mediaId] when the loop ends. *)
Fixpoint mediaId_loop (mediaId : number) (shortcode : string) : number :=
  match shortcode with
  | EmptyString => mediaId
  | String c rest => mediaId_loop (mediaId_step mediaId c) rest
  end.

Definition mediaId_number (shortcode : string) : number :=
  mediaId_loop (Number.of_Z 0) shortcode.

(** [return mediaId.toString()].  [Number.prototype.toString] belongs to
    the engine; it is a parameter of the embedding. *)
Definition shortcodeToMediaId (toString : number -> string) (shortcode : string)
  : string :=
  toString (mediaId_number shortcode).

(** What the specification asks for: the base-64 positional value of
    the short code, in unbounded integers. *)
Module Exact.

Definition step (id : Z) (c : ascii) : Z := id * 64 + Js.indexOf alphabet c.

Fixpoint loop (id : Z) (shortcode : string) : Z :=
  match shortcode with
  | EmptyString => id
  | String c rest => loop (step id c) rest
  end.

Definition mediaId (shortcode : string) : Z := loop 0 shortcode.

(** [Σ digit_i × 64^(n-1-i)], written out. *)
Fixpoint positional (shortcode : string) : Z :=
  match shortcode with
  | EmptyString => 0
  | String c rest =>
      Js.indexOf alphabet c * 64 ^ Z.of_nat (String.length rest) + positional rest
  end.

End Exact.

(* ================================================================= *)
(** ** Outcomes of code that may throw *)

(** A thrown [Error] object, with its [message]. *)
Inductive exn : Type := JsError (message : string).

Definition message_of (error : exn) : string :=
  match error with JsError m => m end.

Inductive outcome (A : Type) : Type :=
| Returned (a : A)
| Raised (error : exn).

Arguments Returned {A} a.
Arguments Raised {A} error.

#[global] Instance outcome_ret : MRet outcome := fun A a => Returned a.

#[global] Instance outcome_bind : MBind outcome := fun A B f c =>
  match c with
  | Returned a => f a
  | Raised error => Raised error
  end.

(** [try { body } catch (error) { handler }] *)
Definition try_catch {A : Type} (body : outcome A) (handler : exn -> outcome A)
  : outcome A :=
  match body with
  | Returned a => Returned a
  | Raised error => handler error
  end.

(* ================================================================= *)
(** ** JSON values and HTTP responses *)

#[warnings="-register-all"]
Inductive json : Type :=
| JUndefined
| JNull
| JBool (b : bool)
| JNumber (n : number)
| JString (s : string)
| JObject (props : list (string * json)).

Fixpoint assoc {V : Type} (k : string) (props : list (string * V)) : option V :=
  match props with
  | [] => None
  | (k', v) :: rest => if String.eqb k' k then Some v else assoc k rest
  end.

(** The property read [v.k]: a [TypeError] on [undefined] and [null]
    (message as Node prints it), [undefined] for a missing property. *)
Definition get_prop (v : json) (k : string) : outcome json :=
  match v with
  | JUndefined =>
      Raised (JsError ("Cannot read properties of undefined (reading '" +:+ k +:+ "')"))
  | JNull =>
      Raised (JsError ("Cannot read properties of null (reading '" +:+ k +:+ "')"))
  | JObject props => Returned (default JUndefined (assoc k props))
  | _ => Returned JUndefined
  end.

Definition truthy_json (v : json) : bool :=
  match v with
  | JUndefined | JNull => false
  | JBool b => b
  | JNumber (S754_zero _) | JNumber S754_nan => false
  | JNumber _ => true
  | JString s => Js.truthy_string s
  | JObject _ => true
  end.

Record response : Type := { resp_status : Z; resp_data : json }.

Definition headers : Type := list (string * string).

(** What the sources take from outside: the engine's conversions to
    string and the [axios] transport, which answers a request with a
    response or rejects with an error.  [String_of v] is the
    conversion a template literal applies to [v]; it throws a
    [TypeError] for an object that cannot be converted to a primitive
    value (one with a property [toString] that is not a function). *)
Record Env : Type := {
  Number_toString : number -> string;
  String_of : json -> outcome string;
  axios_get : string -> headers -> outcome response;
  axios_post : string -> json -> headers -> outcome response
}.

(** The result object [{ success, message, data }] of an action. *)
Record ActionResult : Type := {
  success : bool;
  message : string;
  data : option json
}.

Definition result (ok : bool) (msg : string) : ActionResult :=
  {| success := ok; message := msg; data := None |}.

(** The module object [igAutomation] as the routes use it. *)
Record IgAutomation : Type := {
  followUser : string -> string -> outcome ActionResult;
  unfollowUser : string -> string -> outcome ActionResult;
  likePost : string -> string -> outcome ActionResult;
  unlikePost : string -> string -> outcome ActionResult;
  commentPost : string -> string -> string -> outcome ActionResult;
  deleteComment : string -> string -> string -> outcome ActionResult;
  getInstagramProfileInfo : string -> string -> outcome ActionResult;
  removeDuplicateAccounts : string -> outcome ActionResult
}.

(* ================================================================= *)
(** ** The remote action client ([instagram-automation.js]) *)

Module InstagramAutomation.

Section Operations.

Variable env : Env.

(** [cookies['csrftoken'] || ''] *)
Definition csrftoken (cookies : gmap string string) : string :=
  Js.or_else (cookies !! "csrftoken") "".

(** [postUrl.split('/p/')[1].split('/')[0].split('?')[0]]: element 1 is
    [undefined] when [postUrl] has no ["/p/"], and calling [split] on it
    throws. *)
Definition extract_shortcode (postUrl : string) : outcome string :=
  match Js.split "/p/" postUrl !! 1%nat with
  | None =>
      Raised (JsError "Cannot read properties of undefined (reading 'split')")
  | Some tail =>
      Returned (hd "" (Js.split "?" (hd "" (Js.split "/" tail))))
  end.

Definition profile_headers (username cookieStr : string) : headers :=
  [("User-Agent", "Mozilla/5.0");
   ("X-IG-App-ID", "936619743392459");
   ("X-CSRFToken", csrftoken (parseCookieString cookieStr));
   ("Referer", "https://www.instagram.com/" +:+ username +:+ "/");
   ("Origin", "https://www.instagram.com");
   ("X-Requested-With", "XMLHttpRequest");
   ("Cookie", cookieStr)].

Definition friendship_headers (username cookieStr : string) : headers :=
  [("User-Agent", "Mozilla/5.0");
   ("X-IG-App-ID", "936619743392459");
   ("X-CSRFToken", csrftoken (parseCookieString cookieStr));
   ("Referer", "https://www.instagram.com/" +:+ username +:+ "/");
   ("Origin", "https://www.instagram.com");
   ("X-Requested-With", "XMLHttpRequest");
   ("Content-Type", "application/x-www-form-urlencoded");
   ("Cookie", cookieStr)].

Definition post_headers (postUrl cookieStr : string) : headers :=
  [("User-Agent", "Mozilla/5.0");
   ("X-CSRFToken", csrftoken (parseCookieString cookieStr));
   ("Referer", postUrl);
   ("Content-Type", "application/x-www-form-urlencoded");
   ("Cookie", cookieStr)].

Definition profile_url (username : string) : string :=
  "https://www.instagram.com/api/v1/users/web_profile_info/?username=" +:+ username.

(** The [try] block of [followUser]. *)
Definition followUser_try (username cookieStr : string) : outcome ActionResult :=
  profileResponse ← axios_get env (profile_url username)
                                  (profile_headers username cookieStr);
  if negb (resp_status profileResponse =? 200)
  then Returned (result false ("Failed to get profile info for " +:+ username))
  else
    body ← get_prop (resp_data profileResponse) "data";
    user ← get_prop body "user";
    userId ← get_prop user "id";
    idText ← String_of env userId;
    followResponse ← axios_post env
      ("https://www.instagram.com/api/v1/friendships/create/"
         +:+ idText +:+ "/")
      (JObject []) (friendship_headers username cookieStr);
    Returned (result (resp_status followResponse =? 200)
                (if resp_status followResponse =? 200
                 then "Successfully followed " +:+ username
                 else "Failed to follow " +:+ username)).

Definition followUser (username cookieStr : string) : outcome ActionResult :=
  try_catch (followUser_try username cookieStr)
    (fun error => Returned (result false
       ("Error following " +:+ username +:+ ": " +:+ message_of error))).

Definition unfollowUser_try (username cookieStr : string) : outcome ActionResult :=
  profileResponse ← axios_get env (profile_url username)
                                  (profile_headers username cookieStr);
  if negb (resp_status profileResponse =? 200)
  then Returned (result false ("Failed to get profile info for " +:+ username))
  else
    body ← get_prop (resp_data profileResponse) "data";
    user ← get_prop body "user";
    userId ← get_prop user "id";
    idText ← String_of env userId;
    unfollowResponse ← axios_post env
      ("https://www.instagram.com/api/v1/friendships/destroy/"
         +:+ idText +:+ "/")
      (JObject []) (friendship_headers username cookieStr);
    Returned (result (resp_status unfollowResponse =? 200)
                (if resp_status unfollowResponse =? 200
                 then "Successfully unfollowed " +:+ username
                 else "Failed to unfollow " +:+ username)).

Definition unfollowUser (username cookieStr : string) : outcome ActionResult :=
  try_catch (unfollowUser_try username cookieStr)
    (fun error => Returned (result false
       ("Error unfollowing " +:+ username +:+ ": " +:+ message_of error))).

(** The [try] block of [likePost]; its inner [try]/[catch] returns from
    the function when the short code cannot be extracted. *)
Definition likePost_try (postUrl cookieStr : string) : outcome ActionResult :=
  match extract_shortcode postUrl with
  | Raised _ => Returned (result false "Invalid post URL format")
  | Returned shortcode =>
      let mediaId := shortcodeToMediaId (Number_toString env) shortcode in
      response ← axios_post env
        ("https://www.instagram.com/web/likes/" +:+ mediaId +:+ "/like/")
        (JObject []) (post_headers postUrl cookieStr);
      Returned (result (resp_status response =? 200)
                  (if resp_status response =? 200
                   then "Successfully liked post: " +:+ postUrl
                   else "Failed to like post: " +:+ postUrl))
  end.

Definition likePost (postUrl cookieStr : string) : outcome ActionResult :=
  try_catch (likePost_try postUrl cookieStr)
    (fun error => Returned (result false
       ("Error liking post: " +:+ message_of error))).

Definition unlikePost_try (postUrl cookieStr : string) : outcome ActionResult :=
  match extract_shortcode postUrl with
  | Raised _ => Returned (result false "Invalid post URL format")
  | Returned shortcode =>
      let mediaId := shortcodeToMediaId (Number_toString env) shortcode in
      response ← axios_post env
        ("https://www.instagram.com/web/likes/" +:+ mediaId +:+ "/unlike/")
        (JObject []) (post_headers postUrl cookieStr);
      Returned (result (resp_status response =? 200)
                  (if resp_status response =? 200
                   then "Successfully unliked post: " +:+ postUrl
                   else "Failed to unlike post: " +:+ postUrl))
  end.

Definition unlikePost (postUrl cookieStr : string) : outcome ActionResult :=
  try_catch (unlikePost_try postUrl cookieStr)
    (fun error => Returned (result false
       ("Error unliking post: " +:+ message_of error))).

Definition commentPost_try (postUrl commentText cookieStr : string)
  : outcome ActionResult :=
  match extract_shortcode postUrl with
  | Raised _ => Returned (result false "Invalid post URL format")
  | Returned shortcode =>
      let mediaId := shortcodeToMediaId (Number_toString env) shortcode in
      response ← axios_post env
        ("https://www.instagram.com/web/comments/" +:+ mediaId +:+ "/add/")
        (JObject [("comment_text", JString commentText)])
        (post_headers postUrl cookieStr);
      Returned (result (resp_status response =? 200)
                  (if resp_status response =? 200
                   then "Successfully commented on post: " +:+ postUrl
                   else "Failed to comment on post: " +:+ postUrl))
  end.

Definition commentPost (postUrl commentText cookieStr : string)
  : outcome ActionResult :=
  try_catch (commentPost_try postUrl commentText cookieStr)
    (fun error => Returned (result false
       ("Error commenting on post: " +:+ message_of error))).

Definition deleteComment_try (postUrl commentId cookieStr : string)
  : outcome ActionResult :=
  response ← axios_post env
    ("https://www.instagram.com/web/comments/" +:+ commentId +:+ "/delete/")
    (JObject [("comment_id", JString commentId)])
    (post_headers postUrl cookieStr);
  Returned (result (resp_status response =? 200)
              (if resp_status response =? 200
               then "Successfully deleted comment: " +:+ commentId
               else "Failed to delete comment: " +:+ commentId)).

Definition deleteComment (postUrl commentId cookieStr : string)
  : outcome ActionResult :=
  try_catch (deleteComment_try postUrl commentId cookieStr)
    (fun error => Returned (result false
       ("Error deleting comment: " +:+ message_of error))).

(** [response.status === 200 && response.data.data && response.data.data.user] *)
Definition getInstagramProfileInfo_try (username cookieStr : string)
  : outcome ActionResult :=
  response ← axios_get env (profile_url username)
                           (profile_headers username cookieStr);
  if negb (resp_status response =? 200)
  then Returned (result false ("Failed to retrieve profile info for " +:+ username))
  else
    body ← get_prop (resp_data response) "data";
    if negb (truthy_json body)
    then Returned (result false ("Failed to retrieve profile info for " +:+ username))
    else
      user ← get_prop body "user";
      if truthy_json user
      then Returned {| success := true;
                       message := "Successfully retrieved profile info for " +:+ username;
                       data := Some user |}
      else Returned (result false ("Failed to retrieve profile info for " +:+ username)).

Definition getInstagramProfileInfo (username cookieStr : string)
  : outcome ActionResult :=
  try_catch (getInstagramProfileInfo_try username cookieStr)
    (fun error => Returned (result false
       ("Error getting profile info: " +:+ message_of error))).

Definition removeDuplicateAccounts (cookieStr : string) : outcome ActionResult :=
  Returned (result true "Duplicate account check completed. No duplicates found.").

End Operations.

End InstagramAutomation.

(** [require('./instagram-automation')] *)
Definition igAutomation (env : Env) : IgAutomation := {|
  followUser := InstagramAutomation.followUser env;
  unfollowUser := InstagramAutomation.unfollowUser env;
  likePost := InstagramAutomation.likePost env;
  unlikePost := InstagramAutomation.unlikePost env;
  commentPost := InstagramAutomation.commentPost env;
  deleteComment := InstagramAutomation.deleteComment env;
  getInstagramProfileInfo := InstagramAutomation.getInstagramProfileInfo env;
  removeDuplicateAccounts := InstagramAutomation.removeDuplicateAccounts
|}.

(* ================================================================= *)
(** ** [MemStorage] ([server.js]) *)

(** A JavaScript [Map] with numeric keys: entries in insertion order;
    [set] on a present key replaces the value in place. *)
Module JsMap.

Definition t (V : Type) : Type := list (Z * V).

Fixpoint get {V : Type} (k : Z) (m : t V) : option V :=
  match m with
  | [] => None
  | (k', v) :: rest => if k' =? k then Some v else get k rest
  end.

Fixpoint set {V : Type} (k : Z) (v : V) (m : t V) : t V :=
  match m with
  | [] => [(k, v)]
  | (k', v') :: rest =>
      if k' =? k then (k', v) :: rest else (k', v') :: set k v rest
  end.

Definition values {V : Type} (m : t V) : list V := map snd m.

Definition keys {V : Type} (m : t V) : list Z := map fst m.

End JsMap.

Record Cookie : Type := {
  cookie_userId : Z;
  cookie_name : string;
  cookieString : string;
  cookie_id : Z;
  cookie_createdAt : Z
}.

(** An activity log object; [createdAt] and [updatedAt] are the
    millisecond time stamps of their [Date]s. *)
Record ActivityLog : Type := {
  log_userId : Z;
  log_type : option string;
  log_accountUsername : string;
  log_action : string;
  log_status : string;
  log_id : Z;
  log_createdAt : Z;
  log_updatedAt : option Z
}.

(** The object [logEntry] handed to [createActivityLog]. *)
Record LogEntry : Type := {
  userId : Z;
  type : option string;
  accountUsername : string;
  action : string;
  status : string
}.

(** The object [updates] handed to [updateActivityLog]: the properties
    it has override those of the stored log. *)
Record LogUpdates : Type := {
  upd_userId : option Z;
  upd_type : option (option string);
  upd_accountUsername : option string;
  upd_action : option string;
  upd_status : option string;
  upd_id : option Z;
  upd_createdAt : option Z
}.

(** [{ status: s }] *)
Definition status_update (s : string) : LogUpdates := {|
  upd_userId := None; upd_type := None; upd_accountUsername := None;
  upd_action := None; upd_status := Some s; upd_id := None;
  upd_createdAt := None
|}.

(** The part of [MemStorage] the dispatcher and the log queries touch. *)
Record MemStorage : Type := {
  cookies : JsMap.t Cookie;
  activityLogs : JsMap.t ActivityLog;
  cookieId : Z;
  logId : Z
}.

(** Storage calls and remote calls, in the order they happen. *)
Inductive Event : Type :=
| EvCreateLog (log : ActivityLog)
| EvUpdateLog (id : Z) (updates : LogUpdates)
| EvRemote (operation : string) (args : list string).

(** The state a request runs in: the store, the clock ([dates n] is the
    value of the [n]-th [new Date()], [ticks] counts those taken so far)
    and the calls made so far. *)
Record World : Type := {
  storage : MemStorage;
  dates : nat -> Z;
  ticks : nat;
  trace : list Event
}.

(** Computations over the world that may throw; the world a throw
    leaves behind is kept. *)
Definition M (A : Type) : Type := World -> outcome A * World.

#[global] Instance M_ret : MRet M := fun A a w => (Returned a, w).

#[global] Instance M_bind : MBind M := fun A B f c w =>
  match c w with
  | (Returned a, w') => f a w'
  | (Raised error, w') => (Raised error, w')
  end.

Definition try_catchM {A : Type} (body : M A) (handler : exn -> M A) : M A :=
  fun w =>
    match body w with
    | (Returned a, w') => (Returned a, w')
    | (Raised error, w') => handler error w'
    end.

Definition get_storage : M MemStorage := fun w => (Returned (storage w), w).

Definition put_storage (st : MemStorage) : M unit := fun w =>
  (Returned tt,
   {| storage := st; dates := dates w; ticks := ticks w; trace := trace w |}).

(** [new Date()] *)
Definition new_Date : M Z := fun w =>
  (Returned (dates w (ticks w)),
   {| storage := storage w; dates := dates w; ticks := S (ticks w);
      trace := trace w |}).

Definition record (ev : Event) : M unit := fun w =>
  (Returned tt,
   {| storage := storage w; dates := dates w; ticks := ticks w;
      trace := trace w ++ [ev] |}).

(** [await operation(args)]: the call is recorded, its outcome taken. *)
Definition await {A : Type} (operation : string) (args : list string)
    (out : outcome A) : M A :=
  fun w =>
    (out, {| storage := storage w; dates := dates w; ticks := ticks w;
             trace := trace w ++ [EvRemote operation args] |}).

Module Storage.

(** [getCookiesByUserId]: the user's cookies, in insertion order. *)
Definition cookies_of (st : MemStorage) (user_id : Z) : list Cookie :=
  filter (fun cookie => cookie_userId cookie = user_id) (JsMap.values (cookies st)).

Definition getCookiesByUserId (user_id : Z) : M (list Cookie) :=
  st ← get_storage; mret (cookies_of st user_id).

(** [{ ...log, id, createdAt: new Date() }] *)
Definition new_log (log : LogEntry) (id createdAt : Z) : ActivityLog := {|
  log_userId := userId log;
  log_type := type log;
  log_accountUsername := accountUsername log;
  log_action := action log;
  log_status := status log;
  log_id := id;
  log_createdAt := createdAt;
  log_updatedAt := None
|}.

Definition createActivityLog (log : LogEntry) : M ActivityLog :=
  st ← get_storage;
  let id := logId st in
  createdAt ← new_Date;
  let newLog := new_log log id createdAt in
  _ ← put_storage {| cookies := cookies st;
                     activityLogs := JsMap.set id newLog (activityLogs st);
                     cookieId := cookieId st;
                     logId := logId st + 1 |};
  _ ← record (EvCreateLog newLog);
  mret newLog.

(** [{ ...log, ...updates, updatedAt: new Date() }] *)
Definition merge_log (log : ActivityLog) (updates : LogUpdates) (updatedAt : Z)
  : ActivityLog := {|
  log_userId := default (log_userId log) (upd_userId updates);
  log_type := default (log_type log) (upd_type updates);
  log_accountUsername := default (log_accountUsername log) (upd_accountUsername updates);
  log_action := default (log_action log) (upd_action updates);
  log_status := default (log_status log) (upd_status updates);
  log_id := default (log_id log) (upd_id updates);
  log_createdAt := default (log_createdAt log) (upd_createdAt updates);
  log_updatedAt := Some updatedAt
|}.

(** Returns the updated log, or [None] for [false] when [id] is absent. *)
Definition updateActivityLog (id : Z) (updates : LogUpdates)
  : M (option ActivityLog) :=
  _ ← record (EvUpdateLog id updates);
  st ← get_storage;
  match JsMap.get id (activityLogs st) with
  | None => mret None
  | Some log =>
      updatedAt ← new_Date;
      let updatedLog := merge_log log updates updatedAt in
      _ ← put_storage {| cookies := cookies st;
                         activityLogs := JsMap.set id updatedLog (activityLogs st);
                         cookieId := cookieId st;
                         logId := logId st |};
      mret (Some updatedLog)
  end.

(** [Array.prototype.sort(compare)]: a stable insertion sort; [x] goes
    before the first element it does not compare greater than. *)
Fixpoint insert_sorted {A : Type} (compare : A -> A -> Z) (x : A) (l : list A)
  : list A :=
  match l with
  | [] => [x]
  | y :: rest =>
      if compare x y <=? 0 then x :: y :: rest
      else y :: insert_sorted compare x rest
  end.

Definition sort {A : Type} (compare : A -> A -> Z) (l : list A) : list A :=
  foldr (insert_sorted compare) [] l.

(** [array.slice(0, limit)] for an integer [limit]: a negative [limit]
    counts from the end of the array. *)
Definition slice0 {A : Type} (l : list A) (limit : Z) : list A :=
  let len := Z.of_nat (length l) in
  let stop := if limit <? 0 then Z.max (len + limit) 0 else Z.min limit len in
  take (Z.to_nat stop) l.

(** [getActivityLogsByUserId(userId, limit = 50)]; [None] is an omitted
    limit. *)
Definition getActivityLogsByUserId (st : MemStorage) (user_id : Z)
    (limit : option Z) : list ActivityLog :=
  let logs := filter (fun log => log_userId log = user_id)
                     (JsMap.values (activityLogs st)) in
  slice0 (sort (fun a b => log_createdAt b - log_createdAt a) logs)
         (default 50 limit).

End Storage.

(* ================================================================= *)
(** ** The dispatcher: [router.post("/run")] ([automation-routes.js]) *)

(** [req.body] *)
Record Body : Type := {
  body_type : option string;
  body_username : option string;
  body_postUrl : option string;
  body_commentText : option string;
  body_commentId : option string
}.

(** What the handler sends: the status code, the [{ success, message,
    data }] object, and the [error] property of the 500 answer. *)
Record Reply : Type := {
  code : Z;
  payload : ActionResult;
  error : option string
}.

(** [res.json(r)] and [res.status(c).json({ success: false, message: m })] *)
Definition json_reply (r : ActionResult) : Reply :=
  {| code := 200; payload := r; error := None |}.

Definition status_reply (c : Z) (m : string) : Reply :=
  {| code := c; payload := result false m; error := None |}.

(** [case label:] of [switch (type)], a strict comparison. *)
Definition is_case (type : option string) (label : string) : bool :=
  match type with
  | Some t => String.eqb t label
  | None => false
  end.

(** The string of a field, read after the field was found truthy. *)
Definition text (field : option string) : string := default "" field.

(** [logEntry.action = a] *)
Definition with_action (logEntry : LogEntry) (a : string) : LogEntry := {|
  userId := userId logEntry;
  type := type logEntry;
  accountUsername := accountUsername logEntry;
  action := a;
  status := status logEntry
|}.

(** [{ status: result.success ? "success" : "failed" }] *)
Definition outcome_update (r : ActionResult) : LogUpdates :=
  status_update (if success r then "success" else "failed").

Section Run.

Variable ig : IgAutomation.

Import Storage.

(** The [try] block of the handler, for the logged-in user [user_id]
    ([isAuthenticated] has let the request through). *)
Definition run_try (user_id : Z) (body : Body) : M Reply :=
  let type := body_type body in
  let username := body_username body in
  let postUrl := body_postUrl body in
  let commentText := body_commentText body in
  let commentId := body_commentId body in
  cookies ← getCookiesByUserId user_id;
  match cookies with
  | [] =>
      mret (status_reply 400
              "No cookies available. Please add an account or cookie first.")
  | first :: _ =>
      let result0 := result false "Unknown automation type" in
      let cookieValue := cookieString first in
      let logEntry := {| userId := user_id;
                         type := type;
                         accountUsername := Js.or_else username "Unknown";
                         action := "Pending";
                         status := "pending" |} in
      if is_case type "follow" then
        if negb (Js.truthy username)
        then mret (status_reply 400 "Username is required")
        else
          activityLogFollow ← createActivityLog
            (with_action logEntry ("Followed @" +:+ text username));
          result ← await "followUser" [text username; cookieValue]
                     (followUser ig (text username) cookieValue);
          _ ← updateActivityLog (log_id activityLogFollow) (outcome_update result);
          mret (json_reply result)
      else if is_case type "unfollow" then
        if negb (Js.truthy username)
        then mret (status_reply 400 "Username is required")
        else
          activityLogUnfollow ← createActivityLog
            (with_action logEntry ("Unfollowed @" +:+ text username));
          result ← await "unfollowUser" [text username; cookieValue]
                     (unfollowUser ig (text username) cookieValue);
          _ ← updateActivityLog (log_id activityLogUnfollow) (outcome_update result);
          mret (json_reply result)
      else if is_case type "like" then
        if negb (Js.truthy postUrl)
        then mret (status_reply 400 "Post URL is required")
        else
          activityLogLike ← createActivityLog
            (with_action logEntry ("Liked post: " +:+ text postUrl));
          result ← await "likePost" [text postUrl; cookieValue]
                     (likePost ig (text postUrl) cookieValue);
          _ ← updateActivityLog (log_id activityLogLike) (outcome_update result);
          mret (json_reply result)
      else if is_case type "unlike" then
        if negb (Js.truthy postUrl)
        then mret (status_reply 400 "Post URL is required")
        else
          activityLogUnlike ← createActivityLog
            (with_action logEntry ("Unliked post: " +:+ text postUrl));
          result ← await "unlikePost" [text postUrl; cookieValue]
                     (unlikePost ig (text postUrl) cookieValue);
          _ ← updateActivityLog (log_id activityLogUnlike) (outcome_update result);
          mret (json_reply result)
      else if is_case type "comment" then
        if negb (Js.truthy postUrl) || negb (Js.truthy commentText)
        then mret (status_reply 400 "Post URL and comment text are required")
        else
          activityLogComment ← createActivityLog
            (with_action logEntry ("Commented on post: " +:+ text postUrl));
          result ← await "commentPost" [text postUrl; text commentText; cookieValue]
                     (commentPost ig (text postUrl) (text commentText) cookieValue);
          _ ← updateActivityLog (log_id activityLogComment) (outcome_update result);
          mret (json_reply result)
      else if is_case type "delete_comment" then
        if negb (Js.truthy commentId)
        then mret (status_reply 400 "Comment ID is required")
        else
          activityLogDeleteComment ← createActivityLog
            (with_action logEntry ("Deleted comment: " +:+ text commentId));
          result ← await "deleteComment"
                     [Js.or_else postUrl ""; text commentId; cookieValue]
                     (deleteComment ig (Js.or_else postUrl "") (text commentId)
                        cookieValue);
          _ ← updateActivityLog (log_id activityLogDeleteComment)
                (outcome_update result);
          mret (json_reply result)
      else if is_case type "profile_info" then
        if negb (Js.truthy username)
        then mret (status_reply 400 "Username is required")
        else
          activityLogProfile ← createActivityLog
            (with_action logEntry ("Retrieved profile info: @" +:+ text username));
          result ← await "getInstagramProfileInfo" [text username; cookieValue]
                     (getInstagramProfileInfo ig (text username) cookieValue);
          _ ← updateActivityLog (log_id activityLogProfile) (outcome_update result);
          mret (json_reply result)
      else if is_case type "duplicates" then
        activityLogDuplicates ← createActivityLog
          (with_action logEntry "Removed duplicate accounts");
        result ← await "removeDuplicateAccounts" [cookieValue]
                   (removeDuplicateAccounts ig cookieValue);
        _ ← updateActivityLog (log_id activityLogDuplicates) (outcome_update result);
        mret (json_reply result)
      else mret (json_reply result0)
  end.

(** The handler: [try { ... } catch (error) { res.status(500).json(...) }]. *)
Definition run (user_id : Z) (body : Body) : M Reply :=
  try_catchM (run_try user_id body)
    (fun error => mret {| code := 500;
                          payload := result false "Error running automation";
                          error := Some (message_of error) |}).

End Run.

(* ================================================================= *)
(** ** Vocabulary of the statements *)

(** What the [switch] decides for a request, once a cookie is at hand:
    an answer sent at once, or an action with the text of its log
    entry, the remote operation, its arguments and its outcome. *)
Inductive Plan : Type :=
| Reject (reply : Reply)
| Perform (action operation : string) (args : list string)
          (out : outcome ActionResult).

Definition plan (ig : IgAutomation) (body : Body) (cookieValue : string) : Plan :=
  let type := body_type body in
  let username := body_username body in
  let postUrl := body_postUrl body in
  let commentText := body_commentText body in
  let commentId := body_commentId body in
  if is_case type "follow" then
    if negb (Js.truthy username)
    then Reject (status_reply 400 "Username is required")
    else Perform ("Followed @" +:+ text username)
           "followUser" [text username; cookieValue]
           (followUser ig (text username) cookieValue)
  else if is_case type "unfollow" then
    if negb (Js.truthy username)
    then Reject (status_reply 400 "Username is required")
    else Perform ("Unfollowed @" +:+ text username)
           "unfollowUser" [text username; cookieValue]
           (unfollowUser ig (text username) cookieValue)
  else if is_case type "like" then
    if negb (Js.truthy postUrl)
    then Reject (status_reply 400 "Post URL is required")
    else Perform ("Liked post: " +:+ text postUrl)
           "likePost" [text postUrl; cookieValue]
           (likePost ig (text postUrl) cookieValue)
  else if is_case type "unlike" then
    if negb (Js.truthy postUrl)
    then Reject (status_reply 400 "Post URL is required")
    else Perform ("Unliked post: " +:+ text postUrl)
           "unlikePost" [text postUrl; cookieValue]
           (unlikePost ig (text postUrl) cookieValue)
  else if is_case type "comment" then
    if negb (Js.truthy postUrl) || negb (Js.truthy commentText)
    then Reject (status_reply 400 "Post URL and comment text are required")
    else Perform ("Commented on post: " +:+ text postUrl)
           "commentPost" [text postUrl; text commentText; cookieValue]
           (commentPost ig (text postUrl) (text commentText) cookieValue)
  else if is_case type "delete_comment" then
    if negb (Js.truthy commentId)
    then Reject (status_reply 400 "Comment ID is required")
    else Perform ("Deleted comment: " +:+ text commentId)
           "deleteComment" [Js.or_else postUrl ""; text commentId; cookieValue]
           (deleteComment ig (Js.or_else postUrl "") (text commentId) cookieValue)
  else if is_case type "profile_info" then
    if negb (Js.truthy username)
    then Reject (status_reply 400 "Username is required")
    else Perform ("Retrieved profile info: @" +:+ text username)
           "getInstagramProfileInfo" [text username; cookieValue]
           (getInstagramProfileInfo ig (text username) cookieValue)
  else if is_case type "duplicates" then
    Perform "Removed duplicate accounts"
      "removeDuplicateAccounts" [cookieValue]
      (removeDuplicateAccounts ig cookieValue)
  else Reject (json_reply (result false "Unknown automation type")).

(** What every dispatching [case] does after its check: create the
    pending entry, await the remote operation, update the entry, answer. *)
Definition perform (user_id : Z) (body : Body) (action operation : string)
    (args : list string) (out : outcome ActionResult) : M Reply :=
  log ← Storage.createActivityLog
          {| userId := user_id;
             type := body_type body;
             accountUsername := Js.or_else (body_username body) "Unknown";
             action := action;
             status := "pending" |};
  result ← await operation args out;
  _ ← Storage.updateActivityLog (log_id log) (outcome_update result);
  mret (json_reply result).

(** The number of binary digits of a mantissa. *)
Definition dig (p : positive) : Z := Z.pos (digits2_pos p).

(** The binary64 number of value [±q * 2^x], for [q] of at most 53
    digits: the mantissa is [q] shifted to 53 digits. *)
Definition canon (s : bool) (q : positive) (x : Z) : number :=
  S754_finite s (Pos.shiftl q (Z.to_N (53 - dig q))) (x + dig q - 53).

(** The integer [±q]. *)
Definition signed (s : bool) (q : positive) : Z := cond_Zopp s (Z.pos q).

(** Every character of [s] is one of the 64 symbols. *)
Fixpoint over_alphabet (s : string) : Prop :=
  match s with
  | EmptyString => True
  | String c rest => In c (list_ascii_of_string alphabet) /\ over_alphabet rest
  end.

(** The labels of the [switch]. *)
Definition case_labels : list string :=
  ["follow"; "unfollow"; "like"; "unlike"; "comment"; "delete_comment";
   "profile_info"; "duplicates"].

(** The log entry of a dispatched action as [createActivityLog] stores
    it in world [w]. *)
Definition pending_log (w : World) (user_id : Z) (body : Body) (action : string)
  : ActivityLog := {|
  log_userId := user_id;
  log_type := body_type body;
  log_accountUsername := Js.or_else (body_username body) "Unknown";
  log_action := action;
  log_status := "pending";
  log_id := logId (storage w);
  log_createdAt := dates w (ticks w);
  log_updatedAt := None
|}.

(** The same entry after its update to [final] at the next clock
    reading. *)
Definition settled_log (w : World) (user_id : Z) (body : Body)
    (action final : string) : ActivityLog := {|
  log_userId := user_id;
  log_type := body_type body;
  log_accountUsername := Js.or_else (body_username body) "Unknown";
  log_action := action;
  log_status := final;
  log_id := logId (storage w);
  log_createdAt := dates w (ticks w);
  log_updatedAt := Some (dates w (S (ticks w)))
|}.

Definition terminal (r : ActionResult) : string :=
  if success r then "success" else "failed".

(** The identifiers handed out so far are below [logId]: the store was
    filled by [createActivityLog] alone. *)
Definition fresh_ids (st : MemStorage) : Prop :=
  Forall (fun k => k < logId st) (JsMap.keys (activityLogs st)).

(** [c] does not occur in [s]. *)
Fixpoint lacks (c : ascii) (s : string) : Prop :=
  match s with
  | EmptyString => True
  | String d rest => d <> c /\ lacks c rest
  end.

(** Newest first. *)
Definition newer_first {A : Type} (key : A -> Z) (a b : A) : Prop :=
  key b <= key a.

Definition descending (logs : list ActivityLog) : Prop :=
  StronglySorted (newer_first log_createdAt) logs.

(** A segment [key=value] or [key=value=more] with non-empty [key] and
    [value], neither containing ["="]. *)
Definition kept_as (part key value : string) : Prop :=
  exists tail,
    part = key +:+ "=" +:+ value +:+ tail /\
    (tail = "" \/ exists more, tail = "=" +:+ more) /\
    lacks "=" key /\ lacks "=" value /\ key <> "" /\ value <> "".

(** A post URL from which no short code can be taken: it has no ["/p/"]. *)
Definition malformed (postUrl : string) : Prop :=
  Js.split "/p/" postUrl !! 1%nat = None.

(* ----------------------------------------------------------------- *)
(** *** Sample data *)

Module Sample.

(** A store holding the cookie of scenario 1 for user 1, and no log. *)
Definition cookie1 : Cookie := {|
  cookie_userId := 1; cookie_name := "main";
  cookieString := "csrftoken=abc123; sessionid=xyz";
  cookie_id := 1; cookie_createdAt := 1000
|}.

Definition store1 : MemStorage := {|
  cookies := [(1, cookie1)]; activityLogs := []; cookieId := 2; logId := 1
|}.

Definition world1 : World := {|
  storage := store1; dates := fun n => 2000 + Z.of_nat n; ticks := 0; trace := []
|}.

(** A store without any cookie. *)
Definition world0 : World := {|
  storage := {| cookies := []; activityLogs := []; cookieId := 1; logId := 1 |};
  dates := fun n => 2000 + Z.of_nat n; ticks := 0; trace := []
|}.

Definition request (type : string) : Body := {|
  body_type := Some type; body_username := None; body_postUrl := None;
  body_commentText := None; body_commentId := None
|}.

Definition follow_alice : Body := {|
  body_type := Some "follow"; body_username := Some "alice";
  body_postUrl := None; body_commentText := None; body_commentId := None
|}.

(** Scenario 3 of the specification, and the same request with a
    comment text. *)
Definition comment_without_text : Body := {|
  body_type := Some "comment"; body_username := None;
  body_postUrl := Some "not-a-valid-url";
  body_commentText := None; body_commentId := None
|}.

Definition comment_with_text : Body := {|
  body_type := Some "comment"; body_username := None;
  body_postUrl := Some "not-a-valid-url";
  body_commentText := Some "nice"; body_commentId := None
|}.

(** A remote client every operation of which raises. *)
Definition raising (msg : string) : IgAutomation := {|
  followUser := fun _ _ => Raised (JsError msg);
  unfollowUser := fun _ _ => Raised (JsError msg);
  likePost := fun _ _ => Raised (JsError msg);
  unlikePost := fun _ _ => Raised (JsError msg);
  commentPost := fun _ _ _ => Raised (JsError msg);
  deleteComment := fun _ _ _ => Raised (JsError msg);
  getInstagramProfileInfo := fun _ _ => Raised (JsError msg);
  removeDuplicateAccounts := fun _ => Raised (JsError msg)
|}.

(** A network that is down: every request is rejected with [msg]. *)
Definition offline (msg : string) : Env := {|
  Number_toString := fun _ => "0";
  String_of := fun _ => Returned "";
  axios_get := fun _ _ => Raised (JsError msg);
  axios_post := fun _ _ _ => Raised (JsError msg)
|}.

Definition log_at (id user_id createdAt : Z) : ActivityLog := {|
  log_userId := user_id; log_type := Some "duplicates";
  log_accountUsername := "Unknown"; log_action := "Removed duplicate accounts";
  log_status := "success"; log_id := id; log_createdAt := createdAt;
  log_updatedAt := Some createdAt
|}.

(** Three logs, two of them of user 1. *)
Definition store3 : MemStorage := {|
  cookies := [];
  activityLogs := [(1, log_at 1 1 100); (2, log_at 2 2 150); (3, log_at 3 1 200)];
  cookieId := 1; logId := 4
|}.

End Sample.

(* ================================================================= *)

(* ================================================================= *)
(** ** More of [MemStorage]: cookies and single logs *)

(** [Map.prototype.delete] and [Map.prototype.has]. *)
Module JsMapMore.

Definition delete {V : Type} (k : Z) (m : list (Z * V)) : list (Z * V) :=
  filter (fun entry => fst entry <> k) m.

Definition has {V : Type} (k : Z) (m : JsMap.t V) : bool :=
  match JsMap.get k m with
  | Some _ => true
  | None => false
  end.

End JsMapMore.

(** The object handed to [createCookie]: [{ userId, name, cookieString }]. *)
Record NewCookie : Type := {
  new_userId : Z;
  new_name : string;
  new_cookieString : string
}.

Module Store.

(** [{ ...cookie, id, createdAt: new Date() }] *)
Definition new_cookie (cookie : NewCookie) (id createdAt : Z) : Cookie := {|
  cookie_userId := new_userId cookie;
  cookie_name := new_name cookie;
  cookieString := new_cookieString cookie;
  cookie_id := id;
  cookie_createdAt := createdAt
|}.

Definition createCookie (cookie : NewCookie) : M Cookie :=
  st ← get_storage;
  let id := cookieId st in
  createdAt ← new_Date;
  let newCookie := new_cookie cookie id createdAt in
  _ ← put_storage {| cookies := JsMap.set id newCookie (cookies st);
                     activityLogs := activityLogs st;
                     cookieId := cookieId st + 1;
                     logId := logId st |};
  mret newCookie.

Definition getCookie (id : Z) : M (option Cookie) :=
  st ← get_storage; mret (JsMap.get id (cookies st)).

(** [return this.cookies.delete(Number(id))]: whether the cookie was there. *)
Definition deleteCookie (id : Z) : M bool :=
  st ← get_storage;
  _ ← put_storage {| cookies := JsMapMore.delete id (cookies st);
                     activityLogs := activityLogs st;
                     cookieId := cookieId st;
                     logId := logId st |};
  mret (JsMapMore.has id (cookies st)).

Definition getActivityLog (id : Z) : M (option ActivityLog) :=
  st ← get_storage; mret (JsMap.get id (activityLogs st)).

End Store.

(** The cookie identifiers handed out so far are below [cookieId]. *)
Definition fresh_cookie_ids (st : MemStorage) : Prop :=
  Forall (fun k => k < cookieId st) (JsMap.keys (cookies st)).

(** The value a run leaves and the world it leaves. *)
Definition value_of {A : Type} (run : outcome A * World) : outcome A := fst run.
Definition world_of {A : Type} (run : outcome A * World) : World := snd run.

(** A request that lacks a field its kind requires, with the message
    the handler answers. *)
Inductive missing_field (body : Body) : string -> Prop :=
| missing_username (kind : string) :
    body_type body = Some kind ->
    In kind ["follow"; "unfollow"; "profile_info"] ->
    Js.truthy (body_username body) = false ->
    missing_field body "Username is required"
| missing_postUrl (kind : string) :
    body_type body = Some kind ->
    In kind ["like"; "unlike"] ->
    Js.truthy (body_postUrl body) = false ->
    missing_field body "Post URL is required"
| missing_comment :
    body_type body = Some "comment" ->
    Js.truthy (body_postUrl body) = false \/
    Js.truthy (body_commentText body) = false ->
    missing_field body "Post URL and comment text are required"
| missing_commentId :
    body_type body = Some "delete_comment" ->
    Js.truthy (body_commentId body) = false ->
    missing_field body "Comment ID is required".

(* ================================================================= *)
(** ** More of JavaScript strings *)

Module JsMore.

(** [s.includes(sub)] *)
Fixpoint includes (s sub : string) : bool :=
  String.prefix sub s ||
  match s with
  | EmptyString => false
  | String _ rest => includes rest sub
  end.

End JsMore.

(* ================================================================= *)
(** ** Checking a cookie, saving a cookie *)

(** [axios.get(url, { headers, maxRedirects, validateStatus })]: the
    transport with the two options the login checks pass. *)
Definition axios_get_with : Type :=
  string -> headers -> Z -> (Z -> bool) -> outcome response.

(** [await p] for a promise that is not a remote operation of the
    dispatcher: nothing is recorded. *)
Definition lift_outcome {A : Type} (out : outcome A) : M A := fun w => (out, w).

(** An object is truthy, whatever its properties. *)
Definition truthy_object {A : Type} (object : A) : bool := true.

(** [instagram-check-login.js].  Its [parseCookieString] is, letter for
    letter, the one of [instagram-automation.js]. *)
Module CheckLogin.

(** [{ success, isLoggedIn, message }] *)
Record LoginStatus : Type := {
  login_success : bool;
  login_isLoggedIn : bool;
  login_message : string
}.

Section Transport.

Variable get : axios_get_with.

Definition isLoggedIn_try (cookieStr : string) : outcome LoginStatus :=
  let cookies := parseCookieString cookieStr in
  response ← get "https://www.instagram.com/accounts/edit/"
                 [("User-Agent", "Mozilla/5.0 (Windows NT 10.0; Win64; x64)");
                  ("X-CSRFToken", Js.or_else (cookies !! "csrftoken") "");
                  ("Cookie", cookieStr)]
                 0
                 (fun status => (status =? 200) || (status =? 302));
  let isAuthenticated := resp_status response =? 200 in
  Returned {| login_success := true;
              login_isLoggedIn := isAuthenticated;
              login_message := if isAuthenticated
                               then "Cookie is valid and user is logged in"
                               else "Cookie is invalid or expired" |}.

Definition isLoggedIn (cookieStr : string) : outcome LoginStatus :=
  try_catch (isLoggedIn_try cookieStr)
    (fun error => Returned
       {| login_success := false;
          login_isLoggedIn := false;
          login_message := "Error checking login status: " +:+ message_of error |}).

End Transport.

End CheckLogin.

(** [isLoggedIn] of [instagram-automation.js]: a boolean. *)
Module AutomationLogin.

Section Transport.

Variable get : axios_get_with.

Definition isLoggedIn_try (cookieStr : string) : outcome bool :=
  let cookies := parseCookieString cookieStr in
  response ← get "https://www.instagram.com/accounts/edit/"
                 [("User-Agent", "Mozilla/5.0");
                  ("X-CSRFToken", Js.or_else (cookies !! "csrftoken") "");
                  ("Cookie", cookieStr)]
                 0
                 (fun status => status =? 200);
  Returned (resp_status response =? 200).

Definition isLoggedIn (cookieStr : string) : outcome bool :=
  try_catch (isLoggedIn_try cookieStr) (fun error => Returned false).

End Transport.

End AutomationLogin.

(** [router.post("/check-login")] of [automation-routes.js] *)
Module CheckLoginRoute.

(** [{ success, isLoggedIn, message, error }] with its status code *)
Record Answer : Type := {
  answer_code : Z;
  answer_success : bool;
  answer_isLoggedIn : option bool;
  answer_message : string;
  answer_error : option string
}.

Definition check_login (isLoggedIn : string -> outcome bool)
    (cookieString : option string) : outcome Answer :=
  try_catch
    (if negb (Js.truthy cookieString)
     then Returned {| answer_code := 400; answer_success := false;
                      answer_isLoggedIn := None;
                      answer_message := "Cookie string is required";
                      answer_error := None |}
     else
       isValid ← isLoggedIn (text cookieString);
       Returned {| answer_code := 200; answer_success := true;
                   answer_isLoggedIn := Some isValid;
                   answer_message := if isValid then "Cookie is valid"
                                     else "Cookie is invalid or expired";
                   answer_error := None |})
    (fun error =>
       Returned {| answer_code := 500; answer_success := false;
                   answer_isLoggedIn := None;
                   answer_message := "Error checking login status";
                   answer_error := Some (message_of error) |}).

End CheckLoginRoute.

(** [app.post("/api/instagram/save-cookie")] of [server.js] *)
Module SaveCookieRoute.

(** [{ success, message, cookie, error }] with its status code; the 400
    answer for missing fields has a message only. *)
Record Answer : Type := {
  answer_code : Z;
  answer_success : option bool;
  answer_message : string;
  answer_cookie : option Cookie;
  answer_error : option string
}.

(** The handler, for the logged-in user [user_id]; [isLoggedIn] is
    what [require('./instagram-check-login')] gives. *)
Definition save_cookie (isLoggedIn : string -> outcome CheckLogin.LoginStatus)
    (user_id : Z) (name cookieString : option string) : M Answer :=
  try_catchM
    (if negb (Js.truthy name) || negb (Js.truthy cookieString)
     then mret {| answer_code := 400; answer_success := None;
                  answer_message := "Name and cookie string are required";
                  answer_cookie := None; answer_error := None |}
     else
       validCookie ← lift_outcome (isLoggedIn (text cookieString));
       if negb (truthy_object validCookie)
       then mret {| answer_code := 400; answer_success := Some false;
                    answer_message := "Invalid or expired cookie";
                    answer_cookie := None; answer_error := None |}
       else
         cookie ← Store.createCookie {| new_userId := user_id;
                                        new_name := text name;
                                        new_cookieString := text cookieString |};
         mret {| answer_code := 200; answer_success := Some true;
                 answer_message := "Cookie saved successfully";
                 answer_cookie := Some cookie; answer_error := None |})
    (fun error =>
       mret {| answer_code := 500; answer_success := Some false;
               answer_message := "Error saving cookie";
               answer_cookie := None;
               answer_error := Some (message_of error) |}).

End SaveCookieRoute.

(* ================================================================= *)
(** ** Vocabulary for the remote operations *)

(** [payload.data.user.id] *)
Definition read_user_id (payload : json) : outcome json :=
  body ← get_prop payload "data";
  user ← get_prop body "user";
  get_prop user "id".

(** The request is answered, with status 200. *)
Definition answered_200 (out : outcome response) : Prop :=
  exists response, out = Returned response /\ resp_status response = 200.

(** An action result that reports success. *)
Definition succeeds (out : outcome ActionResult) : Prop :=
  exists r, out = Returned r /\ success r = true.

(** [Number.prototype.toString] where the number is an integer below
    2^53 in magnitude: its decimal digits, with a minus sign for a
    negative one. *)
Definition integer_toString (x : number) : string :=
  match Number.to_Z x with
  | Some z => pretty z
  | None => "NaN"
  end.

(** The failure [{ success: false, message }], returned. *)
Definition failed (msg : string) : outcome ActionResult :=
  Returned {| success := false; message := msg; data := None |}.

(** The faults that can meet [followUser] and [unfollowUser], each with
    the text of its error: the profile lookup is rejected; the lookup
    is answered 200 but [data.user.id] cannot be read from the payload;
    the [id] cannot be converted to a string; the request to the
    friendship address, which is [address] followed by the [id], is
    rejected. *)
Inductive friendship_fault (env : Env) (address username cookieStr text : string)
  : Prop :=
| lookup_rejected :
    axios_get env (InstagramAutomation.profile_url username)
      (InstagramAutomation.profile_headers username cookieStr)
    = Raised (JsError text) ->
    friendship_fault env address username cookieStr text
| payload_unreadable (lookup : response) :
    axios_get env (InstagramAutomation.profile_url username)
      (InstagramAutomation.profile_headers username cookieStr)
    = Returned lookup ->
    resp_status lookup = 200 ->
    read_user_id (resp_data lookup) = Raised (JsError text) ->
    friendship_fault env address username cookieStr text
| id_unconvertible (lookup : response) (userId : json) :
    axios_get env (InstagramAutomation.profile_url username)
      (InstagramAutomation.profile_headers username cookieStr)
    = Returned lookup ->
    resp_status lookup = 200 ->
    read_user_id (resp_data lookup) = Returned userId ->
    String_of env userId = Raised (JsError text) ->
    friendship_fault env address username cookieStr text
| friendship_rejected (lookup : response) (userId : json) (idText : string) :
    axios_get env (InstagramAutomation.profile_url username)
      (InstagramAutomation.profile_headers username cookieStr)
    = Returned lookup ->
    resp_status lookup = 200 ->
    read_user_id (resp_data lookup) = Returned userId ->
    String_of env userId = Returned idText ->
    axios_post env (address +:+ idText +:+ "/") (JObject [])
      (InstagramAutomation.friendship_headers username cookieStr)
    = Raised (JsError text) ->
    friendship_fault env address username cookieStr text.

(* ================================================================= *)
(** ** [parseTimeLimitToSeconds] *)

Module JsText.

Definition code (c : ascii) : Z := Z.of_nat (nat_of_ascii c).

(** [s.toLowerCase()] among the characters below 256: the letters
    [A]-[Z], and the accented capitals 192-222 other than the
    multiplication sign 215, move up by 32. *)
Definition lower_char (c : ascii) : ascii :=
  let n := code c in
  if (65 <=? n) && (n <=? 90) || (192 <=? n) && (n <=? 222) && negb (n =? 215)
  then ascii_of_nat (Z.to_nat (n + 32))
  else c.

Fixpoint toLowerCase (s : string) : string :=
  match s with
  | EmptyString => EmptyString
  | String c rest => String (lower_char c) (toLowerCase rest)
  end.

(** The class [\d]: [0]-[9]. *)
Definition is_digit (c : ascii) : bool := (48 <=? code c) && (code c <=? 57).

(** [s.replace(/\D/g, "")] *)
Fixpoint remove_non_digits (s : string) : string :=
  match s with
  | EmptyString => EmptyString
  | String c rest =>
      if is_digit c then String c (remove_non_digits rest)
      else remove_non_digits rest
  end.

(** The value of [c] as a digit of [radix], for [radix] 10 or 16. *)
Definition digit_value (radix : Z) (c : ascii) : option Z :=
  let n := code c in
  let value :=
    if (48 <=? n) && (n <=? 57) then Some (n - 48)
    else if (97 <=? n) && (n <=? 122) then Some (n - 87)
    else if (65 <=? n) && (n <=? 90) then Some (n - 55)
    else None in
  match value with
  | Some d => if d <? radix then Some d else None
  | None => None
  end.

(** The digits of [radix] at the start of [s]. *)
Fixpoint leading_digits (radix : Z) (s : string) : list Z :=
  match s with
  | EmptyString => []
  | String c rest =>
      match digit_value radix c with
      | Some d => d :: leading_digits radix rest
      | None => []
      end
  end.

(** The integer that digits denote in [radix]. *)
Definition positional (radix : Z) (digits : list Z) : Z :=
  fold_left (fun value d => value * radix + d) digits 0.

(** [parseInt(s)] without a radix: white space at the start is
    skipped, then a sign, then [0x] or [0X] selects radix 16; the
    digits that follow are read, and without a digit the result is
    [NaN].  The integer read becomes the nearest [Number]; minus zero
    is [-0]. *)
Definition parseInt (s : string) : number :=
  let s := Js.trimStart s in
  let negative := match s with
                  | String c _ => Ascii.eqb c "-"
                  | EmptyString => false
                  end in
  let s := match s with
           | String c rest =>
               if Ascii.eqb c "-" || Ascii.eqb c "+" then rest else s
           | EmptyString => s
           end in
  let hex := match s with
             | String c (String x _) =>
                 Ascii.eqb c "0" && (Ascii.eqb x "x" || Ascii.eqb x "X")
             | _ => false
             end in
  let radix := if hex then 16 else 10 in
  let s := match s with
           | String _ (String _ rest) => if hex then rest else s
           | _ => s
           end in
  match leading_digits radix s with
  | [] => S754_nan
  | digits =>
      let mathInt := positional radix digits in
      if mathInt =? 0 then S754_zero negative
      else Number.of_Z (if negative then - mathInt else mathInt)
  end.

End JsText.

(** [parseTimeLimitToSeconds(timeStr)] of [instagram-automation.js] *)
Definition parseTimeLimitToSeconds (timeStr : string) : outcome number :=
  let timeStr := Js.trim (JsText.toLowerCase timeStr) in
  if JsMore.includes timeStr "hour"
  then
    let num := JsText.parseInt (JsText.remove_non_digits timeStr) in
    Returned (Number.mul num (Number.of_Z 3600))
  else if JsMore.includes timeStr "minute"
  then
    let num := JsText.parseInt (JsText.remove_non_digits timeStr) in
    Returned (Number.mul num (Number.of_Z 60))
  else if JsMore.includes timeStr "sec"
  then
    let num := JsText.parseInt (JsText.remove_non_digits timeStr) in
    Returned num
  else
    try_catch
      (Returned (Number.mul (JsText.parseInt timeStr) (Number.of_Z 60)))
      (fun _ => Returned (Number.of_Z 300)).

(** The integer written by the decimal digits of [s], all of them. *)
Definition decimal (s : string) : Z :=
  JsText.positional 10 (JsText.leading_digits 10 (JsText.remove_non_digits s)).

(** No character of [s] is a decimal digit. *)
Definition digitless (s : string) : Prop := JsText.remove_non_digits s = "".

(** The seconds in the unit that the text names: the first of
    ["hour"], ["minute"], ["sec"] that occurs in it. *)
Definition unit_seconds (text : string) : option Z :=
  if JsMore.includes text "hour" then Some 3600
  else if JsMore.includes text "minute" then Some 60
  else if JsMore.includes text "sec" then Some 1
  else None.

(* ================================================================= *)
(** ** Passwords and registration *)

(** [server.js]: [hashPassword], [comparePasswords], the verify
    function of the local strategy, the route [/api/auth/register] and
    the user methods of [MemStorage].  The fields of a request are
    strings, or missing.  [crypto.scrypt] is called with a string
    password, a string salt and the key length 64, for which it derives
    a key: it is a function [scrypt] of the embedding, and nothing in
    these functions throws. *)
Module Auth.

Definition hex_digit (n : Z) : ascii :=
  match String.get (Z.to_nat n) "0123456789abcdef" with
  | Some c => c
  | None => "0"%char
  end.

Definition hex_of_byte (b : Byte.byte) : string :=
  let n := Z.of_N (Byte.to_N b) in
  String (hex_digit (n / 16)) (String (hex_digit (n mod 16)) "").

(** [buf.toString('hex')] *)
Fixpoint toString_hex (buf : list Byte.byte) : string :=
  match buf with
  | [] => ""
  | b :: rest => hex_of_byte b +:+ toString_hex rest
  end.

(** A user object of the store. *)
Record User : Type := {
  user_username : string;
  user_email : string;
  user_password : string;
  user_role : string;
  user_id : Z;
  user_createdAt : Z
}.

(** [{ username, email, password, role }], handed to [createUser] *)
Record UserData : Type := {
  data_username : string;
  data_email : string;
  data_password : string;
  data_role : string
}.

(** The fields [users] and [userId] of [MemStorage]. *)
Record Accounts : Type := {
  users : JsMap.t User;
  userId : Z
}.

(** [new MemStorage()] *)
Definition initial : Accounts := {| users := []; userId := 1 |}.

(** [getUserByUsername]: the first user of that name, in insertion
    order. *)
Definition getUserByUsername (username : string) (st : Accounts) : option User :=
  find (fun user => String.eqb (user_username user) username)
       (JsMap.values (users st)).

(** [getUser] *)
Definition getUser (id : Z) (st : Accounts) : option User :=
  JsMap.get id (users st).

(** [createUser]; [createdAt] is what [new Date()] gives. *)
Definition createUser (userData : UserData) (createdAt : Z) (st : Accounts)
  : User * Accounts :=
  let id := userId st in
  let user := {| user_username := data_username userData;
                 user_email := data_email userData;
                 user_password := data_password userData;
                 user_role := data_role userData;
                 user_id := id;
                 user_createdAt := createdAt |} in
  (user, {| users := JsMap.set id user (users st); userId := id + 1 |}).

Section Crypto.

Variable scrypt : string -> string -> Z -> list Byte.byte.

(** [hashPassword]; [randomBytes] is what [crypto.randomBytes(16)]
    gives. *)
Definition hashPassword (randomBytes : list Byte.byte) (password : string)
  : string :=
  let salt := toString_hex randomBytes in
  salt +:+ ":" +:+ toString_hex (scrypt password salt 64).

(** [comparePasswords]: [const [salt, key] = stored.split(':')], where
    [key] is [undefined] when [stored] has no colon. *)
Definition comparePasswords (supplied stored : string) : bool :=
  let pieces := Js.split ":" stored in
  let salt := hd "" pieces in
  match pieces !! 1%nat with
  | Some key => String.eqb key (toString_hex (scrypt supplied salt 64))
  | None => false
  end.

(** [createAdminUser]: the administrator is stored under the key 1. *)
Definition createAdminUser (randomBytes : list Byte.byte) (createdAt : Z)
    (st : Accounts) : Accounts :=
  let hashedPassword := hashPassword randomBytes "david@@@" in
  {| users := JsMap.set 1 {| user_username := "david";
                             user_email := "admin@example.com";
                             user_password := hashedPassword;
                             user_role := "admin";
                             user_id := 1;
                             user_createdAt := createdAt |} (users st);
     userId := userId st + 1 |}.

(** What the verify function of the local strategy hands to [done]. *)
Inductive Verdict : Type :=
  | Accepted (user : User)
  | Refused (message : string).

Definition verify (username password : string) (st : Accounts) : Verdict :=
  match getUserByUsername username st with
  | None => Refused "Incorrect username."
  | Some user =>
      if comparePasswords password (user_password user)
      then Accepted user
      else Refused "Incorrect password."
  end.

(** [{ ...user, password: undefined }] as it is sent *)
Record SentUser : Type := {
  sent_username : string;
  sent_email : string;
  sent_role : string;
  sent_id : Z;
  sent_createdAt : Z
}.

Definition without_password (user : User) : SentUser := {|
  sent_username := user_username user;
  sent_email := user_email user;
  sent_role := user_role user;
  sent_id := user_id user;
  sent_createdAt := user_createdAt user
|}.

Record Answer : Type := {
  answer_code : Z;
  answer_message : string;
  answer_user : option SentUser
}.

(** [app.post("/api/auth/register")].  The handler runs in two turns
    of the event loop.  In the first it checks the fields and looks the
    name up, on the store as it is when the request arrives, and starts
    [scrypt]; in the second, when the key is derived, it calls
    [createUser] on the store as it is then, and [req.login].  Other
    handlers can run between the two turns. *)
Inductive Checked : Type :=
  | Answered (answer : Answer)
  | Hashing (username email password : string).

(** The first turn: the handler answers, or waits for [scrypt]. *)
Definition register_check (username email password : option string)
    (st : Accounts) : Checked :=
  if negb (Js.truthy username) || negb (Js.truthy email)
     || negb (Js.truthy password)
  then Answered {| answer_code := 400;
                   answer_message := "All fields are required";
                   answer_user := None |}
  else
    match getUserByUsername (text username) st with
    | Some existingUser =>
        Answered {| answer_code := 400;
                    answer_message := "Username already exists";
                    answer_user := None |}
    | None => Hashing (text username) (text email) (text password)
    end.

(** The second turn; [login user] is the error that [req.login] hands
    to its callback, if any. *)
Definition register_create (login : User -> option exn)
    (randomBytes : list Byte.byte) (createdAt : Z)
    (username email password : string) (st : Accounts)
  : Answer * Accounts :=
  let hashedPassword := hashPassword randomBytes password in
  let '(user, st) := createUser {| data_username := username;
                                   data_email := email;
                                   data_password := hashedPassword;
                                   data_role := "user" |} createdAt st in
  match login user with
  | Some err =>
      ({| answer_code := 500;
          answer_message := "Error logging in after registration";
          answer_user := None |}, st)
  | None =>
      ({| answer_code := 200;
          answer_message := "Registration successful";
          answer_user := Some (without_password user) |}, st)
  end.

(** The handler when no other handler runs between its two turns. *)
Definition register_alone (login : User -> option exn)
    (randomBytes : list Byte.byte) (createdAt : Z)
    (username email password : option string) (st : Accounts)
  : Answer * Accounts :=
  match register_check username email password st with
  | Answered answer => (answer, st)
  | Hashing username email password =>
      register_create login randomBytes createdAt username email password st
  end.

End Crypto.

(** The invariant of the user store: the keys are below the counter,
    and no two users share a name. *)
Definition well_kept (st : Accounts) : Prop :=
  Forall (fun k => k < userId st) (JsMap.keys (users st)) /\
  NoDup (map user_username (JsMap.values (users st))).

End Auth.

(** * Properties *)

(* ================================================================= *)
(** ** Strings *)

Example split_cookie :
  Js.split "; " "csrftoken=abc123; sessionid=xyz" = ["csrftoken=abc123"; "sessionid=xyz"].
Proof. reflexivity. Qed.

Example split_url :
  Js.split "/p/" "https://example.com/p/ABC123/" = ["https://example.com"; "ABC123/"].
Proof. reflexivity. Qed.

Example split_trailing : Js.split "/p/" "a/p/" = ["a"; ""].
Proof. reflexivity. Qed.

Example split_overlap : Js.split "aa" "aaa" = [""; "a"].
Proof. reflexivity. Qed.

Example trim_both : Js.trim "  a b  " = "a b".
Proof. reflexivity. Qed.

Example parse_two :
  parseCookieString "csrftoken=abc123; sessionid=xyz"
  = <["sessionid" := "xyz"]> (<["csrftoken" := "abc123"]> ∅).
Proof. reflexivity. Qed.

Example mediaId_ABC123 :
  Number.to_Z (mediaId_number "ABC123") = Some 17522103.
Proof. vm_compute. reflexivity. Qed.

Example exact_ABC123 : Exact.mediaId "ABC123" = 17522103.
Proof. reflexivity. Qed.

Lemma append_cons (c : ascii) (s t : string) :
  String c s +:+ t = String c (s +:+ t).
Proof. reflexivity. Qed.

Lemma append_empty_l (t : string) : "" +:+ t = t.
Proof. reflexivity. Qed.

Lemma append_empty_r (s : string) : s +:+ "" = s.
Proof.
  induction s as [|c s IH]; [reflexivity | now rewrite append_cons, IH].
Qed.

Lemma append_assoc (s1 s2 s3 : string) : (s1 +:+ s2) +:+ s3 = s1 +:+ s2 +:+ s3.
Proof.
  induction s1 as [|c s1 IH]; [reflexivity | now rewrite !append_cons, IH].
Qed.

Lemma length_append (s t : string) :
  String.length (s +:+ t) = (String.length s + String.length t)%nat.
Proof.
  induction s as [|c s IH]; [reflexivity|].
  rewrite append_cons. cbn [String.length]. now rewrite IH.
Qed.

(** [split] always yields a first piece. *)
Lemma split_from_nonempty (sep : string) (s : string) (skip : nat) :
  Js.split_from sep skip s <> [].
Proof.
  revert skip. induction s as [|d s IH]; intros skip; cbn [Js.split_from].
  - discriminate.
  - destruct skip; [|apply IH].
    destruct (String.prefix sep (String d s)); [discriminate|].
    destruct (Js.split_from sep 0 s); discriminate.
Qed.

(** [split] on a one-character separator. *)
Section SplitChar.

Variable c : ascii.

Lemma prefix_char (d : ascii) (s : string) :
  String.prefix (String c "") (String d s) = Ascii.eqb c d.
Proof.
  cbn [String.prefix]. destruct (ascii_dec c d) as [->|Hne].
  - rewrite Ascii.eqb_refl. now destruct s.
  - symmetry. now apply Ascii.eqb_neq.
Qed.

Lemma split_char_step (d : ascii) (s : string) :
  Js.split (String c "") (String d s)
  = if Ascii.eqb c d then "" :: Js.split (String c "") s
    else match Js.split (String c "") s with
         | piece :: pieces => String d piece :: pieces
         | [] => [String d ""]
         end.
Proof.
  unfold Js.split. cbn [Js.split_from]. rewrite prefix_char. reflexivity.
Qed.

Lemma split_char_lacks (s : string) :
  lacks c s -> Js.split (String c "") s = [s].
Proof.
  induction s as [|d s IH]; [reflexivity|].
  intros [Hd Hs]. rewrite split_char_step, (IH Hs).
  destruct (Ascii.eqb_spec c d); [congruence | reflexivity].
Qed.

Lemma split_char_cut (key rest : string) :
  lacks c key ->
  Js.split (String c "") (key +:+ String c rest)
  = key :: Js.split (String c "") rest.
Proof.
  induction key as [|d key IH]; intros Hk.
  - rewrite append_empty_l, split_char_step, Ascii.eqb_refl. reflexivity.
  - destruct Hk as [Hd Hk]. rewrite append_cons.
    rewrite split_char_step, (IH Hk).
    destruct (Ascii.eqb_spec c d); [congruence | reflexivity].
Qed.

(** The first piece runs up to the first [c]; the other pieces are those
    of what follows it. *)
Lemma split_char_inv (s piece : string) (pieces : list string) :
  Js.split (String c "") s = piece :: pieces ->
  lacks c piece /\
  ((pieces = [] /\ s = piece) \/
   exists rest, s = piece +:+ String c rest /\ pieces = Js.split (String c "") rest).
Proof.
  revert piece pieces. induction s as [|d s IH]; intros piece pieces.
  - cbn. intros [= <- <-]. split; [exact I | now left].
  - rewrite split_char_step. destruct (Ascii.eqb_spec c d) as [->|Hne].
    + intros [= <- <-]. split; [exact I|]. right. now exists s.
    + destruct (Js.split (String c "") s) as [|p ps] eqn:Hs.
      * now apply split_from_nonempty in Hs.
      * intros [= <- <-]. destruct (IH p ps eq_refl) as [Hp Hcases].
        split; [cbn; auto|].
        destruct Hcases as [[-> ->] | (rest & -> & ->)].
        -- now left.
        -- right. now exists rest.
Qed.

End SplitChar.

Lemma truthy_string_nonempty (s : string) :
  Js.truthy_string s = true <-> s <> "".
Proof.
  unfold Js.truthy_string. destruct (String.eqb_spec s ""); split;
    intros; try congruence; try reflexivity; discriminate.
Qed.

(* ================================================================= *)
(** ** The cookie parser *)

(** A segment either leaves the object alone or stores one pair. *)
Lemma parseCookie_part_cases (cookies : gmap string string) (part : string) :
  parseCookie_part cookies part = cookies \/
  exists key value,
    kept_as part key value /\
    parseCookie_part cookies part = <[Js.trim key := Js.trim value]> cookies.
Proof.
  unfold parseCookie_part, set_prop.
  destruct (Js.split "=" part) as [|key [|value more]] eqn:Hsplit; auto.
  destruct (Js.truthy_string key) eqn:Hk; [|auto].
  destruct (Js.truthy_string value) eqn:Hv; [|auto].
  cbn [andb]. destruct (String.eqb (Js.trim key) "__proto__"); [auto|].
  right. exists key, value. split; [|reflexivity].
  apply truthy_string_nonempty in Hk, Hv.
  destruct (split_char_inv _ _ _ _ Hsplit) as [Hlk [[? _] | (rest & -> & Hrest)]];
    [discriminate|].
  symmetry in Hrest.
  destruct (split_char_inv _ _ _ _ Hrest) as [Hlv [[_ ->] | (rest' & -> & _)]].
  - exists "". rewrite append_empty_r. repeat split; auto.
  - exists ("=" +:+ rest'). repeat split; eauto.
Qed.

(** A pair found in the parsed object was stored for one of the
    segments. *)
Lemma parse_fold_lookup (parts : list string) :
  forall (cookies : gmap string string) (name v : string),
    fold_left parseCookie_part parts cookies !! name = Some v ->
    cookies !! name = Some v \/
    exists part key value,
      part ∈ parts /\ kept_as part key value /\
      name = Js.trim key /\ v = Js.trim value.
Proof.
  induction parts as [|part parts IH]; intros cookies name v Hlook.
  - now left.
  - cbn [fold_left] in Hlook. apply IH in Hlook as [Hm | (p & k & x & Hin & Hk)].
    + destruct (parseCookie_part_cases cookies part)
        as [Heq | (key & value & Hkept & Heq)]; rewrite Heq in Hm.
      * now left.
      * destruct (decide (Js.trim key = name)) as [<-|Hne].
        -- rewrite lookup_insert_eq in Hm. injection Hm as <-.
           right. exists part, key, value. repeat split; [left | exact Hkept].
        -- rewrite lookup_insert_ne in Hm by exact Hne. now left.
    + right. exists p, k, x. split; [now right | exact Hk].
Qed.

(** C9. For every cookie string, a pair of the parsed object comes from
    a segment (of the split on ["; "]) that contains ["="] with a
    non-empty key and a non-empty value before any second ["="]; for a
    segment [key=value=more] the stored value is the trimmed [value]
    alone and [more] is dropped (the key ["__proto__"] apart, which an
    object does not store); ["k=a=b"] parses to [k ↦ a]. *)
Theorem parseCookieString_keeps_first_value :
  (forall (cookieStr name v : string),
      parseCookieString cookieStr !! name = Some v ->
      exists part key value,
        part ∈ Js.split "; " cookieStr /\ kept_as part key value /\
        name = Js.trim key /\ v = Js.trim value) /\
  (forall (cookies : gmap string string) (key value more : string),
      lacks "=" key -> lacks "=" value -> key <> "" -> value <> "" ->
      Js.trim key <> "__proto__" ->
      parseCookie_part cookies (key +:+ "=" +:+ value +:+ "=" +:+ more)
      = <[Js.trim key := Js.trim value]> cookies) /\
  parseCookieString "k=a=b" = {["k" := "a"]}.
Proof.
  split; [|split].
  - intros cookieStr name v Hlook. unfold parseCookieString in Hlook.
    apply parse_fold_lookup in Hlook as [Hempty | Hpart]; [|exact Hpart].
    rewrite lookup_empty in Hempty. discriminate.
  - intros cookies key value more Hk Hv Hkne Hvne Hproto.
    unfold parseCookie_part, set_prop.
    apply String.eqb_neq in Hproto.
    change ("=" +:+ value +:+ "=" +:+ more) with (String "=" (value +:+ String "=" more)).
    rewrite (split_char_cut "=" key _ Hk), (split_char_cut "=" value _ Hv).
    apply truthy_string_nonempty in Hkne, Hvne.
    destruct (Js.split "=" more); rewrite Hkne, Hvne; cbn [andb];
      now rewrite Hproto.
  - reflexivity.
Qed.

Lemma parseCookieString_keeps_first_value_witness :
  parseCookie_part ∅ ("k" +:+ "=" +:+ "a" +:+ "=" +:+ "b") = <[Js.trim "k" := Js.trim "a"]> ∅ /\
  exists part key value,
    part ∈ Js.split "; " "k=a=b; junk" /\ kept_as part key value /\
    "k" = Js.trim key /\ "a" = Js.trim value.
Proof.
  destruct parseCookieString_keeps_first_value as (Honly & Hcut & _). split.
  - apply Hcut; cbn; repeat split; discriminate.
  - apply Honly. reflexivity.
Defined.

(** Segments that are dropped: no ["="], an empty key, an empty value. *)
Example parse_dropped :
  parseCookieString "novalue; =v; k=; k==v" = ∅.
Proof. reflexivity. Qed.

Example parse_proto : parseCookieString "__proto__=x; a=b" = {["a" := "b"]}.
Proof. reflexivity. Qed.

(** The key and the value are trimmed after the test, so a blank key
    is stored under the empty name. *)
Example parse_blank_key : parseCookieString " =v" = {["" := "v"]}.
Proof. reflexivity. Qed.

(* ================================================================= *)
(** ** The short code *)

Lemma indexOf_from_miss (s : string) (c : ascii) (i : Z) :
  ~ In c (list_ascii_of_string s) -> Js.indexOf_from i s c = -1.
Proof.
  revert i. induction s as [|d s IH]; intros i Hnot; cbn; [reflexivity|].
  destruct (Ascii.eqb_spec d c) as [->|Hne].
  - exfalso. apply Hnot. now left.
  - apply IH. intros Hin. apply Hnot. now right.
Qed.

Lemma indexOf_from_range (s : string) (c : ascii) (i : Z) :
  Js.indexOf_from i s c = -1 \/
  i <= Js.indexOf_from i s c < i + Z.of_nat (String.length s).
Proof.
  revert i. induction s as [|d s IH]; intros i; cbn [Js.indexOf_from]; [now left|].
  destruct (Ascii.eqb d c).
  - right. cbn [String.length]. lia.
  - destruct (IH (i + 1)) as [->|H]; [now left|right].
    cbn [String.length]. lia.
Qed.

(** A digit is [-1] or lies in [0..63]. *)
Lemma digit_range (c : ascii) : -1 <= Js.indexOf alphabet c < 64.
Proof.
  destruct (indexOf_from_range alphabet c 0) as [H|H]; unfold Js.indexOf.
  - rewrite H. lia.
  - change (Z.of_nat (String.length alphabet)) with 64 in H. lia.
Qed.

Lemma mediaId_loop_app (s t : string) (mediaId : number) :
  mediaId_loop mediaId (s +:+ t) = mediaId_loop (mediaId_loop mediaId s) t.
Proof.
  revert mediaId. induction s as [|c s IH]; intros mediaId; [reflexivity|].
  rewrite append_cons. cbn [mediaId_loop]. apply IH.
Qed.

Lemma exact_loop_app (s t : string) (id : Z) :
  Exact.loop id (s +:+ t) = Exact.loop (Exact.loop id s) t.
Proof.
  revert id. induction s as [|c s IH]; intros id; [reflexivity|].
  rewrite append_cons. cbn [Exact.loop]. apply IH.
Qed.

(** The left-to-right accumulation is the positional sum. *)
Lemma exact_loop_positional (s : string) (id : Z) :
  Exact.loop id s = id * 64 ^ Z.of_nat (String.length s) + Exact.positional s.
Proof.
  revert id. induction s as [|c s IH]; intros id.
  - cbn. lia.
  - cbn [Exact.loop Exact.positional String.length]. rewrite IH. unfold Exact.step.
    rewrite Nat2Z.inj_succ, Z.pow_succ_r by lia. ring.
Qed.

Lemma exact_mediaId_positional (s : string) :
  Exact.mediaId s = Exact.positional s.
Proof. unfold Exact.mediaId. rewrite exact_loop_positional. lia. Qed.

(** In unbounded integers, replacing one character by one of another
    digit value changes the identifier. *)
Lemma exact_change_one_char (before after : string) (c c' : ascii) :
  Js.indexOf alphabet c <> Js.indexOf alphabet c' ->
  Exact.mediaId (before +:+ String c after)
  <> Exact.mediaId (before +:+ String c' after).
Proof.
  intros Hdigit. unfold Exact.mediaId. rewrite !exact_loop_app.
  cbn [Exact.loop]. rewrite !exact_loop_positional. unfold Exact.step.
  assert (0 < 64 ^ Z.of_nat (String.length after)) by (apply Z.pow_pos_nonneg; lia).
  nia.
Qed.

(* ----------------------------------------------------------------- *)
(** *** Binary64 arithmetic on integers below 2^53 *)

Lemma digits2_size (p : positive) : digits2_pos p = Pos.size p.
Proof. induction p; cbn; congruence. Qed.

Lemma dig_log2 (p : positive) : dig p = Z.log2 (Z.pos p) + 1.
Proof. unfold dig. rewrite digits2_size. destruct p; cbn; lia. Qed.

Lemma dig_pos (p : positive) : 0 < dig p.
Proof. unfold dig. lia. Qed.

Lemma dig_le (p : positive) (k : Z) : 0 <= k -> (dig p <= k <-> Z.pos p < 2 ^ k).
Proof.
  intros Hk. rewrite dig_log2, (Z.log2_lt_pow2 (Z.pos p) k) by lia. lia.
Qed.

Lemma shiftl_succ (p : positive) (n : N) :
  Pos.shiftl p (N.succ n) = xO (Pos.shiftl p n).
Proof.
  destruct n as [|k]; [reflexivity|].
  change (Pos.iter xO p (Pos.succ k) = xO (Pos.iter xO p k)). apply Pos.iter_succ.
Qed.

Lemma shiftl_Z (p : positive) (n : N) :
  Z.pos (Pos.shiftl p n) = Z.pos p * 2 ^ Z.of_N n.
Proof.
  induction n as [|n IH] using N.peano_ind.
  - change (Z.pos p = Z.pos p * 2 ^ 0). rewrite Z.pow_0_r. lia.
  - rewrite shiftl_succ, N2Z.inj_succ, Z.pow_succ_r by lia.
    rewrite Pos2Z.inj_xO, IH. ring.
Qed.

Lemma dig_shiftl (p : positive) (n : N) :
  dig (Pos.shiftl p n) = dig p + Z.of_N n.
Proof.
  rewrite !dig_log2, shiftl_Z, Z.log2_mul_pow2 by lia. lia.
Qed.

Lemma shiftl_shiftl (p : positive) (n m : N) :
  Pos.shiftl (Pos.shiftl p n) m = Pos.shiftl p (n + m).
Proof.
  apply Pos2Z.inj. rewrite !shiftl_Z, N2Z.inj_add, Z.pow_add_r by lia. ring.
Qed.

(** shifting right what was shifted left *)
Lemma iter_pos_iter {A : Type} (f : A -> A) (k : positive) (x : A) :
  SpecFloat.iter_pos f k x = Pos.iter f x k.
Proof.
  revert x. induction k as [k IH|k IH|]; intros x; cbn.
  - rewrite !IH. now rewrite !Pos.iter_swap.
  - now rewrite !IH.
  - reflexivity.
Qed.

Lemma shr_shifted (m : positive) (k : positive) :
  SpecFloat.iter_pos shr_1 k {| shr_m := Z.pos (Pos.iter xO m k); shr_r := false; shr_s := false |}
  = {| shr_m := Z.pos m; shr_r := false; shr_s := false |}.
Proof.
  rewrite iter_pos_iter.
  induction k as [|k IH] using Pos.peano_ind.
  - reflexivity.
  - rewrite (Pos.iter_succ_r k _ shr_1), (Pos.iter_succ k _ xO).
    cbn [shr_1 orb]. exact IH.
Qed.

(** rounding an aligned mantissa *)
Lemma fexp_normal (e : Z) : -1021 <= e -> fexp Number.prec Number.emax e = e - 53.
Proof. intros He. unfold fexp, emin, Number.prec, Number.emax. lia. Qed.

Lemma round_aligned (s : bool) (m : positive) (e : Z) :
  dig m = 53 -> -1074 <= e <= 971 ->
  binary_round_aux Number.prec Number.emax s (Z.pos m) e loc_Exact = S754_finite s m e.
Proof.
  intros Hm He. unfold binary_round_aux, shr_fexp.
  cbn [Zdigits2 shr_record_of_loc]. fold (dig m). rewrite Hm.
  rewrite fexp_normal by lia. replace (53 + e - 53 - e) with 0 by lia.
  cbn [shr shr_m loc_of_shr_record round_nearest_even Zdigits2 shr_record_of_loc].
  fold (dig m). rewrite Hm, fexp_normal by lia.
  replace (53 + e - 53 - e) with 0 by lia.
  cbn [shr shr_m].
  unfold Number.emax, Number.prec.
  destruct (Z.leb_spec e (1024 - 53)); [reflexivity | lia].
Qed.

Lemma round_shifted (s : bool) (m : positive) (k : positive) (e : Z) :
  dig m = 53 -> -1074 <= e + Z.pos k <= 971 ->
  binary_round_aux Number.prec Number.emax s (Z.pos (Pos.iter xO m k)) e loc_Exact
  = S754_finite s m (e + Z.pos k).
Proof.
  intros Hm He. unfold binary_round_aux, shr_fexp at 1.
  cbn [Zdigits2 shr_record_of_loc].
  change (Pos.iter xO m k) with (Pos.shiftl m (Npos k)).
  fold (dig (Pos.shiftl m (N.pos k))). rewrite dig_shiftl, Hm.
  rewrite fexp_normal by (cbn [Z.of_N]; lia).
  replace (53 + Z.of_N (N.pos k) + e - 53 - e) with (Z.pos k) by (cbn [Z.of_N]; lia).
  cbn [shr]. change (Pos.shiftl m (N.pos k)) with (Pos.iter xO m k).
  rewrite shr_shifted.
  cbn [shr_m loc_of_shr_record round_nearest_even].
  unfold shr_fexp. cbn [Zdigits2 shr_record_of_loc].
  fold (dig m). rewrite Hm, fexp_normal by lia.
  replace (53 + (e + Z.pos k) - 53 - (e + Z.pos k)) with 0 by lia.
  cbn [shr shr_m].
  unfold Number.emax, Number.prec.
  destruct (Z.leb_spec (e + Z.pos k) (1024 - 53)); [reflexivity | lia].
Qed.



Lemma dig_canon (q : positive) :
  dig q <= 53 -> dig (Pos.shiftl q (Z.to_N (53 - dig q))) = 53.
Proof. intros Hq. rewrite dig_shiftl, Z2N.id; lia. Qed.

Lemma binary_round_canon (s : bool) (q : positive) (j : N) (e : Z) :
  dig q <= 53 ->
  -1074 <= e + Z.of_N j + dig q - 53 <= 971 ->
  binary_round Number.prec Number.emax s (Pos.shiftl q j) e
  = canon s q (e + Z.of_N j).
Proof.
  intros Hq He. unfold binary_round.
  fold (dig (Pos.shiftl q j)). rewrite dig_shiftl.
  rewrite fexp_normal by lia.
  unfold shl_align, canon.
  destruct (dig q + Z.of_N j + e - 53 - e) as [|k|d] eqn:Hshift.
  - replace (Z.to_N (53 - dig q)) with j by lia.
    replace (e + Z.of_N j + dig q - 53) with e by lia.
    apply round_aligned; [rewrite dig_shiftl|]; lia.
  - replace j with (Z.to_N (53 - dig q) + N.pos k)%N by lia.
    rewrite <- shiftl_shiftl.
    change (Pos.shiftl ?m (N.pos k)) with (Pos.iter xO m k).
    rewrite round_shifted; [f_equal; lia | now apply dig_canon | lia].
  - change (Pos.iter xO (Pos.shiftl q j) d) with (Pos.shiftl (Pos.shiftl q j) (N.pos d)).
    rewrite shiftl_shiftl.
    replace (j + N.pos d)%N with (Z.to_N (53 - dig q)) by lia.
    rewrite round_aligned; [f_equal; lia | now apply dig_canon | lia].
Qed.

Lemma of_Z_canon (n : Z) :
  n <> 0 -> Z.abs n < 2 ^ 53 ->
  Number.of_Z n = canon (n <? 0) (Z.to_pos (Z.abs n)) 0.
Proof.
  intros Hn Hbound. unfold Number.of_Z, binary_normalize.
  destruct n as [|p|p]; [congruence| |].
  - change (binary_round Number.prec Number.emax false p 0)
      with (binary_round Number.prec Number.emax false (Pos.shiftl p 0) 0).
    rewrite binary_round_canon; [reflexivity| |].
    + apply dig_le; [lia|]. exact Hbound.
    + pose proof (dig_pos p). assert (dig p <= 53) by (apply dig_le; [lia|exact Hbound]).
      cbn [Z.of_N]. lia.
  - change (binary_round Number.prec Number.emax true p 0)
      with (binary_round Number.prec Number.emax true (Pos.shiftl p 0) 0).
    rewrite binary_round_canon; [reflexivity| |].
    + apply dig_le; [lia|]. exact Hbound.
    + pose proof (dig_pos p). assert (dig p <= 53) by (apply dig_le; [lia|exact Hbound]).
      cbn [Z.of_N]. lia.
Qed.

Lemma mul64_canon (s : bool) (q : positive) :
  dig q + 6 <= 53 ->
  Number.mul (canon s q 0) (Number.of_Z 64) = canon s (Pos.shiftl q 6) 0.
Proof.
  intros Hq.
  assert (H64 : Number.of_Z 64 = S754_finite false (Pos.shiftl 1 52) (-46))
    by (vm_compute; reflexivity).
  rewrite H64. unfold Number.mul, SFmul, canon.
  set (m := Pos.shiftl q (Z.to_N (53 - dig q))).
  assert (Hm : (m * Pos.shiftl 1 52)%positive = Pos.iter xO m 52).
  { change (Pos.iter xO m 52) with (Pos.shiftl m 52).
    apply Pos2Z.inj. rewrite Pos2Z.inj_mul, !shiftl_Z. ring. }
  rewrite Hm, round_shifted.
  - rewrite xorb_false_r, dig_shiftl. f_equal.
    + rewrite shiftl_shiftl. subst m. f_equal. lia.
    + lia.
  - subst m. apply dig_canon. lia.
  - pose proof (dig_pos q). lia.
Qed.

Lemma shl_align_fst (m : positive) (e ez : Z) :
  ez <= e -> fst (shl_align m e ez) = Pos.shiftl m (Z.to_N (e - ez)).
Proof.
  intros Hle. unfold shl_align.
  destruct (ez - e) as [|k|d] eqn:Hd; cbn [fst].
  - replace (e - ez) with 0 by lia. reflexivity.
  - lia.
  - replace (e - ez) with (Z.pos d) by lia. reflexivity.
Qed.


Lemma of_Z_signed (s : bool) (q : positive) :
  dig q <= 53 -> Number.of_Z (signed s q) = canon s q 0.
Proof.
  intros Hq. assert (Z.pos q < 2 ^ 53) by (apply dig_le; lia).
  rewrite of_Z_canon; destruct s; cbn; try lia; reflexivity.
Qed.

Lemma add_canon (s1 s2 : bool) (q1 q2 : positive) :
  dig q1 <= 53 -> dig q2 <= 53 ->
  Z.abs (signed s1 q1 + signed s2 q2) < 2 ^ 53 ->
  Number.add (canon s1 q1 0) (canon s2 q2 0)
  = Number.of_Z (signed s1 q1 + signed s2 q2).
Proof.
  intros H1 H2 Hsum. unfold Number.add, SFadd, canon.
  pose proof (dig_pos q1). pose proof (dig_pos q2).
  set (ez := Z.min (0 + dig q1 - 53) (0 + dig q2 - 53)).
  rewrite !shl_align_fst by lia.
  rewrite !shiftl_shiftl.
  set (t := Z.to_N (- ez)).
  replace (Z.to_N (53 - dig q1) + Z.to_N (0 + dig q1 - 53 - ez))%N with t by lia.
  replace (Z.to_N (53 - dig q2) + Z.to_N (0 + dig q2 - 53 - ez))%N with t by lia.
  assert (Hscale : cond_Zopp s1 (Z.pos (Pos.shiftl q1 t))
                   + cond_Zopp s2 (Z.pos (Pos.shiftl q2 t))
                   = (signed s1 q1 + signed s2 q2) * 2 ^ Z.of_N t).
  { rewrite !shiftl_Z. unfold signed. destruct s1, s2; cbn [cond_Zopp]; ring. }
  rewrite Hscale.
  destruct (signed s1 q1 + signed s2 q2) as [|n|n] eqn:Hn.
  - reflexivity.
  - rewrite <- shiftl_Z. unfold binary_normalize.
    rewrite binary_round_canon.
    + replace (ez + Z.of_N t) with 0 by lia.
      rewrite of_Z_canon by lia. reflexivity.
    + apply dig_le; [lia|]. exact Hsum.
    + pose proof (dig_pos n).
      assert (dig n <= 53) by (apply dig_le; [lia|exact Hsum]). lia.
  - replace (Z.neg n * 2 ^ Z.of_N t) with (- (Z.pos n * 2 ^ Z.of_N t)) by lia.
    rewrite <- shiftl_Z, Pos2Z.opp_pos. unfold binary_normalize.
    rewrite binary_round_canon.
    + replace (ez + Z.of_N t) with 0 by lia.
      rewrite of_Z_canon by lia. reflexivity.
    + apply dig_le; [lia|]. exact Hsum.
    + pose proof (dig_pos n).
      assert (dig n <= 53) by (apply dig_le; [lia|exact Hsum]). lia.
Qed.

(** One turn of the loop on an integer below 2^47 in magnitude. *)
Lemma mediaId_step_exact (a : Z) (c : ascii) :
  Z.abs a < 2 ^ 47 ->
  mediaId_step (Number.of_Z a) c = Number.of_Z (a * 64 + Js.indexOf alphabet c).
Proof.
  intros Ha. unfold mediaId_step.
  pose proof (digit_range c) as Hd.
  set (d := Js.indexOf alphabet c) in *.
  destruct (Z.eq_dec a 0) as [->|Hane].
  - change (Number.mul (Number.of_Z 0) (Number.of_Z 64)) with (S754_zero false).
    replace (0 * 64 + d) with d by lia. unfold Number.add.
    destruct (Z.eq_dec d 0) as [->|Hdne]; [reflexivity|].
    rewrite of_Z_canon by lia. reflexivity.
  - set (s := a <? 0). set (q := Z.to_pos (Z.abs a)).
    assert (Hq : Z.pos q = Z.abs a) by (subst q; rewrite Z2Pos.id; lia).
    assert (Hdig : dig q + 6 <= 53).
    { assert (dig q <= 47); [|lia]. apply dig_le; lia. }
    assert (Hsigned : signed s (Pos.shiftl q 6) = a * 64).
    { unfold signed. rewrite shiftl_Z, Hq. subst s.
      destruct (Z.ltb_spec a 0); cbn [cond_Zopp Z.of_N]; lia. }
    assert (Hdig6 : dig (Pos.shiftl q 6) <= 53) by (rewrite dig_shiftl; cbn; lia).
    rewrite (of_Z_canon a) by lia. fold s q.
    rewrite mul64_canon by exact Hdig.
    destruct (Z.eq_dec d 0) as [Hd0|Hdne].
    + rewrite Hd0, Z.add_0_r, <- Hsigned, of_Z_signed by exact Hdig6.
      reflexivity.
    + rewrite (of_Z_canon d) by lia.
      set (sd := d <? 0). set (qd := Z.to_pos (Z.abs d)).
      assert (Hqd : Z.pos qd = Z.abs d) by (subst qd; rewrite Z2Pos.id; lia).
      assert (Hsd : signed sd qd = d).
      { unfold signed. rewrite Hqd. subst sd.
        destruct (Z.ltb_spec d 0); cbn [cond_Zopp]; lia. }
      rewrite add_canon.
      * now rewrite Hsigned, Hsd.
      * exact Hdig6.
      * apply dig_le; lia.
      * rewrite Hsigned, Hsd. lia.
Qed.

Lemma exact_step_bound (a : Z) (c : ascii) (k : Z) :
  0 <= k -> Z.abs a < 64 ^ k -> Z.abs (Exact.step a c) < 64 ^ (k + 1).
Proof.
  intros Hk Ha. unfold Exact.step. pose proof (digit_range c).
  rewrite Z.pow_add_r by lia. lia.
Qed.

Lemma mediaId_loop_exact (s : string) :
  forall (a : Z) (k : Z),
    0 <= k -> Z.abs a < 64 ^ k -> k + Z.of_nat (String.length s) <= 8 ->
    mediaId_loop (Number.of_Z a) s = Number.of_Z (Exact.loop a s).
Proof.
  induction s as [|c s IH]; intros a k Hk Ha Hlen; [reflexivity|].
  cbn [mediaId_loop Exact.loop String.length] in *.
  rewrite mediaId_step_exact.
  - apply (IH _ (k + 1)); [lia | now apply exact_step_bound | lia].
  - assert (64 ^ k <= 64 ^ 7) by (apply Z.pow_le_mono_r; lia).
    assert (64 ^ 7 < 2 ^ 47) by reflexivity. lia.
Qed.

Lemma to_Z_of_Z (n : Z) : Z.abs n < 2 ^ 53 -> Number.to_Z (Number.of_Z n) = Some n.
Proof.
  intros Hn. destruct (Z.eq_dec n 0) as [->|Hne]; [reflexivity|].
  rewrite of_Z_canon by lia. unfold canon, Number.to_Z.
  set (q := Z.to_pos (Z.abs n)).
  assert (Hq : Z.pos q = Z.abs n) by (subst q; rewrite Z2Pos.id; lia).
  assert (Hdig : dig q <= 53) by (apply dig_le; lia).
  pose proof (dig_pos q).
  set (v := if n <? 0 then Z.neg _ else Z.pos _).
  assert (Hv : v = n * 2 ^ (53 - dig q)).
  { subst v. destruct (Z.ltb_spec n 0).
    - rewrite <- Pos2Z.opp_pos, shiftl_Z, Hq, Z2N.id by lia. lia.
    - rewrite shiftl_Z, Hq, Z2N.id by lia. lia. }
  destruct (Z.leb_spec 0 (0 + dig q - 53)).
  - rewrite Hv. replace (53 - dig q) with 0 by lia.
    replace (0 + dig q - 53) with 0 by lia. f_equal. lia.
  - replace (- (0 + dig q - 53)) with (53 - dig q) by lia.
    rewrite Hv, Z.mod_mul, Z.div_mul by (apply Z.pow_nonzero; lia).
    reflexivity.
Qed.


Lemma indexOf_from_hit (s : string) (c : ascii) (i : Z) :
  In c (list_ascii_of_string s) -> i <= Js.indexOf_from i s c.
Proof.
  revert i. induction s as [|d s IH]; intros i Hin; [destruct Hin|].
  cbn [Js.indexOf_from]. destruct (Ascii.eqb_spec d c) as [->|Hne]; [lia|].
  destruct Hin as [Heq|Hin]; [congruence|]. specialize (IH (i + 1) Hin). lia.
Qed.

Lemma exact_positional_nonneg (s : string) :
  over_alphabet s -> 0 <= Exact.positional s.
Proof.
  induction s as [|c s IH]; [cbn; lia|]. intros [Hc Hs].
  cbn [Exact.positional]. specialize (IH Hs).
  pose proof (indexOf_from_hit alphabet c 0 Hc) as Hd. fold (Js.indexOf alphabet c) in Hd.
  assert (0 < 64 ^ Z.of_nat (String.length s)) by (apply Z.pow_pos_nonneg; lia).
  nia.
Qed.

(** On a short code over the alphabet the accumulator of the source is
    the positional value, as long as that value is below 2^53. *)
Lemma mediaId_loop_exact_below (s : string) :
  forall a : Z,
    0 <= a -> over_alphabet s -> Exact.loop a s < 2 ^ 53 ->
    mediaId_loop (Number.of_Z a) s = Number.of_Z (Exact.loop a s).
Proof.
  induction s as [|c s IH]; intros a Ha Hs Hbound; [reflexivity|].
  destruct Hs as [Hc Hs]. cbn [mediaId_loop Exact.loop] in *.
  pose proof (indexOf_from_hit alphabet c 0 Hc) as Hd. fold (Js.indexOf alphabet c) in Hd.
  assert (Hstep : 0 <= Exact.step a c) by (unfold Exact.step; lia).
  assert (Hlow : Exact.step a c <= Exact.loop (Exact.step a c) s).
  { rewrite exact_loop_positional.
    pose proof (exact_positional_nonneg s Hs).
    assert (0 < 64 ^ Z.of_nat (String.length s)) by (apply Z.pow_pos_nonneg; lia).
    nia. }
  rewrite mediaId_step_exact.
  - now apply IH.
  - unfold Exact.step in *. change (2 ^ 53) with (64 * 2 ^ 47) in Hbound. lia.
Qed.

Lemma mediaId_number_exact_below (s : string) :
  over_alphabet s -> Exact.mediaId s < 2 ^ 53 ->
  mediaId_number s = Number.of_Z (Exact.mediaId s) /\
  Number.to_Z (mediaId_number s) = Some (Exact.mediaId s).
Proof.
  intros Hs Hbound. unfold mediaId_number, Exact.mediaId in *.
  rewrite mediaId_loop_exact_below by (try lia; assumption).
  split; [reflexivity|]. apply to_Z_of_Z.
  rewrite exact_loop_positional in *. pose proof (exact_positional_nonneg s Hs). lia.
Qed.

(** On any string of at most eight characters, too. *)
Lemma mediaId_number_exact_short (s : string) :
  (String.length s <= 8)%nat ->
  mediaId_number s = Number.of_Z (Exact.mediaId s).
Proof.
  intros Hlen. unfold mediaId_number, Exact.mediaId.
  apply (mediaId_loop_exact s 0 0); cbn; lia.
Qed.

Lemma indexOf_from_inj (s : string) (c c' : ascii) (i : Z) :
  In c (list_ascii_of_string s) -> In c' (list_ascii_of_string s) ->
  Js.indexOf_from i s c = Js.indexOf_from i s c' -> c = c'.
Proof.
  revert i. induction s as [|d s IH]; intros i Hc Hc'; [destruct Hc|].
  cbn [Js.indexOf_from].
  destruct (Ascii.eqb_spec d c) as [<-|Hne], (Ascii.eqb_spec d c') as [<-|Hne'];
    try reflexivity.
  - destruct Hc' as [?|Hc']; [congruence|].
    pose proof (indexOf_from_hit s c' (i + 1) Hc'). lia.
  - destruct Hc as [?|Hc]; [congruence|].
    pose proof (indexOf_from_hit s c (i + 1) Hc). lia.
  - destruct Hc as [?|Hc]; [congruence|]. destruct Hc' as [?|Hc']; [congruence|].
    now apply IH.
Qed.

(** Below 2^53 the source does tell short codes apart: replacing one
    symbol by another changes the identifier. *)
Lemma change_one_char_below (before after : string) (c c' : ascii) :
  over_alphabet (before +:+ String c after) ->
  over_alphabet (before +:+ String c' after) ->
  In c (list_ascii_of_string alphabet) -> In c' (list_ascii_of_string alphabet) ->
  c <> c' ->
  Exact.mediaId (before +:+ String c after) < 2 ^ 53 ->
  Exact.mediaId (before +:+ String c' after) < 2 ^ 53 ->
  mediaId_number (before +:+ String c after)
  <> mediaId_number (before +:+ String c' after).
Proof.
  intros Hs Hs' Hc Hc' Hne Hb Hb' Heq.
  destruct (mediaId_number_exact_below _ Hs Hb) as [_ Hz].
  destruct (mediaId_number_exact_below _ Hs' Hb') as [_ Hz'].
  rewrite Heq, Hz' in Hz. injection Hz as Hz.
  symmetry in Hz. revert Hz. apply exact_change_one_char.
  intros Hidx. apply Hne. now apply (indexOf_from_inj alphabet c c' 0).
Qed.

Lemma exact_loop_bound (s : string) (a k : Z) :
  0 <= k -> Z.abs a < 64 ^ k ->
  Z.abs (Exact.loop a s) < 64 ^ (k + Z.of_nat (String.length s)).
Proof.
  revert a k. induction s as [|c s IH]; intros a k Hk Ha.
  - cbn [Exact.loop String.length]. now rewrite Z.add_0_r.
  - cbn [Exact.loop String.length].
    replace (k + Z.of_nat (S (String.length s)))
      with (k + 1 + Z.of_nat (String.length s)) by lia.
    apply IH; [lia | now apply exact_step_bound].
Qed.

Lemma exact_short_bound (s : string) :
  (String.length s <= 8)%nat -> Z.abs (Exact.mediaId s) < 2 ^ 53.
Proof.
  intros Hlen. unfold Exact.mediaId.
  pose proof (exact_loop_bound s 0 0 (Z.le_refl 0) eq_refl) as Hbound.
  assert (64 ^ (0 + Z.of_nat (String.length s)) <= 64 ^ 8)
    by (apply Z.pow_le_mono_r; lia).
  assert (64 ^ 8 < 2 ^ 53) by reflexivity. lia.
Qed.

(** Rounding never gives [NaN]. *)
Lemma shr_1_nonneg (mrs : shr_record) : 0 <= shr_m mrs -> 0 <= shr_m (shr_1 mrs).
Proof. destruct mrs as [m r s]. cbn. destruct m as [|[p|p|]|p]; cbn; lia. Qed.

Lemma shr_nonneg (mrs : shr_record) (e n : Z) :
  0 <= shr_m mrs -> 0 <= shr_m (fst (shr mrs e n)).
Proof.
  intros Hm. unfold shr. destruct n as [|k|k]; cbn [fst]; try exact Hm.
  rewrite iter_pos_iter. apply Pos.iter_invariant; [|exact Hm].
  intros x. apply shr_1_nonneg.
Qed.

Lemma shr_fexp_nonneg (m e : Z) (l : location) :
  0 <= m -> 0 <= shr_m (fst (shr_fexp Number.prec Number.emax m e l)).
Proof.
  intros Hm. unfold shr_fexp. apply shr_nonneg.
  destruct l as [|[]]; exact Hm.
Qed.

Lemma round_nearest_even_nonneg (m : Z) (l : location) :
  0 <= m -> 0 <= round_nearest_even m l.
Proof.
  intros Hm. destruct l as [|[]]; cbn [round_nearest_even]; try lia.
  destruct (Z.even m); lia.
Qed.

Lemma binary_round_aux_not_nan (s : bool) (m e : Z) (l : location) :
  0 <= m -> binary_round_aux Number.prec Number.emax s m e l <> S754_nan.
Proof.
  intros Hm. unfold binary_round_aux.
  pose proof (shr_fexp_nonneg m e l Hm) as Hfirst.
  destruct (shr_fexp Number.prec Number.emax m e l) as [mrs' e'].
  cbn [fst] in Hfirst.
  pose proof (shr_fexp_nonneg _ e' loc_Exact
                (round_nearest_even_nonneg _ (loc_of_shr_record mrs') Hfirst))
    as Hsecond.
  destruct (shr_fexp Number.prec Number.emax _ e' loc_Exact) as [mrs'' e''].
  cbn [fst] in Hsecond.
  destruct (shr_m mrs'') as [|p|p]; [discriminate| |lia].
  destruct (e'' <=? Number.emax - Number.prec); discriminate.
Qed.

Lemma binary_normalize_not_nan (m e : Z) (szero : bool) :
  binary_normalize Number.prec Number.emax m e szero <> S754_nan.
Proof.
  unfold binary_normalize, binary_round.
  destruct m as [|p|p]; [discriminate| |];
    destruct (shl_align p e _) as [mz ez]; now apply binary_round_aux_not_nan.
Qed.

Lemma mul_finite_not_nan (x : number) (s : bool) (m : positive) (e : Z) :
  x <> S754_nan -> Number.mul x (S754_finite s m e) <> S754_nan.
Proof.
  intros Hx. destruct x as [sx|sx| |sx mx ex]; try discriminate; [contradiction|].
  now apply binary_round_aux_not_nan.
Qed.

Lemma add_digit_not_nan (x : number) (d : Z) :
  x <> S754_nan -> Z.abs d < 2 ^ 53 -> Number.add x (Number.of_Z d) <> S754_nan.
Proof.
  intros Hx Hd. destruct (Z.eq_dec d 0) as [->|Hne].
  - change (Number.of_Z 0) with (S754_zero false).
    destruct x as [[]|sx| |sx mx ex]; try discriminate. contradiction.
  - rewrite of_Z_canon by assumption. unfold canon.
    destruct x as [sx|sx| |sx mx ex]; try discriminate; [contradiction|].
    apply binary_normalize_not_nan.
Qed.

(** The accumulator of [shortcodeToMediaId] is never [NaN]. *)
Lemma mediaId_loop_not_nan (s : string) (mediaId : number) :
  mediaId <> S754_nan -> mediaId_loop mediaId s <> S754_nan.
Proof.
  revert mediaId. induction s as [|c s IH]; intros mediaId Hx; [exact Hx|].
  cbn [mediaId_loop]. apply IH. unfold mediaId_step.
  apply add_digit_not_nan; [|pose proof (digit_range c); lia].
  change (Number.of_Z 64) with (S754_finite false (Pos.shiftl 1 52) (-46)).
  now apply mul_finite_not_nan.
Qed.

(** C10. [shortcodeToMediaId] is a function of every string (the
    source has no statement that can throw on a string), and its
    accumulator is a number for every string, never [NaN].  A character
    outside the alphabet, wherever it stands, enters the accumulator as
    the digit [-1], the value [indexOf] gives for a miss: the step is
    [mediaId * 64 + (-1)], and for a short code of at most eight
    characters, where the arithmetic is exact, the identifier is the
    positional value in which that character counts [-1]. *)
Theorem shortcodeToMediaId_outside_alphabet
    (toString : number -> string) (before after : string) (c : ascii) :
  ~ In c (list_ascii_of_string alphabet) ->
  Js.indexOf alphabet c = -1 /\
  shortcodeToMediaId toString (before +:+ String c after)
  = toString (mediaId_loop
                (Number.add (Number.mul (mediaId_number before) (Number.of_Z 64))
                            (Number.of_Z (-1)))
                after) /\
  mediaId_number (before +:+ String c after) <> S754_nan /\
  ((String.length before + 1 + String.length after <= 8)%nat ->
   Number.to_Z (mediaId_number (before +:+ String c after))
   = Some ((Exact.positional before * 64 - 1)
             * 64 ^ Z.of_nat (String.length after)
           + Exact.positional after)).
Proof.
  intros Hout.
  assert (Hmiss : Js.indexOf alphabet c = -1) by now apply indexOf_from_miss.
  split; [exact Hmiss|]. split; [|split].
  - unfold shortcodeToMediaId, mediaId_number. rewrite mediaId_loop_app.
    cbn [mediaId_loop]. unfold mediaId_step. now rewrite Hmiss.
  - apply mediaId_loop_not_nan. discriminate.
  - intros Hlen.
    assert (Hshort : (String.length (before +:+ String c after) <= 8)%nat).
    { rewrite length_append. cbn [String.length]. lia. }
    rewrite (mediaId_number_exact_short _ Hshort).
    assert (Hvalue : Exact.mediaId (before +:+ String c after)
                     = (Exact.positional before * 64 - 1)
                         * 64 ^ Z.of_nat (String.length after)
                       + Exact.positional after).
    { unfold Exact.mediaId. rewrite exact_loop_app. cbn [Exact.loop].
      rewrite !exact_loop_positional. unfold Exact.step. rewrite Hmiss. ring. }
    rewrite Hvalue. apply to_Z_of_Z. rewrite <- Hvalue.
    pose proof (exact_short_bound (before +:+ String c after) Hshort). lia.
Qed.

Lemma bang_outside_alphabet : ~ In "!"%char (list_ascii_of_string alphabet).
Proof.
  cbn. intros H. repeat (destruct H as [H|H]; [discriminate H|]). exact H.
Qed.

Lemma shortcodeToMediaId_outside_alphabet_witness :
  Js.indexOf alphabet "!" = -1 /\
  shortcodeToMediaId integer_toString "B!A" = "4032" /\
  shortcodeToMediaId integer_toString "!" = "-1".
Proof.
  destruct (shortcodeToMediaId_outside_alphabet integer_toString "B" "A" "!"
              bang_outside_alphabet) as (Hmiss & _ & _ & Hvalue).
  destruct (shortcodeToMediaId_outside_alphabet integer_toString "" "" "!"
              bang_outside_alphabet) as (_ & _ & _ & Hbare).
  split; [exact Hmiss|].
  unfold shortcodeToMediaId, integer_toString.
  change ("B!A") with ("B" +:+ String "!" "A").
  change ("!") with ("" +:+ String "!" "").
  rewrite Hvalue, Hbare by (cbn; lia). split; reflexivity.
Defined.

(** ["B!"] is [1 * 64 - 1], ["!"] is [-1]. *)
Example mediaId_with_miss :
  Number.to_Z (mediaId_number "B!") = Some 63 /\
  Number.to_Z (mediaId_number "!") = Some (-1).
Proof. vm_compute. auto. Qed.

(** C3, evaluated on an eleven-character short code and on the smallest
    value that does not fit: the accumulator of the source holds the
    nearest binary64 value, not the positional value. *)
Theorem shortcodeToMediaId_rounds_long_codes :
  Number.to_Z (mediaId_number "CUbHfhEMD3k") = Some 2673763755907628544 /\
  Exact.positional "CUbHfhEMD3k" = 2673763755907628516 /\
  Number.to_Z (mediaId_number "BAAAAAAAAB") = Some 18014398509481984 /\
  Exact.positional "BAAAAAAAAB" = 18014398509481985.
Proof. vm_compute. auto. Qed.

(** C4, evaluated on two short codes over the alphabet that differ in
    their last character: the source returns the same identifier for
    both, whatever [toString] is; their positional values differ. *)
Theorem shortcodeToMediaId_collision (toString : number -> string) :
  shortcodeToMediaId toString "CUbHfhEMD3k"
  = shortcodeToMediaId toString "CUbHfhEMD3l" /\
  shortcodeToMediaId toString "BAAAAAAAAA"
  = shortcodeToMediaId toString "BAAAAAAAAB" /\
  Exact.mediaId "CUbHfhEMD3k" <> Exact.mediaId "CUbHfhEMD3l".
Proof.
  unfold shortcodeToMediaId. split; [|split].
  - apply (f_equal toString). vm_compute. reflexivity.
  - apply (f_equal toString). vm_compute. reflexivity.
  - vm_compute. discriminate.
Qed.

(* ================================================================= *)
(** ** The remote action client *)

(** The handler of the dispatcher answers whatever its [try] block does. *)
Lemma run_replies (ig : IgAutomation) (user_id : Z) (body : Body) (w : World) :
  exists reply, fst (run ig user_id body w) = Returned reply.
Proof.
  unfold run, try_catchM.
  destruct (run_try ig user_id body w) as [[reply|e] w']; cbn; eauto.
Qed.

Section Client.

Variable env : Env.

Import InstagramAutomation.

Lemma followUser_try_read (username cookieStr : string) :
  followUser_try env username cookieStr
  = (profileResponse ← axios_get env (profile_url username)
                                     (profile_headers username cookieStr);
     if negb (resp_status profileResponse =? 200)
     then Returned (result false ("Failed to get profile info for " +:+ username))
     else
       userId ← read_user_id (resp_data profileResponse);
       idText ← String_of env userId;
       followResponse ← axios_post env
         ("https://www.instagram.com/api/v1/friendships/create/"
            +:+ idText +:+ "/")
         (JObject []) (friendship_headers username cookieStr);
       Returned (result (resp_status followResponse =? 200)
                   (if resp_status followResponse =? 200
                    then "Successfully followed " +:+ username
                    else "Failed to follow " +:+ username))).
Proof.
  unfold followUser_try, read_user_id.
  destruct (axios_get env _ _) as [response|e]; [|reflexivity].
  cbn [mbind outcome_bind]. destruct (negb _); [reflexivity|].
  destruct (get_prop (resp_data response) "data") as [body|e]; [|reflexivity].
  cbn [mbind outcome_bind].
  destruct (get_prop body "user") as [user|e]; reflexivity.
Qed.

Lemma unfollowUser_try_read (username cookieStr : string) :
  unfollowUser_try env username cookieStr
  = (profileResponse ← axios_get env (profile_url username)
                                     (profile_headers username cookieStr);
     if negb (resp_status profileResponse =? 200)
     then Returned (result false ("Failed to get profile info for " +:+ username))
     else
       userId ← read_user_id (resp_data profileResponse);
       idText ← String_of env userId;
       unfollowResponse ← axios_post env
         ("https://www.instagram.com/api/v1/friendships/destroy/"
            +:+ idText +:+ "/")
         (JObject []) (friendship_headers username cookieStr);
       Returned (result (resp_status unfollowResponse =? 200)
                   (if resp_status unfollowResponse =? 200
                    then "Successfully unfollowed " +:+ username
                    else "Failed to unfollow " +:+ username))).
Proof.
  unfold unfollowUser_try, read_user_id.
  destruct (axios_get env _ _) as [response|e]; [|reflexivity].
  cbn [mbind outcome_bind]. destruct (negb _); [reflexivity|].
  destruct (get_prop (resp_data response) "data") as [body|e]; [|reflexivity].
  cbn [mbind outcome_bind].
  destruct (get_prop body "user") as [user|e]; reflexivity.
Qed.

Ltac report_fault :=
  repeat (cbn [mbind outcome_bind try_catch message_of negb];
          match goal with
          | H : resp_status _ = 200 |- _ => rewrite H, Z.eqb_refl
          | H : _ = Raised _ |- _ => rewrite H
          | H : _ = Returned _ |- _ => rewrite H
          end);
  cbn [mbind outcome_bind try_catch message_of negb].

(** C6. Each of the seven operations of the remote client returns a
    result for every input and every behaviour of the transport, and
    every fault is reported as a failure with the text of the error:
    a rejected request (the profile lookup, the request on the
    friendship, the one request of the operations on a post or a
    comment), a response whose payload cannot be read, and an [id]
    that cannot be converted to a string.  The handler of the
    dispatcher always answers with a reply object, whatever the client
    does. *)
Theorem remote_client_never_raises :
  (forall username cookieStr,
      exists r, followUser env username cookieStr = Returned r) /\
  (forall username cookieStr,
      exists r, unfollowUser env username cookieStr = Returned r) /\
  (forall postUrl cookieStr,
      exists r, likePost env postUrl cookieStr = Returned r) /\
  (forall postUrl cookieStr,
      exists r, unlikePost env postUrl cookieStr = Returned r) /\
  (forall postUrl commentText cookieStr,
      exists r, commentPost env postUrl commentText cookieStr = Returned r) /\
  (forall postUrl commentId cookieStr,
      exists r, deleteComment env postUrl commentId cookieStr = Returned r) /\
  (forall username cookieStr,
      exists r, getInstagramProfileInfo env username cookieStr = Returned r) /\
  (forall username cookieStr text,
      friendship_fault env "https://www.instagram.com/api/v1/friendships/create/"
        username cookieStr text ->
      followUser env username cookieStr
      = failed ("Error following " +:+ username +:+ ": " +:+ text)) /\
  (forall username cookieStr text,
      friendship_fault env "https://www.instagram.com/api/v1/friendships/destroy/"
        username cookieStr text ->
      unfollowUser env username cookieStr
      = failed ("Error unfollowing " +:+ username +:+ ": " +:+ text)) /\
  (forall postUrl cookieStr shortcode text,
      extract_shortcode postUrl = Returned shortcode ->
      axios_post env
        ("https://www.instagram.com/web/likes/"
           +:+ shortcodeToMediaId (Number_toString env) shortcode +:+ "/like/")
        (JObject []) (post_headers postUrl cookieStr)
      = Raised (JsError text) ->
      likePost env postUrl cookieStr = failed ("Error liking post: " +:+ text)) /\
  (forall postUrl cookieStr shortcode text,
      extract_shortcode postUrl = Returned shortcode ->
      axios_post env
        ("https://www.instagram.com/web/likes/"
           +:+ shortcodeToMediaId (Number_toString env) shortcode +:+ "/unlike/")
        (JObject []) (post_headers postUrl cookieStr)
      = Raised (JsError text) ->
      unlikePost env postUrl cookieStr = failed ("Error unliking post: " +:+ text)) /\
  (forall postUrl commentText cookieStr shortcode text,
      extract_shortcode postUrl = Returned shortcode ->
      axios_post env
        ("https://www.instagram.com/web/comments/"
           +:+ shortcodeToMediaId (Number_toString env) shortcode +:+ "/add/")
        (JObject [("comment_text", JString commentText)])
        (post_headers postUrl cookieStr)
      = Raised (JsError text) ->
      commentPost env postUrl commentText cookieStr
      = failed ("Error commenting on post: " +:+ text)) /\
  (forall postUrl commentId cookieStr text,
      axios_post env
        ("https://www.instagram.com/web/comments/" +:+ commentId +:+ "/delete/")
        (JObject [("comment_id", JString commentId)])
        (post_headers postUrl cookieStr)
      = Raised (JsError text) ->
      deleteComment env postUrl commentId cookieStr
      = failed ("Error deleting comment: " +:+ text)) /\
  (forall username cookieStr text,
      axios_get env (profile_url username) (profile_headers username cookieStr)
      = Raised (JsError text) ->
      getInstagramProfileInfo env username cookieStr
      = failed ("Error getting profile info: " +:+ text)) /\
  (forall username cookieStr lookup text,
      axios_get env (profile_url username) (profile_headers username cookieStr)
      = Returned lookup ->
      resp_status lookup = 200 ->
      get_prop (resp_data lookup) "data" = Raised (JsError text) ->
      getInstagramProfileInfo env username cookieStr
      = failed ("Error getting profile info: " +:+ text)) /\
  (forall ig user_id body w,
      exists reply, fst (run ig user_id body w) = Returned reply).
Proof.
  repeat apply conj.
  - intros u c. unfold followUser.
    destruct (followUser_try env u c); cbn [try_catch]; eauto.
  - intros u c. unfold unfollowUser.
    destruct (unfollowUser_try env u c); cbn [try_catch]; eauto.
  - intros p c. unfold likePost.
    destruct (likePost_try env p c); cbn [try_catch]; eauto.
  - intros p c. unfold unlikePost.
    destruct (unlikePost_try env p c); cbn [try_catch]; eauto.
  - intros p t c. unfold commentPost.
    destruct (commentPost_try env p t c); cbn [try_catch]; eauto.
  - intros p i c. unfold deleteComment.
    destruct (deleteComment_try env p i c); cbn [try_catch]; eauto.
  - intros u c. unfold getInstagramProfileInfo.
    destruct (getInstagramProfileInfo_try env u c); cbn [try_catch]; eauto.
  - intros u c text Hfault. unfold followUser. rewrite followUser_try_read.
    destruct Hfault as [Hget | lookup Hget Hstatus Hread
                        | lookup userId Hget Hstatus Hread Htext
                        | lookup userId idText Hget Hstatus Hread Htext Hpost];
      report_fault; reflexivity.
  - intros u c text Hfault. unfold unfollowUser. rewrite unfollowUser_try_read.
    destruct Hfault as [Hget | lookup Hget Hstatus Hread
                        | lookup userId Hget Hstatus Hread Htext
                        | lookup userId idText Hget Hstatus Hread Htext Hpost];
      report_fault; reflexivity.
  - intros p c code text Hcode Hpost. unfold likePost, likePost_try.
    rewrite Hcode. report_fault. reflexivity.
  - intros p c code text Hcode Hpost. unfold unlikePost, unlikePost_try.
    rewrite Hcode. report_fault. reflexivity.
  - intros p t c code text Hcode Hpost. unfold commentPost, commentPost_try.
    rewrite Hcode. report_fault. reflexivity.
  - intros p i c text Hpost. unfold deleteComment, deleteComment_try.
    report_fault. reflexivity.
  - intros u c text Hget.
    unfold getInstagramProfileInfo, getInstagramProfileInfo_try.
    report_fault. reflexivity.
  - intros u c lookup text Hget Hstatus Hdata.
    unfold getInstagramProfileInfo, getInstagramProfileInfo_try.
    report_fault. reflexivity.
  - apply run_replies.
Qed.

End Client.

Lemma remote_client_never_raises_witness :
  let unreachable := Sample.offline "getaddrinfo ENOTFOUND www.instagram.com" in
  let hanging :=
    {| Number_toString := fun _ => "";
       String_of := fun _ => Returned "55";
       axios_get := fun _ _ =>
         Returned {| resp_status := 200;
                     resp_data := JObject [("data", JObject [("user",
                                    JObject [("id", JString "55")])])] |};
       axios_post := fun _ _ _ => Raised (JsError "socket hang up") |} in
  InstagramAutomation.followUser unreachable "alice" "csrftoken=abc123; sessionid=xyz"
  = failed "Error following alice: getaddrinfo ENOTFOUND www.instagram.com" /\
  InstagramAutomation.followUser hanging "alice" "csrftoken=abc123; sessionid=xyz"
  = failed "Error following alice: socket hang up".
Proof.
  intros unreachable hanging. split.
  - destruct (remote_client_never_raises unreachable)
      as (_ & _ & _ & _ & _ & _ & _ & Hfollow & _).
    apply (Hfollow "alice" "csrftoken=abc123; sessionid=xyz"
             "getaddrinfo ENOTFOUND www.instagram.com").
    now apply lookup_rejected.
  - destruct (remote_client_never_raises hanging)
      as (_ & _ & _ & _ & _ & _ & _ & Hfollow & _).
    apply (Hfollow "alice" "csrftoken=abc123; sessionid=xyz" "socket hang up").
    now eapply friendship_rejected.
Defined.

(** A response without the expected payload: the [TypeError] of the
    property read is caught like a transport error. *)
Example followUser_malformed_response :
  InstagramAutomation.followUser
    {| Number_toString := fun _ => ""; String_of := fun _ => Returned "";
       axios_get := fun _ _ => Returned {| resp_status := 200; resp_data := JObject [] |};
       axios_post := fun _ _ _ => Returned {| resp_status := 200; resp_data := JNull |} |}
    "alice" "csrftoken=abc123"
  = Returned (result false
      "Error following alice: Cannot read properties of undefined (reading 'user')").
Proof. reflexivity. Qed.

(* ================================================================= *)
(** ** The activity log *)

Section Sorting.

Context {A : Type}.

Lemma insert_sorted_perm (compare : A -> A -> Z) (x : A) (l : list A) :
  Storage.insert_sorted compare x l ≡ₚ x :: l.
Proof.
  induction l as [|y l IH]; cbn [Storage.insert_sorted]; [reflexivity|].
  destruct (compare x y <=? 0); [reflexivity|].
  rewrite IH. apply Permutation_swap.
Qed.

Lemma sort_perm (compare : A -> A -> Z) (l : list A) :
  Storage.sort compare l ≡ₚ l.
Proof.
  induction l as [|x l IH]; [reflexivity|].
  unfold Storage.sort in *. cbn [foldr].
  rewrite insert_sorted_perm. now rewrite IH.
Qed.

Variable key : A -> Z.

Lemma insert_sorted_descending (x : A) (l : list A) :
  StronglySorted (newer_first key) l ->
  StronglySorted (newer_first key)
    (Storage.insert_sorted (fun a b => key b - key a) x l).
Proof.
  unfold newer_first.
  induction 1 as [|y l Hsorted IH Hall]; cbn [Storage.insert_sorted].
  - repeat constructor.
  - destruct (Z.leb_spec (key y - key x) 0) as [Hle|Hgt].
    + constructor; [now constructor|].
      constructor; [lia|].
      eapply Forall_impl; [exact Hall|]. cbv beta. intros z Hz. lia.
    + constructor; [exact IH|].
      rewrite insert_sorted_perm. constructor; [lia | exact Hall].
Qed.

Lemma sort_descending (l : list A) :
  StronglySorted (newer_first key) (Storage.sort (fun a b => key b - key a) l).
Proof.
  induction l as [|x l IH]; [constructor|].
  unfold Storage.sort in *. cbn [foldr]. now apply insert_sorted_descending.
Qed.

End Sorting.

Lemma StronglySorted_take {A : Type} (R : A -> A -> Prop) (n : nat) (l : list A) :
  StronglySorted R l -> StronglySorted R (take n l).
Proof.
  intros Hsorted. revert n.
  induction Hsorted as [|x l Hsorted IH Hall]; intros [|n]; cbn; try constructor.
  - apply IH.
  - now apply Forall_take.
Qed.

Lemma slice0_length {A : Type} (l : list A) (limit : Z) :
  0 <= limit -> Z.of_nat (length (Storage.slice0 l limit)) <= limit.
Proof.
  intros Hlimit. unfold Storage.slice0.
  destruct (Z.ltb_spec limit 0); [lia|]. rewrite length_take. lia.
Qed.

(** The whole answer: the first entries of the user's logs put newest
    first. *)
Lemma getActivityLogsByUserId_take (st : MemStorage) (user_id : Z)
    (limit : option Z) :
  exists (n : nat) (sorted : list ActivityLog),
    Storage.getActivityLogsByUserId st user_id limit = take n sorted /\
    sorted ≡ₚ filter (fun log => log_userId log = user_id)
                      (JsMap.values (activityLogs st)) /\
    descending sorted.
Proof.
  unfold Storage.getActivityLogsByUserId, Storage.slice0.
  eexists _, _. split; [reflexivity|]. split.
  - apply sort_perm.
  - apply (sort_descending log_createdAt).
Qed.

(** C8, for the limits that count entries.  For every user, every
    state of the log and every limit that is not negative (50 when
    omitted), the entries returned belong to that user, are in the log,
    are ordered by creation time descending, and are at most [limit]. *)
Theorem getActivityLogsByUserId_sorted_limited
    (st : MemStorage) (user_id : Z) (limit : option Z) :
  0 <= default 50 limit ->
  let logs := Storage.getActivityLogsByUserId st user_id limit in
  Forall (fun log => log_userId log = user_id /\
                     log ∈ JsMap.values (activityLogs st)) logs /\
  descending logs /\
  Z.of_nat (length logs) <= default 50 limit.
Proof.
  intros Hlimit logs.
  destruct (getActivityLogsByUserId_take st user_id limit)
    as (n & sorted & Heq & Hperm & Hsorted).
  subst logs. split; [|split].
  - rewrite Heq. apply Forall_take. rewrite Hperm.
    apply Forall_forall. intros log Hin.
    apply list_elem_of_filter in Hin. exact Hin.
  - rewrite Heq. now apply StronglySorted_take.
  - now apply slice0_length.
Qed.

Lemma getActivityLogsByUserId_sorted_limited_witness :
  let logs := Storage.getActivityLogsByUserId Sample.store3 1 (Some 1) in
  Forall (fun log => log_userId log = 1 /\
                     log ∈ JsMap.values (activityLogs Sample.store3)) logs /\
  descending logs /\
  Z.of_nat (length logs) <= 1.
Proof.
  apply (getActivityLogsByUserId_sorted_limited Sample.store3 1 (Some 1)).
  cbn. lia.
Defined.

Example logs_of_user_1 :
  map log_id (Storage.getActivityLogsByUserId Sample.store3 1 None) = [3; 1].
Proof. reflexivity. Qed.

(** A negative limit is counted from the end by [slice]: with limit
    [-1] the two logs of user 1 give one entry, more than [-1]. *)
Lemma negative_limit_returns_entries :
  map log_id (Storage.getActivityLogsByUserId Sample.store3 1 (Some (-1))) = [3] /\
  ~ Z.of_nat (length (Storage.getActivityLogsByUserId Sample.store3 1 (Some (-1))))
    <= -1.
Proof. split; [reflexivity | cbn; lia]. Qed.

(* ================================================================= *)
(** ** The dispatcher *)

Section MapFacts.

Context {V : Type}.

Lemma get_set_eq (k : Z) (v : V) (m : JsMap.t V) :
  JsMap.get k (JsMap.set k v m) = Some v.
Proof.
  induction m as [|[k' v'] m IH]; cbn.
  - now rewrite Z.eqb_refl.
  - destruct (Z.eqb_spec k' k) as [->|Hne]; cbn.
    + now rewrite Z.eqb_refl.
    + destruct (Z.eqb_spec k' k); [contradiction | exact IH].
Qed.

Lemma set_set (k : Z) (v v' : V) (m : JsMap.t V) :
  JsMap.set k v' (JsMap.set k v m) = JsMap.set k v' m.
Proof.
  induction m as [|[k0 v0] m IH]; cbn.
  - now rewrite Z.eqb_refl.
  - destruct (Z.eqb_spec k0 k) as [->|Hne]; cbn.
    + now rewrite Z.eqb_refl.
    + destruct (Z.eqb_spec k0 k); [contradiction | now rewrite IH].
Qed.

(** [set] on a key above all others appends. *)
Lemma set_fresh (k : Z) (v : V) (m : JsMap.t V) :
  Forall (fun k' => k' < k) (JsMap.keys m) ->
  JsMap.set k v m = m ++ [(k, v)].
Proof.
  induction m as [|[k' v'] m IH]; cbn; [reflexivity|].
  intros Hall. inversion Hall as [|? ? Hk Hrest]; subst.
  destruct (Z.eqb_spec k' k); [lia|]. now rewrite IH.
Qed.

Lemma keys_app (m1 m2 : JsMap.t V) :
  JsMap.keys (m1 ++ m2) = JsMap.keys m1 ++ JsMap.keys m2.
Proof. apply map_app. Qed.

End MapFacts.

(** The handler follows the plan. *)
Lemma run_try_plan (ig : IgAutomation) (user_id : Z) (body : Body) (w : World) :
  run_try ig user_id body w
  = match Storage.cookies_of (storage w) user_id with
    | [] => (Returned (status_reply 400
               "No cookies available. Please add an account or cookie first."), w)
    | first :: _ =>
        match plan ig body (cookieString first) with
        | Reject reply => (Returned reply, w)
        | Perform action operation args out =>
            perform user_id body action operation args out w
        end
    end.
Proof.
  cbv [run_try plan Storage.getCookiesByUserId mbind M_bind mret M_ret get_storage].
  destruct (Storage.cookies_of (storage w) user_id) as [|first others];
    [reflexivity|].
  repeat match goal with
         | |- context [if ?b then _ else _] => destruct b
         end; reflexivity.
Qed.

(** The two runs of [perform]. *)
Lemma perform_returned (user_id : Z) (body : Body) (action operation : string)
    (args : list string) (r : ActionResult) (w : World) :
  fresh_ids (storage w) ->
  perform user_id body action operation args (Returned r) w
  = (Returned (json_reply r),
     {| storage := {| cookies := cookies (storage w);
                      activityLogs := activityLogs (storage w)
                        ++ [(logId (storage w),
                             settled_log w user_id body action (terminal r))];
                      cookieId := cookieId (storage w);
                      logId := logId (storage w) + 1 |};
        dates := dates w;
        ticks := S (S (ticks w));
        trace := trace w ++ [EvCreateLog (pending_log w user_id body action);
                             EvRemote operation args;
                             EvUpdateLog (logId (storage w))
                                         (status_update (terminal r))] |}).
Proof.
  intros Hfresh.
  cbv [perform Storage.createActivityLog Storage.updateActivityLog
       mbind M_bind mret M_ret get_storage put_storage new_Date record await
       storage dates ticks trace activityLogs cookies cookieId logId log_id
       Storage.new_log].
  rewrite get_set_eq. cbv beta iota. rewrite set_set.
  rewrite (set_fresh _ _ _ Hfresh), <- !app_assoc.
  reflexivity.
Qed.

Lemma perform_raised (user_id : Z) (body : Body) (action operation : string)
    (args : list string) (e : exn) (w : World) :
  fresh_ids (storage w) ->
  perform user_id body action operation args (Raised e) w
  = (Raised e,
     {| storage := {| cookies := cookies (storage w);
                      activityLogs := activityLogs (storage w)
                        ++ [(logId (storage w), pending_log w user_id body action)];
                      cookieId := cookieId (storage w);
                      logId := logId (storage w) + 1 |};
        dates := dates w;
        ticks := S (ticks w);
        trace := trace w ++ [EvCreateLog (pending_log w user_id body action);
                             EvRemote operation args] |}).
Proof.
  intros Hfresh.
  cbv [perform Storage.createActivityLog
       mbind M_bind mret M_ret get_storage put_storage new_Date record await
       storage dates ticks trace activityLogs cookies cookieId logId log_id
       Storage.new_log].
  rewrite (set_fresh _ _ _ Hfresh), <- !app_assoc.
  reflexivity.
Qed.

Lemma run_plan (ig : IgAutomation) (user_id : Z) (body : Body) (w : World)
    (first : Cookie) (others : list Cookie) :
  Storage.cookies_of (storage w) user_id = first :: others ->
  run ig user_id body w
  = try_catchM
      (match plan ig body (cookieString first) with
       | Reject reply => mret reply
       | Perform action operation args out =>
           perform user_id body action operation args out
       end)
      (fun error => mret {| code := 500;
                            payload := result false "Error running automation";
                            error := Some (message_of error) |}) w.
Proof.
  intros Hcookies. unfold run, try_catchM. rewrite run_try_plan, Hcookies.
  now destruct (plan ig body (cookieString first)).
Qed.

(** The operations of the repository's own client return whatever the
    transport does, so with it the remote call of a plan never raises. *)
Lemma plan_own_client_returns (env : Env) (body : Body) (cookieValue : string)
    (action operation : string) (args : list string)
    (out : outcome ActionResult) :
  plan (igAutomation env) body cookieValue = Perform action operation args out ->
  exists r, out = Returned r.
Proof.
  unfold plan. intros Hplan.
  repeat match type of Hplan with
         | (if ?b then _ else _) = _ => destruct b
         end;
    try discriminate Hplan; injection Hplan as <- <- <- <-;
    cbn [igAutomation followUser unfollowUser likePost unlikePost commentPost
         deleteComment getInstagramProfileInfo removeDuplicateAccounts];
    unfold InstagramAutomation.followUser, InstagramAutomation.unfollowUser,
      InstagramAutomation.likePost, InstagramAutomation.unlikePost,
      InstagramAutomation.commentPost, InstagramAutomation.deleteComment,
      InstagramAutomation.getInstagramProfileInfo,
      InstagramAutomation.removeDuplicateAccounts, try_catch;
    match goal with
    | |- exists r, match ?block with _ => _ end = _ => destruct block; eauto
    | |- _ => eauto
    end.
Qed.

(** C1, as the handler implements it.  A request that has a cookie and
    passes the check of its [case] creates one log entry with status
    pending, then makes its one remote call.  When the call returns, the
    entry is updated once, to success or failed as the returned result
    says, and the result is sent.  The repository's own client always
    returns (it reports a fault of the transport as a failure result).
    When a remote operation does raise, the handler makes no update: the
    entry stays pending and the answer is the 500 error.  The entries
    that were in the log stay as they were. *)
Theorem dispatch_log_lifecycle
    (ig : IgAutomation) (user_id : Z) (body : Body) (w : World)
    (first : Cookie) (others : list Cookie)
    (action operation : string) (args : list string)
    (out : outcome ActionResult) :
  Storage.cookies_of (storage w) user_id = first :: others ->
  plan ig body (cookieString first) = Perform action operation args out ->
  fresh_ids (storage w) ->
  let id := logId (storage w) in
  let pending := pending_log w user_id body action in
  let after := run ig user_id body w in
  log_status pending = "pending" /\
  (forall env, ig = igAutomation env -> exists r, out = Returned r) /\
  match out with
  | Returned r =>
      fst after = Returned (json_reply r) /\
      trace (snd after)
      = trace w ++ [EvCreateLog pending; EvRemote operation args;
                    EvUpdateLog id (status_update (terminal r))] /\
      activityLogs (storage (snd after))
      = activityLogs (storage w)
          ++ [(id, settled_log w user_id body action (terminal r))]
  | Raised e =>
      fst after = Returned {| code := 500;
                              payload := result false "Error running automation";
                              error := Some (message_of e) |} /\
      trace (snd after)
      = trace w ++ [EvCreateLog pending; EvRemote operation args] /\
      activityLogs (storage (snd after))
      = activityLogs (storage w) ++ [(id, pending)]
  end.
Proof.
  intros Hcookies Hplan Hfresh id pending after.
  split; [reflexivity|]. split.
  { intros env ->. exact (plan_own_client_returns _ _ _ _ _ _ _ Hplan). }
  subst after. rewrite (run_plan _ _ _ _ _ _ Hcookies), Hplan.
  unfold try_catchM. destruct out as [r|e].
  - rewrite (perform_returned _ _ _ _ _ _ _ Hfresh). repeat split.
  - rewrite (perform_raised _ _ _ _ _ _ _ Hfresh). repeat split.
Qed.

Lemma dispatch_log_lifecycle_witness :
  let w := Sample.world1 in
  let body := Sample.follow_alice in
  let pending := pending_log w 1 body "Followed @alice" in
  let call := EvRemote "followUser" ["alice"; "csrftoken=abc123; sessionid=xyz"] in
  (let after := run (Sample.raising "socket hang up") 1 body w in
   fst after = Returned {| code := 500;
                           payload := result false "Error running automation";
                           error := Some "socket hang up" |} /\
   trace (snd after) = trace w ++ [EvCreateLog pending; call] /\
   activityLogs (storage (snd after)) = activityLogs (storage w) ++ [(1, pending)]) /\
  (let ig := igAutomation (Sample.offline "read ECONNRESET") in
   let r := result false "Error following alice: read ECONNRESET" in
   let after := run ig 1 body w in
   fst after = Returned (json_reply r) /\
   trace (snd after)
   = trace w ++ [EvCreateLog pending; call; EvUpdateLog 1 (status_update "failed")] /\
   activityLogs (storage (snd after))
   = activityLogs (storage w) ++ [(1, settled_log w 1 body "Followed @alice" "failed")]).
Proof.
  split.
  - apply (dispatch_log_lifecycle (Sample.raising "socket hang up") 1
             Sample.follow_alice Sample.world1 Sample.cookie1 []
             "Followed @alice" "followUser"
             ["alice"; "csrftoken=abc123; sessionid=xyz"]
             (Raised (JsError "socket hang up")));
      [reflexivity | reflexivity | constructor].
  - apply (dispatch_log_lifecycle
             (igAutomation (Sample.offline "read ECONNRESET")) 1
             Sample.follow_alice Sample.world1 Sample.cookie1 []
             "Followed @alice" "followUser"
             ["alice"; "csrftoken=abc123; sessionid=xyz"]
             (Returned (result false "Error following alice: read ECONNRESET")));
      [reflexivity | reflexivity | constructor].
Defined.

(** C1 as stated fails when the remote operation raises: the request
    passes the check and the cookie lookup, the entry is created, and it
    is still pending after the handler has answered; no update was made. *)
Lemma raised_remote_leaves_entry_pending :
  let ig := Sample.raising "socket hang up" in
  let after := run ig 1 Sample.follow_alice Sample.world1 in
  Storage.cookies_of (storage Sample.world1) 1 = [Sample.cookie1] /\
  plan ig Sample.follow_alice (cookieString Sample.cookie1)
  = Perform "Followed @alice" "followUser"
      ["alice"; "csrftoken=abc123; sessionid=xyz"]
      (Raised (JsError "socket hang up")) /\
  map log_status (JsMap.values (activityLogs (storage (snd after)))) = ["pending"] /\
  (forall id updates, ~ In (EvUpdateLog id updates) (trace (snd after))) /\
  fst after = Returned {| code := 500;
                          payload := result false "Error running automation";
                          error := Some "socket hang up" |}.
Proof.
  repeat split; try reflexivity.
  intros id updates. cbn. intros [H|[H|[]]]; discriminate H.
Qed.

(** Scenario 1 with a remote client that succeeds. *)
Example follow_alice_succeeds :
  let ig := igAutomation
    {| Number_toString := fun _ => ""; String_of := fun _ => Returned "55";
       axios_get := fun _ _ => Returned
         {| resp_status := 200;
            resp_data := JObject [("data", JObject [("user",
                           JObject [("id", JString "55")])])] |};
       axios_post := fun _ _ _ => Returned {| resp_status := 200; resp_data := JNull |} |} in
  let after := run ig 1 Sample.follow_alice Sample.world1 in
  fst after = Returned (json_reply (result true "Successfully followed alice")) /\
  map (fun log => (log_action log, log_status log))
      (JsMap.values (activityLogs (storage (snd after))))
  = [("Followed @alice", "success")].
Proof. split; reflexivity. Qed.

(** C7. For every request of a user whose cookie lookup is empty the
    handler answers at once that no cookie is available; the world is
    left as it was: no log entry, no remote call. *)
Theorem no_cookie_no_dispatch
    (ig : IgAutomation) (user_id : Z) (body : Body) (w : World) :
  Storage.cookies_of (storage w) user_id = [] ->
  run ig user_id body w
  = (Returned (status_reply 400
       "No cookies available. Please add an account or cookie first."), w).
Proof.
  intros Hcookies. unfold run, try_catchM. now rewrite run_try_plan, Hcookies.
Qed.

Lemma no_cookie_no_dispatch_witness :
  run (Sample.raising "unused") 1 Sample.follow_alice Sample.world0
  = (Returned (status_reply 400
       "No cookies available. Please add an account or cookie first."),
     Sample.world0).
Proof.
  apply (no_cookie_no_dispatch (Sample.raising "unused") 1 Sample.follow_alice
           Sample.world0).
  reflexivity.
Defined.

Lemma is_case_other (type : option string) (labels : list string) (label : string) :
  ~ In type (map Some labels) -> In label labels -> is_case type label = false.
Proof.
  intros Hnot Hin. destruct type as [t|]; [|reflexivity]. cbn.
  destruct (String.eqb_spec t label) as [->|]; [|reflexivity].
  exfalso. apply Hnot. now apply in_map.
Qed.

Lemma plan_unknown (ig : IgAutomation) (body : Body) (cookieValue : string) :
  ~ In (body_type body) (map Some case_labels) ->
  plan ig body cookieValue
  = Reject (json_reply (result false "Unknown automation type")).
Proof.
  intros Hnot. unfold plan.
  rewrite !(is_case_other _ _ _ Hnot) by (cbn; tauto). reflexivity.
Qed.

(** C5, for the kinds the [switch] does not handle.  For every request
    of a user who has a cookie, with a kind that is none of the eight
    labels (the seven kinds and ["duplicates"]), the handler sends
    [{ success: false, message: "Unknown automation type" }] and leaves
    the world as it was. *)
Theorem unknown_type_rejected
    (ig : IgAutomation) (user_id : Z) (body : Body) (w : World)
    (first : Cookie) (others : list Cookie) :
  Storage.cookies_of (storage w) user_id = first :: others ->
  ~ In (body_type body) (map Some case_labels) ->
  run ig user_id body w
  = (Returned (json_reply (result false "Unknown automation type")), w).
Proof.
  intros Hcookies Hnot.
  rewrite (run_plan _ _ _ _ _ _ Hcookies), plan_unknown by exact Hnot.
  reflexivity.
Qed.

Lemma unknown_type_rejected_witness :
  run (Sample.raising "unused") 1 (Sample.request "block") Sample.world1
  = (Returned (json_reply (result false "Unknown automation type")), Sample.world1).
Proof.
  apply (unknown_type_rejected (Sample.raising "unused") 1
           (Sample.request "block") Sample.world1 Sample.cookie1 []).
  - reflexivity.
  - cbn. intros H. repeat (destruct H as [H|H]; [discriminate H|]). exact H.
Defined.

(** C5 as stated fails twice: ["duplicates"] is none of the seven
    kinds, yet it is dispatched and logged; and without a cookie an
    unknown kind gets the cookie message, not the generic one. *)
Lemma duplicates_is_dispatched :
  let ig := igAutomation (Sample.offline "unused") in
  let after := run ig 1 (Sample.request "duplicates") Sample.world1 in
  ~ In "duplicates" ["follow"; "unfollow"; "like"; "unlike"; "comment";
                     "delete_comment"; "profile_info"] /\
  fst after = Returned (json_reply
    (result true "Duplicate account check completed. No duplicates found.")) /\
  map (fun log => (log_action log, log_status log))
      (JsMap.values (activityLogs (storage (snd after))))
  = [("Removed duplicate accounts", "success")] /\
  fst (run ig 1 (Sample.request "block") Sample.world0)
  = Returned (status_reply 400
      "No cookies available. Please add an account or cookie first.").
Proof.
  repeat split; try reflexivity.
  cbn. intros H. repeat (destruct H as [H|H]; [discriminate H|]). exact H.
Qed.

(** The remote client turns a post URL without ["/p/"] down before any
    request. *)
Lemma malformed_url_result (env : Env) (postUrl commentText cookieStr : string) :
  malformed postUrl ->
  InstagramAutomation.likePost env postUrl cookieStr
  = Returned (result false "Invalid post URL format") /\
  InstagramAutomation.unlikePost env postUrl cookieStr
  = Returned (result false "Invalid post URL format") /\
  InstagramAutomation.commentPost env postUrl commentText cookieStr
  = Returned (result false "Invalid post URL format").
Proof.
  unfold malformed. intros Hurl.
  unfold InstagramAutomation.likePost, InstagramAutomation.unlikePost,
    InstagramAutomation.commentPost, InstagramAutomation.likePost_try,
    InstagramAutomation.unlikePost_try, InstagramAutomation.commentPost_try,
    InstagramAutomation.extract_shortcode.
  rewrite Hurl. repeat split.
Qed.

(** C2, as the handler implements it.  The handler does not inspect the
    post URL.  A like, unlike or comment request that has its required
    fields and a post URL without ["/p/"] is dispatched: one log entry is
    created, the remote client answers "Invalid post URL format" without
    any request to the network, the entry is updated to failed and the
    failure is sent.  The request of scenario 3, which has no comment
    text, is turned down at once for that reason, the world untouched. *)
Theorem malformed_post_url_is_logged
    (env : Env) (user_id : Z) (body : Body) (w : World)
    (first : Cookie) (others : list Cookie)
    (action operation : string) (args : list string)
    (out : outcome ActionResult) :
  Storage.cookies_of (storage w) user_id = first :: others ->
  plan (igAutomation env) body (cookieString first)
  = Perform action operation args out ->
  In operation ["likePost"; "unlikePost"; "commentPost"] ->
  malformed (text (body_postUrl body)) ->
  fresh_ids (storage w) ->
  let id := logId (storage w) in
  let after := run (igAutomation env) user_id body w in
  (fst after = Returned (json_reply (result false "Invalid post URL format")) /\
   trace (snd after)
   = trace w ++ [EvCreateLog (pending_log w user_id body action);
                 EvRemote operation args;
                 EvUpdateLog id (status_update "failed")] /\
   activityLogs (storage (snd after))
   = activityLogs (storage w)
       ++ [(id, settled_log w user_id body action "failed")]) /\
  run (igAutomation env) user_id Sample.comment_without_text w
  = (Returned (status_reply 400 "Post URL and comment text are required"), w).
Proof.
  intros Hcookies Hplan Hop Hurl Hfresh id after. split.
  - assert (Hout : out = Returned (result false "Invalid post URL format")).
    { destruct (malformed_url_result env (text (body_postUrl body))
                  (text (body_commentText body)) (cookieString first) Hurl)
        as (Hlike & Hunlike & Hcomment).
      unfold plan in Hplan.
      repeat match type of Hplan with
             | (if ?b then _ else _) = _ => destruct b
             end;
        try discriminate Hplan; injection Hplan as <- <- <- <-;
        cbn in Hop; intuition (try discriminate); cbn; congruence. }
    subst after out. rewrite (run_plan _ _ _ _ _ _ Hcookies), Hplan.
    unfold try_catchM. rewrite (perform_returned _ _ _ _ _ _ _ Hfresh).
    repeat split.
  - now rewrite (run_plan _ _ _ _ _ _ Hcookies).
Qed.

Lemma malformed_post_url_is_logged_witness :
  let env := Sample.offline "unused" in
  let after := run (igAutomation env) 1 Sample.comment_with_text Sample.world1 in
  (fst after = Returned (json_reply (result false "Invalid post URL format")) /\
   trace (snd after)
   = trace Sample.world1
       ++ [EvCreateLog (pending_log Sample.world1 1 Sample.comment_with_text
                          "Commented on post: not-a-valid-url");
           EvRemote "commentPost"
             ["not-a-valid-url"; "nice"; "csrftoken=abc123; sessionid=xyz"];
           EvUpdateLog 1 (status_update "failed")] /\
   activityLogs (storage (snd after))
   = activityLogs (storage Sample.world1)
       ++ [(1, settled_log Sample.world1 1 Sample.comment_with_text
                 "Commented on post: not-a-valid-url" "failed")]) /\
  run (igAutomation env) 1 Sample.comment_without_text Sample.world1
  = (Returned (status_reply 400 "Post URL and comment text are required"),
     Sample.world1).
Proof.
  apply (malformed_post_url_is_logged (Sample.offline "unused") 1
           Sample.comment_with_text Sample.world1 Sample.cookie1 []
           "Commented on post: not-a-valid-url" "commentPost"
           ["not-a-valid-url"; "nice"; "csrftoken=abc123; sessionid=xyz"]
           (Returned (result false "Invalid post URL format"))).
  - reflexivity.
  - reflexivity.
  - cbn. auto.
  - reflexivity.
  - constructor.
Defined.

(** C2 as stated fails: with a comment text, the request with the post
    URL ["not-a-valid-url"] is not turned down by the handler; a log
    entry is created and ends failed. *)
Lemma malformed_url_creates_log_entry :
  let ig := igAutomation (Sample.offline "unused") in
  let after := run ig 1 Sample.comment_with_text Sample.world1 in
  malformed "not-a-valid-url" /\
  activityLogs (storage Sample.world1) = [] /\
  map (fun log => (log_action log, log_status log))
      (JsMap.values (activityLogs (storage (snd after))))
  = [("Commented on post: not-a-valid-url", "failed")] /\
  fst after = Returned (json_reply (result false "Invalid post URL format")).
Proof. repeat split. Qed.

(** The store is filled by [createActivityLog] alone: the handler keeps
    the identifiers below [logId]. *)
Lemma run_keeps_fresh_ids (ig : IgAutomation) (user_id : Z) (body : Body)
    (w : World) :
  fresh_ids (storage w) -> fresh_ids (storage (snd (run ig user_id body w))).
Proof.
  intros Hfresh. unfold run, try_catchM. rewrite run_try_plan.
  destruct (Storage.cookies_of (storage w) user_id) as [|first others];
    [exact Hfresh|].
  assert (Hgrow : forall log,
             Forall (fun k => k < logId (storage w) + 1)
                    (JsMap.keys (activityLogs (storage w)
                                   ++ [(logId (storage w), log)]))).
  { intros log. rewrite keys_app. apply Forall_app. split.
    - eapply Forall_impl; [exact Hfresh|]. cbv beta. intros k Hk. lia.
    - repeat constructor. cbn. lia. }
  destruct (plan ig body (cookieString first)) as [reply|action op args [r|e]].
  - exact Hfresh.
  - rewrite (perform_returned _ _ _ _ _ _ _ Hfresh). apply Hgrow.
  - rewrite (perform_raised _ _ _ _ _ _ _ Hfresh). apply Hgrow.
Qed.

Lemma empty_store_fresh_ids (cookie_jar : JsMap.t Cookie) (next : Z) :
  fresh_ids {| cookies := cookie_jar; activityLogs := []; cookieId := next;
               logId := 1 |}.
Proof. constructor. Qed.

(** A fault of the transport is caught by the client, so the entry of
    the action ends failed. *)
Example follow_alice_offline :
  let ig := igAutomation (Sample.offline "read ECONNRESET") in
  let after := run ig 1 Sample.follow_alice Sample.world1 in
  fst after
  = Returned (json_reply (result false "Error following alice: read ECONNRESET")) /\
  map (fun log => (log_action log, log_status log))
      (JsMap.values (activityLogs (storage (snd after))))
  = [("Followed @alice", "failed")].
Proof. split; reflexivity. Qed.

(* ================================================================= *)
(** ** More of the store *)

Section MapMoreFacts.

Context {V : Type}.

Lemma get_set_ne (k k' : Z) (v : V) (m : JsMap.t V) :
  k' <> k -> JsMap.get k' (JsMap.set k v m) = JsMap.get k' m.
Proof.
  intros Hne. induction m as [|[k0 v0] m IH]; cbn.
  - destruct (Z.eqb_spec k k'); [congruence | reflexivity].
  - destruct (Z.eqb_spec k0 k) as [->|Hk]; cbn.
    + destruct (Z.eqb_spec k k'); [congruence | reflexivity].
    + destruct (Z.eqb_spec k0 k'); [reflexivity | exact IH].
Qed.

Lemma get_above_keys (k n : Z) (m : JsMap.t V) :
  Forall (fun k' => k' < n) (JsMap.keys m) -> n <= k -> JsMap.get k m = None.
Proof.
  intros Hall Hk. induction m as [|[k' v'] m IH]; [reflexivity|].
  cbn [JsMap.keys map fst] in Hall. inversion Hall as [|? ? Hlt Hrest]; subst.
  cbn [JsMap.get]. destruct (Z.eqb_spec k' k); [lia|]. now apply IH.
Qed.

Lemma get_app_absent (k : Z) (m1 m2 : JsMap.t V) :
  JsMap.get k m1 = None -> JsMap.get k (m1 ++ m2) = JsMap.get k m2.
Proof.
  induction m1 as [|[k' v'] m1 IH]; [reflexivity|]. cbn [JsMap.get app].
  destruct (k' =? k); [discriminate | exact IH].
Qed.

Lemma keys_set_present (k : Z) (v v0 : V) (m : JsMap.t V) :
  JsMap.get k m = Some v0 -> JsMap.keys (JsMap.set k v m) = JsMap.keys m.
Proof.
  unfold JsMap.keys.
  induction m as [|[k1 v1] m IH]; cbn; [discriminate|].
  destruct (Z.eqb_spec k1 k) as [->|Hk]; cbn; [reflexivity|].
  intros Hget. f_equal. now apply IH.
Qed.

Lemma get_delete_eq (k : Z) (m : JsMap.t V) :
  JsMap.get k (JsMapMore.delete k m) = None.
Proof.
  unfold JsMapMore.delete.
  induction m as [|[k0 v0] m IH]; [reflexivity|].
  rewrite filter_cons. cbn [fst]. case_decide as Hk; [|exact IH].
  cbn. destruct (Z.eqb_spec k0 k); [contradiction | exact IH].
Qed.

Lemma get_delete_ne (k k' : Z) (m : JsMap.t V) :
  k' <> k -> JsMap.get k' (JsMapMore.delete k m) = JsMap.get k' m.
Proof.
  intros Hne. unfold JsMapMore.delete.
  induction m as [|[k0 v0] m IH]; [reflexivity|].
  rewrite filter_cons. cbn [fst]. case_decide as Hk; cbn.
  - destruct (Z.eqb_spec k0 k'); [reflexivity | exact IH].
  - destruct (Z.eqb_spec k0 k'); [congruence | exact IH].
Qed.

Lemma delete_absent (k : Z) (m : JsMap.t V) :
  JsMap.get k m = None -> JsMapMore.delete k m = m.
Proof.
  unfold JsMapMore.delete.
  induction m as [|[k0 v0] m IH]; [reflexivity|]. cbn [JsMap.get].
  destruct (Z.eqb_spec k0 k) as [->|Hk]; [discriminate|]. intros Hget.
  rewrite filter_cons. cbn [fst]. case_decide; [|contradiction].
  now rewrite IH.
Qed.

End MapMoreFacts.

(** X1.  [createActivityLog] then [getActivityLog]: the new log is found
    under the identifier it was given, which is the old [logId]; the
    other identifiers read as before. *)
Theorem createActivityLog_then_get (log : LogEntry) (w : World) :
  let created := Storage.createActivityLog log w in
  let newLog := Storage.new_log log (logId (storage w)) (dates w (ticks w)) in
  value_of created = Returned newLog /\
  logId (storage (world_of created)) = logId (storage w) + 1 /\
  value_of (Store.getActivityLog (log_id newLog) (world_of created))
  = Returned (Some newLog) /\
  forall id, id <> logId (storage w) ->
    value_of (Store.getActivityLog id (world_of created))
    = value_of (Store.getActivityLog id w).
Proof.
  cbv [Storage.createActivityLog Store.getActivityLog value_of world_of
       mbind M_bind mret M_ret get_storage put_storage new_Date record
       storage dates ticks trace activityLogs cookies cookieId logId fst snd].
  repeat split.
  - cbn [log_id Storage.new_log]. now rewrite get_set_eq.
  - intros id Hid. now rewrite get_set_ne.
Qed.

(** X2.  [updateActivityLog] on an identifier that is not in the log answers
    [false] and leaves the store and the clock as they were. *)
Theorem updateActivityLog_absent (id : Z) (updates : LogUpdates) (w : World) :
  JsMap.get id (activityLogs (storage w)) = None ->
  let updated := Storage.updateActivityLog id updates w in
  value_of updated = Returned None /\
  storage (world_of updated) = storage w /\
  ticks (world_of updated) = ticks w.
Proof.
  intros Hget.
  cbv [Storage.updateActivityLog value_of world_of
       mbind M_bind mret M_ret get_storage put_storage new_Date record
       storage dates ticks trace fst snd].
  fold (storage w). fold (activityLogs (storage w)).
  rewrite Hget. repeat split.
Qed.

Lemma updateActivityLog_absent_witness :
  let updated := Storage.updateActivityLog 7 (status_update "success") Sample.world1 in
  value_of updated = Returned None /\
  storage (world_of updated) = storage Sample.world1 /\
  ticks (world_of updated) = ticks Sample.world1.
Proof.
  apply (updateActivityLog_absent 7 (status_update "success") Sample.world1).
  reflexivity.
Defined.

(** X3.  [updateActivityLog] on a log that is there stores the merged log
    under the same identifier, with [updatedAt] set to the clock
    reading; the other logs, the order of the entries, the cookies and
    the two counters [cookieId] and [logId] stay.  A status update
    changes the status and nothing else of what was created. *)
Theorem updateActivityLog_present
    (id : Z) (updates : LogUpdates) (log : ActivityLog) (w : World) :
  JsMap.get id (activityLogs (storage w)) = Some log ->
  let updated := Storage.updateActivityLog id updates w in
  let merged := Storage.merge_log log updates (dates w (ticks w)) in
  value_of updated = Returned (Some merged) /\
  value_of (Store.getActivityLog id (world_of updated)) = Returned (Some merged) /\
  (forall id', id' <> id ->
     value_of (Store.getActivityLog id' (world_of updated))
     = value_of (Store.getActivityLog id' w)) /\
  JsMap.keys (activityLogs (storage (world_of updated)))
  = JsMap.keys (activityLogs (storage w)) /\
  cookies (storage (world_of updated)) = cookies (storage w) /\
  cookieId (storage (world_of updated)) = cookieId (storage w) /\
  logId (storage (world_of updated)) = logId (storage w) /\
  (forall s, updates = status_update s ->
     merged = {| log_userId := log_userId log;
                 log_type := log_type log;
                 log_accountUsername := log_accountUsername log;
                 log_action := log_action log;
                 log_status := s;
                 log_id := log_id log;
                 log_createdAt := log_createdAt log;
                 log_updatedAt := Some (dates w (ticks w)) |}).
Proof.
  intros Hget.
  cbv [Storage.updateActivityLog Store.getActivityLog value_of world_of
       mbind M_bind mret M_ret get_storage put_storage new_Date record
       storage dates ticks trace fst snd].
  fold (storage w). fold (activityLogs (storage w)).
  rewrite Hget.
  cbv [storage activityLogs cookies fst snd]. fold (storage w).
  fold (activityLogs (storage w)). fold (dates w). fold (ticks w).
  fold (cookies (storage w)).
  repeat split.
  - now rewrite get_set_eq.
  - intros id' Hne. now rewrite get_set_ne.
  - now apply keys_set_present with log.
  - intros s ->. reflexivity.
Qed.

Lemma updateActivityLog_present_witness :
  let w := {| storage := Sample.store3; dates := fun _ => 500; ticks := 0;
              trace := [] |} in
  let updated := Storage.updateActivityLog 2 (status_update "failed") w in
  value_of (Store.getActivityLog 2 (world_of updated))
  = Returned (Some {| log_userId := 2; log_type := Some "duplicates";
                      log_accountUsername := "Unknown";
                      log_action := "Removed duplicate accounts";
                      log_status := "failed"; log_id := 2;
                      log_createdAt := 150; log_updatedAt := Some 500 |}) /\
  JsMap.keys (activityLogs (storage (world_of updated))) = [1; 2; 3].
Proof.
  set (w := {| storage := Sample.store3; dates := fun _ => 500; ticks := 0;
               trace := [] |}).
  destruct (updateActivityLog_present 2 (status_update "failed")
              (Sample.log_at 2 2 150) w eq_refl)
    as (_ & Hget & _ & Hkeys & _ & _ & _ & _).
  split; [exact Hget | exact Hkeys].
Defined.

(** X4.  The listing is complete up to the limit: for a limit that is not
    negative it has [min limit n] entries, [n] the number of logs of
    the user, and when [n] is within the limit it is a rearrangement of
    all of them. *)
Theorem getActivityLogsByUserId_complete
    (st : MemStorage) (user_id : Z) (limit : Z) :
  0 <= limit ->
  let mine := filter (fun log => log_userId log = user_id)
                     (JsMap.values (activityLogs st)) in
  let logs := Storage.getActivityLogsByUserId st user_id (Some limit) in
  Z.of_nat (length logs) = Z.min limit (Z.of_nat (length mine)) /\
  (Z.of_nat (length mine) <= limit -> logs ≡ₚ mine).
Proof.
  intros Hlimit mine logs. subst logs.
  unfold Storage.getActivityLogsByUserId, Storage.slice0. fold mine.
  change (default 50 (Some limit)) with limit.
  set (sorted := Storage.sort _ mine).
  assert (Hperm : sorted ≡ₚ mine) by apply sort_perm.
  assert (Hlen : length sorted = length mine) by now rewrite Hperm.
  destruct (Z.ltb_spec limit 0); [lia|]. split.
  - rewrite length_take, Hlen. lia.
  - intros Hfit. rewrite take_ge; [exact Hperm|]. lia.
Qed.

Lemma getActivityLogsByUserId_complete_witness :
  Z.of_nat (length (Storage.getActivityLogsByUserId Sample.store3 1 (Some 5))) = 2 /\
  Storage.getActivityLogsByUserId Sample.store3 1 (Some 5)
  ≡ₚ [Sample.log_at 1 1 100; Sample.log_at 3 1 200].
Proof.
  destruct (getActivityLogsByUserId_complete Sample.store3 1 5) as [Hlen Hall].
  - lia.
  - split; [exact Hlen | apply Hall; vm_compute; discriminate].
Defined.

(** X5.  A cookie that is created is found under its identifier, the old
    [cookieId]; deleting it answers [true] and it is found no more;
    the logs are not touched. *)
Theorem createCookie_get_delete (cookie : NewCookie) (w : World) :
  let created := Store.createCookie cookie w in
  let newCookie := Store.new_cookie cookie (cookieId (storage w)) (dates w (ticks w)) in
  let deleted := Store.deleteCookie (cookie_id newCookie) (world_of created) in
  value_of created = Returned newCookie /\
  value_of (Store.getCookie (cookie_id newCookie) (world_of created))
  = Returned (Some newCookie) /\
  value_of deleted = Returned true /\
  value_of (Store.getCookie (cookie_id newCookie) (world_of deleted))
  = Returned None /\
  activityLogs (storage (world_of deleted)) = activityLogs (storage w).
Proof.
  cbv [Store.createCookie Store.getCookie Store.deleteCookie value_of world_of
       mbind M_bind mret M_ret get_storage put_storage new_Date
       storage dates ticks trace activityLogs cookies cookieId logId fst snd
       cookie_id Store.new_cookie JsMapMore.has].
  rewrite get_set_eq, get_delete_eq. repeat split.
Qed.

(** X6.  Deleting a cookie that is not there answers [false] and changes
    nothing. *)
Theorem deleteCookie_absent (id : Z) (w : World) :
  JsMap.get id (cookies (storage w)) = None ->
  value_of (Store.deleteCookie id w) = Returned false /\
  storage (world_of (Store.deleteCookie id w)) = storage w.
Proof.
  intros Hget.
  cbv [Store.deleteCookie value_of world_of mbind M_bind mret M_ret
       get_storage put_storage storage fst snd JsMapMore.has].
  fold (storage w). fold (cookies (storage w)).
  rewrite Hget, (delete_absent _ _ Hget). split; [reflexivity|].
  now destruct (storage w).
Qed.

Lemma deleteCookie_absent_witness :
  value_of (Store.deleteCookie 9 Sample.world1) = Returned false /\
  storage (world_of (Store.deleteCookie 9 Sample.world1)) = storage Sample.world1.
Proof. apply (deleteCookie_absent 9 Sample.world1). reflexivity. Defined.

Lemma values_app {V : Type} (m1 m2 : JsMap.t V) :
  JsMap.values (m1 ++ m2) = JsMap.values m1 ++ JsMap.values m2.
Proof. apply map_app. Qed.

Lemma createCookie_cookies_of (cookie : NewCookie) (user_id : Z) (w : World) :
  fresh_cookie_ids (storage w) ->
  Storage.cookies_of (storage (world_of (Store.createCookie cookie w))) user_id
  = Storage.cookies_of (storage w) user_id
      ++ (if decide (new_userId cookie = user_id)
          then [Store.new_cookie cookie (cookieId (storage w)) (dates w (ticks w))]
          else []).
Proof.
  intros Hfresh.
  cbv [Store.createCookie world_of mbind M_bind mret M_ret get_storage
       put_storage new_Date storage snd].
  fold (storage w). fold (dates w). fold (ticks w).
  unfold Storage.cookies_of, fresh_cookie_ids in *. cbn [cookies cookieId].
  rewrite (set_fresh _ _ _ Hfresh).
  rewrite values_app, filter_app. apply (f_equal (app _)).
  cbn [JsMap.values map snd]. rewrite filter_cons, filter_nil.
  cbn [cookie_userId Store.new_cookie]. reflexivity.
Qed.

(** X7.  A new cookie goes to the end of its owner's cookies and to nobody
    else's: the cookie the dispatcher takes, the first one, stays the
    same for a user who had one. *)
Theorem createCookie_keeps_first (cookie : NewCookie) (user_id : Z) (w : World) :
  fresh_cookie_ids (storage w) ->
  let created := Store.createCookie cookie w in
  let newCookie := Store.new_cookie cookie (cookieId (storage w)) (dates w (ticks w)) in
  Storage.cookies_of (storage (world_of created)) user_id
  = Storage.cookies_of (storage w) user_id
      ++ (if decide (new_userId cookie = user_id) then [newCookie] else []) /\
  fresh_cookie_ids (storage (world_of created)).
Proof.
  intros Hfresh. split; [exact (createCookie_cookies_of cookie user_id w Hfresh)|].
  cbv [Store.createCookie world_of mbind M_bind mret M_ret get_storage
       put_storage new_Date storage snd].
  fold (storage w). fold (dates w). fold (ticks w).
  unfold fresh_cookie_ids in *. cbn [cookies cookieId].
  rewrite (set_fresh _ _ _ Hfresh).
  rewrite keys_app. apply Forall_app. split.
  - eapply Forall_impl; [exact Hfresh|]. cbv beta. intros k Hk. lia.
  - repeat constructor. cbn. lia.
Qed.

Lemma createCookie_keeps_first_witness :
  let second := {| new_userId := 1; new_name := "spare";
                   new_cookieString := "sessionid=other" |} in
  Storage.cookies_of (storage (world_of (Store.createCookie second Sample.world1))) 1
  = [Sample.cookie1; Store.new_cookie second 2 2000].
Proof.
  intros second.
  apply (createCookie_keeps_first second 1 Sample.world1).
  repeat constructor.
Defined.

(* ================================================================= *)
(** ** More of the dispatcher *)

Lemma plan_missing_field (ig : IgAutomation) (body : Body) (cookieValue msg : string) :
  missing_field body msg -> plan ig body cookieValue = Reject (status_reply 400 msg).
Proof.
  intros Hmissing. unfold plan.
  destruct Hmissing as [kind Htype Hkind Hfield | kind Htype Hkind Hfield
                        | Htype Hfield | Htype Hfield];
    rewrite Htype.
  - cbn in Hkind. destruct Hkind as [<-|[<-|[<-|[]]]]; cbn; now rewrite Hfield.
  - cbn in Hkind. destruct Hkind as [<-|[<-|[]]]; cbn; now rewrite Hfield.
  - cbn. destruct Hfield as [Hfield|Hfield]; rewrite Hfield; cbn;
      [reflexivity | now rewrite orb_true_r].
  - cbn. now rewrite Hfield.
Qed.

(** X8.  A request that lacks a field its kind requires is answered 400 with
    the message of that field; no log entry is made, no remote call, the
    world stays as it was. *)
Theorem missing_field_rejected
    (ig : IgAutomation) (user_id : Z) (body : Body) (w : World)
    (first : Cookie) (others : list Cookie) (msg : string) :
  Storage.cookies_of (storage w) user_id = first :: others ->
  missing_field body msg ->
  run ig user_id body w = (Returned (status_reply 400 msg), w).
Proof.
  intros Hcookies Hmissing.
  rewrite (run_plan _ _ _ _ _ _ Hcookies), (plan_missing_field _ _ _ _ Hmissing).
  reflexivity.
Qed.

Lemma missing_field_rejected_witness :
  run (Sample.raising "unused") 1 (Sample.request "like") Sample.world1
  = (Returned (status_reply 400 "Post URL is required"), Sample.world1).
Proof.
  apply (missing_field_rejected (Sample.raising "unused") 1 (Sample.request "like")
           Sample.world1 Sample.cookie1 []).
  - reflexivity.
  - apply (missing_postUrl _ "like"); [reflexivity | simpl; auto | reflexivity].
Defined.

(** X9.  What the handler never does: it never touches the cookies or the
    clock readings, never removes or rewrites a log that was there, and
    adds at most one log; the identifiers stay below [logId]. *)
Theorem run_store_invariants
    (ig : IgAutomation) (user_id : Z) (body : Body) (w : World) :
  fresh_ids (storage w) ->
  let w' := world_of (run ig user_id body w) in
  cookies (storage w') = cookies (storage w) /\
  cookieId (storage w') = cookieId (storage w) /\
  dates w' = dates w /\
  (exists added,
     activityLogs (storage w') = activityLogs (storage w) ++ added /\
     (length added <= 1)%nat /\
     logId (storage w') = logId (storage w) + Z.of_nat (length added)) /\
  fresh_ids (storage w').
Proof.
  intros Hfresh w'.
  assert (Hkeep : fresh_ids (storage w')) by now apply run_keeps_fresh_ids.
  repeat split; try exact Hkeep; subst w'; unfold world_of, run, try_catchM;
    rewrite run_try_plan;
    destruct (Storage.cookies_of (storage w) user_id) as [|first others];
    try reflexivity;
    try (exists []; rewrite app_nil_r; cbn; repeat split; lia);
    destruct (plan ig body (cookieString first)) as [reply|action op args [r|e]];
    try reflexivity;
    try (exists []; rewrite app_nil_r; cbn; repeat split; lia);
    rewrite ?(perform_returned _ _ _ _ _ _ _ Hfresh),
            ?(perform_raised _ _ _ _ _ _ _ Hfresh);
    try reflexivity;
    eexists [_]; cbn; repeat split; lia.
Qed.

Lemma run_store_invariants_witness :
  let w' := world_of (run (Sample.raising "x") 1 Sample.follow_alice Sample.world1) in
  cookies (storage w') = cookies (storage Sample.world1) /\
  cookieId (storage w') = cookieId (storage Sample.world1) /\
  dates w' = dates Sample.world1 /\
  (exists added,
     activityLogs (storage w') = activityLogs (storage Sample.world1) ++ added /\
     (length added <= 1)%nat /\
     logId (storage w') = logId (storage Sample.world1) + Z.of_nat (length added)) /\
  fresh_ids (storage w').
Proof.
  apply (run_store_invariants (Sample.raising "x") 1 Sample.follow_alice Sample.world1).
  constructor.
Defined.

(** X10.  Two requests dispatched one after the other get the identifiers
    [logId] and [logId + 1]; each entry ends with the outcome of its own
    call, and the second dispatch leaves the entry of the first as it
    was. *)
Theorem successive_dispatches
    (ig : IgAutomation) (w : World)
    (user1 user2 : Z) (body1 body2 : Body)
    (first1 first2 : Cookie) (others1 others2 : list Cookie)
    (action1 op1 action2 op2 : string) (args1 args2 : list string)
    (r1 r2 : ActionResult) :
  fresh_ids (storage w) ->
  Storage.cookies_of (storage w) user1 = first1 :: others1 ->
  plan ig body1 (cookieString first1) = Perform action1 op1 args1 (Returned r1) ->
  Storage.cookies_of (storage w) user2 = first2 :: others2 ->
  plan ig body2 (cookieString first2) = Perform action2 op2 args2 (Returned r2) ->
  let w1 := world_of (run ig user1 body1 w) in
  let second := run ig user2 body2 w1 in
  value_of second = Returned (json_reply r2) /\
  activityLogs (storage (world_of second))
  = activityLogs (storage w)
      ++ [(logId (storage w), settled_log w user1 body1 action1 (terminal r1));
          (logId (storage w) + 1, settled_log w1 user2 body2 action2 (terminal r2))].
Proof.
  intros Hfresh Hc1 Hp1 Hc2 Hp2 w1 second.
  assert (Hw1 : w1 = snd (perform user1 body1 action1 op1 args1 (Returned r1) w)).
  { subst w1. unfold world_of. rewrite (run_plan _ _ _ _ _ _ Hc1), Hp1.
    unfold try_catchM. now rewrite (perform_returned _ _ _ _ _ _ _ Hfresh). }
  assert (Hfresh1 : fresh_ids (storage w1)) by (apply run_keeps_fresh_ids, Hfresh).
  rewrite (perform_returned _ _ _ _ _ _ _ Hfresh) in Hw1. cbn [snd] in Hw1.
  assert (Hc2' : Storage.cookies_of (storage w1) user2 = first2 :: others2).
  { rewrite Hw1. exact Hc2. }
  subst second. unfold value_of, world_of.
  rewrite (run_plan _ _ _ _ _ _ Hc2'), Hp2. unfold try_catchM.
  rewrite (perform_returned _ _ _ _ _ _ _ Hfresh1). cbn [fst snd storage activityLogs].
  split; [reflexivity|].
  rewrite Hw1 at 1 2. cbn [storage activityLogs logId].
  now rewrite <- app_assoc.
Qed.

Lemma successive_dispatches_witness :
  let ig := igAutomation (Sample.offline "read ECONNRESET") in
  let w1 := world_of (run ig 1 Sample.follow_alice Sample.world1) in
  let second := run ig 1 (Sample.request "duplicates") w1 in
  value_of second = Returned (json_reply
    (result true "Duplicate account check completed. No duplicates found.")) /\
  activityLogs (storage (world_of second))
  = activityLogs (storage Sample.world1)
      ++ [(1, settled_log Sample.world1 1 Sample.follow_alice "Followed @alice" "failed");
          (2, settled_log w1 1 (Sample.request "duplicates")
                "Removed duplicate accounts" "success")].
Proof.
  apply (successive_dispatches (igAutomation (Sample.offline "read ECONNRESET"))
           Sample.world1 1 1 Sample.follow_alice (Sample.request "duplicates")
           Sample.cookie1 Sample.cookie1 [] []
           "Followed @alice" "followUser" "Removed duplicate accounts"
           "removeDuplicateAccounts"
           ["alice"; "csrftoken=abc123; sessionid=xyz"]
           ["csrftoken=abc123; sessionid=xyz"]
           (result false "Error following alice: read ECONNRESET")
           (result true "Duplicate account check completed. No duplicates found."));
    [constructor | reflexivity | reflexivity | reflexivity | reflexivity].
Defined.

(* ================================================================= *)
(** ** The short code of a post URL *)

Lemma prefix_app_same (sep rest : string) : String.prefix sep (sep +:+ rest) = true.
Proof.
  induction sep as [|c sep IH]; [now destruct rest|].
  rewrite append_cons. cbn [String.prefix].
  destruct (ascii_dec c c); [exact IH | contradiction].
Qed.

(** A match decided within [s] is not changed by what follows [s]. *)
Lemma prefix_app_long (sep s t : string) :
  (String.length sep <= String.length s)%nat ->
  String.prefix sep (s +:+ t) = String.prefix sep s.
Proof.
  revert s. induction sep as [|c sep IH]; intros s Hlen.
  - destruct s; [now destruct t | reflexivity].
  - destruct s as [|d s]; [cbn in Hlen; lia|].
    rewrite append_cons. cbn [String.prefix].
    destruct (ascii_dec c d); [|reflexivity].
    apply IH. cbn in Hlen. lia.
Qed.

Lemma split_from_skip (sep a rest : string) :
  Js.split_from sep (String.length a) (a +:+ rest) = Js.split_from sep 0 rest.
Proof.
  induction a as [|c a IH]; [reflexivity|].
  rewrite append_cons. cbn [String.length Js.split_from]. exact IH.
Qed.

(** The first ["/p/"] of a string: when ["/p/"] does not occur in
    [base] followed by ["/p"], the split cuts right after [base]. *)
Lemma split_post_path (base rest : string) :
  JsMore.includes (base +:+ "/p") "/p/" = false ->
  Js.split "/p/" (base +:+ "/p/" +:+ rest) = base :: Js.split "/p/" rest.
Proof.
  unfold Js.split. induction base as [|c base IH]; intros Hfree.
  - rewrite append_empty_l.
    change ("/p/" +:+ rest) with (String "/" ("p/" +:+ rest)).
    cbn [Js.split_from].
    change (String "/" ("p/" +:+ rest)) with ("/p/" +:+ rest).
    rewrite prefix_app_same. apply (f_equal (cons "")).
    exact (split_from_skip "/p/" "p/" rest).
  - rewrite append_cons in Hfree. cbn [JsMore.includes] in Hfree.
    apply orb_false_elim in Hfree as [Hhere Hlater].
    rewrite append_cons. cbn [Js.split_from].
    replace (String c (base +:+ "/p/" +:+ rest))
      with ((String c base +:+ "/p") +:+ "/" +:+ rest)
      by (rewrite append_assoc; reflexivity).
    rewrite prefix_app_long.
    + rewrite (append_cons c base "/p"), Hhere, (IH Hlater). reflexivity.
    + rewrite length_append. cbn. lia.
Qed.

(** Up to the first ["/"], a string and its part before the first
    ["/p/"] agree. *)
Lemma hd_split_slash_post_path (s : string) :
  hd "" (Js.split "/" (hd "" (Js.split "/p/" s))) = hd "" (Js.split "/" s).
Proof.
  unfold Js.split at 2. induction s as [|c s IH]; [reflexivity|].
  cbn [Js.split_from]. rewrite (split_char_step "/" c s).
  destruct (String.prefix "/p/" (String c s)) eqn:Hmatch.
  - cbn [String.prefix] in Hmatch.
    destruct (ascii_dec "/" c) as [<-|]; [|discriminate]. reflexivity.
  - destruct (Js.split_from "/p/" 0 s) as [|piece pieces] eqn:Hs;
      [now apply split_from_nonempty in Hs|].
    cbn [hd] in *. rewrite (split_char_step "/" c piece).
    destruct (Ascii.eqb "/" c); [reflexivity|].
    destruct (Js.split "/" piece) as [|p ps] eqn:Hp;
      [now apply split_from_nonempty in Hp|].
    destruct (Js.split "/" s) as [|q qs] eqn:Hq;
      [now apply split_from_nonempty in Hq|].
    cbn [hd] in *. now rewrite IH.
Qed.

Lemma hd_split_char_stop (c : ascii) (code rest : string) :
  lacks c code -> hd "" (Js.split (String c "") (code +:+ String c rest)) = code.
Proof. intros Hcode. now rewrite split_char_cut. Qed.

Lemma hd_split_char_cons (c d : ascii) (s : string) :
  c <> d ->
  hd "" (Js.split (String c "") (String d s))
  = String d (hd "" (Js.split (String c "") s)).
Proof.
  intros Hne. rewrite split_char_step.
  destruct (Ascii.eqb_spec c d); [contradiction|].
  destruct (Js.split (String c "") s) as [|p ps] eqn:Hs;
    [now apply split_from_nonempty in Hs | reflexivity].
Qed.

Lemma hd_split_query_in_path (code more : string) :
  lacks "/" code -> lacks "?" code ->
  hd "" (Js.split "?" (hd "" (Js.split "/" (code +:+ String "?" more)))) = code.
Proof.
  induction code as [|d code IH]; intros Hslash Hquery.
  - rewrite append_empty_l, hd_split_char_cons by discriminate.
    rewrite split_char_step. reflexivity.
  - destruct Hslash as [Hd1 Hslash], Hquery as [Hd2 Hquery].
    rewrite append_cons, !hd_split_char_cons by congruence.
    now rewrite IH.
Qed.

(** X11.  The short code of a post URL: for a URL that reads [base], ["/p/"],
    [code] and then ends or goes on with ["/"] or ["?"], where ["/p/"]
    does not occur before and [code] has neither ["/"] nor ["?"], the
    extraction returns [code]. *)
Theorem extract_shortcode_of_post_url (base code rest : string) :
  JsMore.includes (base +:+ "/p") "/p/" = false ->
  lacks "/" code -> lacks "?" code ->
  rest = "" \/ (exists more, rest = "/" +:+ more) \/ (exists more, rest = "?" +:+ more) ->
  InstagramAutomation.extract_shortcode (base +:+ "/p/" +:+ code +:+ rest)
  = Returned code.
Proof.
  intros Hbase Hslash Hquery Hrest. unfold InstagramAutomation.extract_shortcode.
  rewrite (split_post_path base (code +:+ rest) Hbase).
  destruct (Js.split "/p/" (code +:+ rest)) as [|tail more] eqn:Htail;
    [now apply split_from_nonempty in Htail|].
  cbn [lookup list_lookup]. f_equal.
  change tail with (hd "" (tail :: more)). rewrite <- Htail.
  rewrite hd_split_slash_post_path.
  destruct Hrest as [->|[[more' ->]|[more' ->]]].
  - rewrite append_empty_r, (split_char_lacks "/" code Hslash). cbn [hd].
    now rewrite (split_char_lacks "?" code Hquery).
  - change ("/" +:+ more') with (String "/" more').
    rewrite (hd_split_char_stop "/" code more' Hslash).
    now rewrite (split_char_lacks "?" code Hquery).
  - change ("?" +:+ more') with (String "?" more').
    now apply hd_split_query_in_path.
Qed.

Lemma extract_shortcode_of_post_url_witness :
  InstagramAutomation.extract_shortcode
    ("https://www.instagram.com" +:+ "/p/" +:+ "CUbHfhEMD3k" +:+ "/?igshid=1")
  = Returned "CUbHfhEMD3k".
Proof.
  apply (extract_shortcode_of_post_url "https://www.instagram.com" "CUbHfhEMD3k"
           "/?igshid=1").
  - reflexivity.
  - cbn. repeat split; discriminate.
  - cbn. repeat split; discriminate.
  - right. left. exists "?igshid=1". reflexivity.
Defined.

(* ================================================================= *)
(** ** Checking and saving a cookie *)

Lemma checkLogin_isLoggedIn_returns (get : axios_get_with) (cookieStr : string) :
  exists status, CheckLogin.isLoggedIn get cookieStr = Returned status.
Proof.
  unfold CheckLogin.isLoggedIn, CheckLogin.isLoggedIn_try.
  destruct (get _ _ _ _); cbn [mbind outcome_bind try_catch]; eauto.
Qed.

Lemma automation_isLoggedIn_returns (get : axios_get_with) (cookieStr : string) :
  exists valid, AutomationLogin.isLoggedIn get cookieStr = Returned valid.
Proof.
  unfold AutomationLogin.isLoggedIn, AutomationLogin.isLoggedIn_try.
  destruct (get _ _ _ _); cbn [mbind outcome_bind try_catch]; eauto.
Qed.

(** X12.  The login check of [instagram-check-login.js] never raises.
    When the request is answered it reports success, logged in exactly
    for status 200, with the message of that case; when the request
    is rejected it reports [success: false], not logged in, and the
    text of the error. *)
Theorem checkLogin_isLoggedIn_cases (get : axios_get_with) (cookieStr : string) :
  let request :=
    get "https://www.instagram.com/accounts/edit/"
        [("User-Agent", "Mozilla/5.0 (Windows NT 10.0; Win64; x64)");
         ("X-CSRFToken", Js.or_else (parseCookieString cookieStr !! "csrftoken") "");
         ("Cookie", cookieStr)]
        0 (fun status => (status =? 200) || (status =? 302)) in
  (exists status, CheckLogin.isLoggedIn get cookieStr = Returned status) /\
  (forall response,
      request = Returned response -> resp_status response = 200 ->
      CheckLogin.isLoggedIn get cookieStr
      = Returned {| CheckLogin.login_success := true;
                    CheckLogin.login_isLoggedIn := true;
                    CheckLogin.login_message :=
                      "Cookie is valid and user is logged in" |}) /\
  (forall response,
      request = Returned response -> resp_status response <> 200 ->
      CheckLogin.isLoggedIn get cookieStr
      = Returned {| CheckLogin.login_success := true;
                    CheckLogin.login_isLoggedIn := false;
                    CheckLogin.login_message := "Cookie is invalid or expired" |}) /\
  (forall text,
      request = Raised (JsError text) ->
      CheckLogin.isLoggedIn get cookieStr
      = Returned {| CheckLogin.login_success := false;
                    CheckLogin.login_isLoggedIn := false;
                    CheckLogin.login_message :=
                      "Error checking login status: " +:+ text |}).
Proof.
  intros request. subst request.
  unfold CheckLogin.isLoggedIn, CheckLogin.isLoggedIn_try.
  destruct (get _ _ _ _) as [response|e]; cbn [mbind outcome_bind try_catch].
  - split; [eauto|]. split; [|split].
    + intros ? [= <-] Hstatus. rewrite Hstatus. reflexivity.
    + intros ? [= <-] Hstatus.
      destruct (Z.eqb_spec (resp_status response) 200); [contradiction|reflexivity].
    + discriminate.
  - split; [eauto|]. split; [|split]; try discriminate.
    intros text [= ->]. reflexivity.
Qed.

(** X13.  The login check of [instagram-automation.js] never raises; it
    answers [true] exactly when the request is answered with status 200. *)
Theorem automation_isLoggedIn_true_iff (get : axios_get_with) (cookieStr : string) :
  exists valid,
    AutomationLogin.isLoggedIn get cookieStr = Returned valid /\
    (valid = true <->
     exists response,
       get "https://www.instagram.com/accounts/edit/"
           [("User-Agent", "Mozilla/5.0");
            ("X-CSRFToken", Js.or_else (parseCookieString cookieStr !! "csrftoken") "");
            ("Cookie", cookieStr)]
           0 (fun status => status =? 200)
       = Returned response /\
       resp_status response = 200).
Proof.
  unfold AutomationLogin.isLoggedIn, AutomationLogin.isLoggedIn_try.
  destruct (get _ _ _ _) as [response|e]; cbn [mbind outcome_bind try_catch].
  - eexists. split; [reflexivity|]. split.
    + intros Hok. exists response. split; [reflexivity|]. now apply Z.eqb_eq.
    + intros (response' & [= <-] & Hstatus). now apply Z.eqb_eq.
  - eexists. split; [reflexivity|]. split; [discriminate|].
    intros (response & Hget & _). discriminate Hget.
Qed.

(** X14.  The route [/check-login] with the login check of the repository:
    without a cookie string it answers 400; with one it always answers
    200 with [success: true], whatever the transport does; the 500
    answer is never sent. *)
Theorem check_login_route_answers (get : axios_get_with)
    (cookieString : option string) :
  exists answer,
    CheckLoginRoute.check_login (AutomationLogin.isLoggedIn get) cookieString
    = Returned answer /\
    CheckLoginRoute.answer_code answer
    = (if Js.truthy cookieString then 200 else 400) /\
    CheckLoginRoute.answer_success answer = Js.truthy cookieString /\
    (Js.truthy cookieString = true ->
     exists valid,
       AutomationLogin.isLoggedIn get (text cookieString) = Returned valid /\
       CheckLoginRoute.answer_isLoggedIn answer = Some valid /\
       CheckLoginRoute.answer_message answer
       = (if valid then "Cookie is valid" else "Cookie is invalid or expired")).
Proof.
  unfold CheckLoginRoute.check_login.
  destruct (Js.truthy cookieString) eqn:Hcookie; cbn [negb].
  - destruct (automation_isLoggedIn_returns get (text cookieString))
      as (valid & Hvalid).
    rewrite Hvalid. cbn [mbind outcome_bind try_catch].
    eexists. split; [reflexivity|]. repeat split.
    intros _. exists valid. repeat split.
  - eexists. split; [reflexivity|]. repeat split. discriminate.
Qed.

(** X15.  Saving a cookie.  With a name and a cookie string the route always
    stores the cookie and answers "Cookie saved successfully", whatever
    the login check finds and whatever the transport does: the check
    returns an object, and an object is never refused.  The answer
    "Invalid or expired cookie" is never sent. *)
Theorem save_cookie_always_saves
    (get : axios_get_with) (user_id : Z) (name cookieString : option string)
    (w : World) :
  Js.truthy name = true -> Js.truthy cookieString = true ->
  let saved := SaveCookieRoute.save_cookie (CheckLogin.isLoggedIn get)
                 user_id name cookieString w in
  let cookie := {| cookie_userId := user_id;
                   cookie_name := text name;
                   cookieString := text cookieString;
                   cookie_id := cookieId (storage w);
                   cookie_createdAt := dates w (ticks w) |} in
  value_of saved
  = Returned {| SaveCookieRoute.answer_code := 200;
                SaveCookieRoute.answer_success := Some true;
                SaveCookieRoute.answer_message := "Cookie saved successfully";
                SaveCookieRoute.answer_cookie := Some cookie;
                SaveCookieRoute.answer_error := None |} /\
  value_of (Store.getCookie (cookieId (storage w)) (world_of saved))
  = Returned (Some cookie) /\
  activityLogs (storage (world_of saved)) = activityLogs (storage w).
Proof.
  intros Hname Hcookie.
  unfold SaveCookieRoute.save_cookie, try_catchM.
  rewrite Hname, Hcookie. cbn [negb orb].
  destruct (checkLogin_isLoggedIn_returns get (text cookieString))
    as (status & Hstatus).
  rewrite Hstatus.
  cbv [lift_outcome truthy_object negb Store.createCookie Store.getCookie
       value_of world_of mbind M_bind mret M_ret get_storage put_storage
       new_Date storage dates ticks trace activityLogs cookies cookieId logId
       fst snd Store.new_cookie new_userId new_name new_cookieString].
  rewrite get_set_eq. repeat split.
Qed.

Lemma save_cookie_always_saves_witness :
  let refused : axios_get_with :=
    fun _ _ _ _ => Raised (JsError "Request failed with status code 403") in
  let saved := SaveCookieRoute.save_cookie (CheckLogin.isLoggedIn refused)
                 1 (Some "main") (Some "sessionid=expired") Sample.world0 in
  let cookie := {| cookie_userId := 1; cookie_name := "main";
                   cookieString := "sessionid=expired";
                   cookie_id := 1; cookie_createdAt := 2000 |} in
  value_of saved
  = Returned {| SaveCookieRoute.answer_code := 200;
                SaveCookieRoute.answer_success := Some true;
                SaveCookieRoute.answer_message := "Cookie saved successfully";
                SaveCookieRoute.answer_cookie := Some cookie;
                SaveCookieRoute.answer_error := None |} /\
  value_of (Store.getCookie 1 (world_of saved)) = Returned (Some cookie) /\
  activityLogs (storage (world_of saved)) = activityLogs (storage Sample.world0).
Proof.
  intros refused.
  apply (save_cookie_always_saves refused 1 (Some "main") (Some "sessionid=expired")
           Sample.world0); reflexivity.
Defined.

(** X16.  Saving a cookie, then dispatching: a user who had no cookie and
    saves one has it as the only cookie, and the next request of this
    user is dispatched with it. *)
Theorem save_cookie_then_dispatch
    (get : axios_get_with) (ig : IgAutomation) (user_id : Z)
    (name cookieField : option string) (w : World)
    (body : Body) (action operation : string) (args : list string)
    (r : ActionResult) :
  Js.truthy name = true -> Js.truthy cookieField = true ->
  fresh_cookie_ids (storage w) -> fresh_ids (storage w) ->
  Storage.cookies_of (storage w) user_id = [] ->
  plan ig body (text cookieField) = Perform action operation args (Returned r) ->
  let w' := world_of (SaveCookieRoute.save_cookie (CheckLogin.isLoggedIn get)
                        user_id name cookieField w) in
  map cookieString (Storage.cookies_of (storage w') user_id) = [text cookieField] /\
  value_of (run ig user_id body w') = Returned (json_reply r) /\
  In (EvRemote operation args) (trace (world_of (run ig user_id body w'))).
Proof.
  intros Hname Hcookie Hfresh_c Hfresh Hnone Hplan w'.
  assert (Hw' : w' = world_of (Store.createCookie
                   {| new_userId := user_id; new_name := text name;
                      new_cookieString := text cookieField |} w)).
  { subst w'. unfold SaveCookieRoute.save_cookie, try_catchM.
    rewrite Hname, Hcookie. cbn [negb orb].
    destruct (checkLogin_isLoggedIn_returns get (text cookieField))
      as (status & Hstatus).
    rewrite Hstatus.
    cbv [lift_outcome truthy_object negb Store.createCookie world_of
         mbind M_bind mret M_ret get_storage put_storage new_Date snd].
    reflexivity. }
  pose proof (createCookie_cookies_of
                {| new_userId := user_id; new_name := text name;
                   new_cookieString := text cookieField |} user_id w Hfresh_c)
    as Hcookies.
  rewrite <- Hw', Hnone in Hcookies. cbn [new_userId app] in Hcookies.
  destruct (decide (user_id = user_id)) as [_|Hne]; [|contradiction].
  assert (Hfresh' : fresh_ids (storage w')).
  { rewrite Hw'. exact Hfresh. }
  split; [now rewrite Hcookies|].
  unfold value_of, world_of. rewrite (run_plan _ _ _ _ _ _ Hcookies).
  cbn [cookieString Store.new_cookie new_cookieString]. rewrite Hplan.
  unfold try_catchM. rewrite (perform_returned _ _ _ _ _ _ _ Hfresh').
  cbn [fst snd trace]. split; [reflexivity|].
  rewrite in_app_iff. right. cbn. auto.
Qed.

Lemma save_cookie_then_dispatch_witness :
  let get : axios_get_with := fun _ _ _ _ => Raised (JsError "offline") in
  let ig := igAutomation (Sample.offline "offline") in
  let w' := world_of (SaveCookieRoute.save_cookie (CheckLogin.isLoggedIn get)
                        1 (Some "main") (Some "sessionid=abc") Sample.world0) in
  map cookieString (Storage.cookies_of (storage w') 1) = ["sessionid=abc"] /\
  value_of (run ig 1 Sample.follow_alice w')
  = Returned (json_reply (result false "Error following alice: offline")) /\
  In (EvRemote "followUser" ["alice"; "sessionid=abc"])
     (trace (world_of (run ig 1 Sample.follow_alice w'))).
Proof.
  intros get ig.
  apply (save_cookie_then_dispatch get ig 1 (Some "main") (Some "sessionid=abc")
           Sample.world0 Sample.follow_alice "Followed @alice" "followUser"
           ["alice"; "sessionid=abc"]
           (result false "Error following alice: offline"));
    try reflexivity; constructor.
Defined.

(* ================================================================= *)
(** ** When the remote operations report success *)

Section Success.

Variable env : Env.

Import InstagramAutomation.

Ltac settle :=
  repeat match goal with
         | H : answered_200 _ |- _ => destruct H as (? & ? & ?)
         | H : succeeds _ |- _ => destruct H as (? & ? & ?)
         | H : _ /\ _ |- _ => destruct H
         | H : exists _, _ |- _ => destruct H
         | H : Returned _ = Returned _ |- _ => injection H as H; subst
         | H : Raised _ = Returned _ |- _ => discriminate H
         | H : Returned _ = Raised _ |- _ => discriminate H
         end.

(** X17.  [followUser] and [unfollowUser] never throw, and they report
    success exactly when the profile lookup is answered 200, the
    payload has [data.user], the [id] read from it is converted to a
    string by the template literal (the conversion throws for an
    object that has no primitive value) and the request to the
    friendship address made of that string is answered 200. *)
Theorem follow_succeeds_iff (username cookieStr : string) :
  let lookup := axios_get env (profile_url username)
                          (profile_headers username cookieStr) in
  let create idText :=
    axios_post env
      ("https://www.instagram.com/api/v1/friendships/create/" +:+ idText +:+ "/")
      (JObject []) (friendship_headers username cookieStr) in
  let destroy idText :=
    axios_post env
      ("https://www.instagram.com/api/v1/friendships/destroy/" +:+ idText +:+ "/")
      (JObject []) (friendship_headers username cookieStr) in
  (exists r, followUser env username cookieStr = Returned r) /\
  (exists r, unfollowUser env username cookieStr = Returned r) /\
  (succeeds (followUser env username cookieStr) <->
   exists response userId idText,
     lookup = Returned response /\ resp_status response = 200 /\
     read_user_id (resp_data response) = Returned userId /\
     String_of env userId = Returned idText /\
     answered_200 (create idText)) /\
  (succeeds (unfollowUser env username cookieStr) <->
   exists response userId idText,
     lookup = Returned response /\ resp_status response = 200 /\
     read_user_id (resp_data response) = Returned userId /\
     String_of env userId = Returned idText /\
     answered_200 (destroy idText)).
Proof.
  intros lookup create destroy. subst lookup create destroy. cbv beta.
  unfold succeeds, answered_200, followUser, unfollowUser.
  rewrite followUser_try_read, unfollowUser_try_read.
  destruct (axios_get env _ _) as [response|e];
    cbn [mbind outcome_bind try_catch];
    [|repeat apply conj; eauto; intros; settle; cbn in *; congruence].
  destruct (Z.eqb_spec (resp_status response) 200) as [Hstatus|Hstatus];
    cbn [negb try_catch];
    [|repeat apply conj; eauto; intros; settle; cbn in *; congruence].
  destruct (read_user_id (resp_data response)) as [userId|e] eqn:Hid;
    cbn [mbind outcome_bind try_catch];
    [|repeat apply conj; eauto; intros; settle; cbn in *; congruence].
  destruct (String_of env userId) as [idText|e] eqn:Htext;
    cbn [mbind outcome_bind try_catch];
    [|repeat apply conj; eauto; intros; settle; cbn in *; congruence].
  split; [|split; [|split; split]].
  - destruct (axios_post env _ _ _); cbn [try_catch mbind outcome_bind]; eauto.
  - destruct (axios_post env _ _ _); cbn [try_catch mbind outcome_bind]; eauto.
  - intros Hok.
    destruct (axios_post env _ _ _) as [answer|e] eqn:Hpost;
      cbn [try_catch mbind outcome_bind] in Hok; settle; cbn in *; [|discriminate].
    exists response, userId, idText. repeat split; try assumption.
    exists answer. split; [assumption | now apply Z.eqb_eq].
  - intros (response' & userId' & idText' & Hr & _ & Hid' & Htext' & answer
            & Hpost & Hanswer).
    settle. rewrite Hid in Hid'. settle. rewrite Htext in Htext'. settle.
    rewrite Hpost. cbn [try_catch mbind outcome_bind].
    eexists. split; [reflexivity|]. cbn. now apply Z.eqb_eq.
  - intros Hok.
    destruct (axios_post env _ _ _) as [answer|e] eqn:Hpost;
      cbn [try_catch mbind outcome_bind] in Hok; settle; cbn in *; [|discriminate].
    exists response, userId, idText. repeat split; try assumption.
    exists answer. split; [assumption | now apply Z.eqb_eq].
  - intros (response' & userId' & idText' & Hr & _ & Hid' & Htext' & answer
            & Hpost & Hanswer).
    settle. rewrite Hid in Hid'. settle. rewrite Htext in Htext'. settle.
    rewrite Hpost. cbn [try_catch mbind outcome_bind].
    eexists. split; [reflexivity|]. cbn. now apply Z.eqb_eq.
Qed.

(** X18.  The operations on a post report success exactly when the short
    code can be taken from the URL and the one request, to the address
    made of the media identifier, is answered 200; [deleteComment]
    exactly when its request, to the address made of the comment
    identifier, is answered 200. *)
Theorem post_operations_succeed_iff
    (postUrl commentText commentId cookieStr : string) :
  let mediaId shortcode := shortcodeToMediaId (Number_toString env) shortcode in
  (succeeds (likePost env postUrl cookieStr) <->
   exists shortcode,
     extract_shortcode postUrl = Returned shortcode /\
     answered_200
       (axios_post env
          ("https://www.instagram.com/web/likes/" +:+ mediaId shortcode +:+ "/like/")
          (JObject []) (post_headers postUrl cookieStr))) /\
  (succeeds (unlikePost env postUrl cookieStr) <->
   exists shortcode,
     extract_shortcode postUrl = Returned shortcode /\
     answered_200
       (axios_post env
          ("https://www.instagram.com/web/likes/" +:+ mediaId shortcode +:+ "/unlike/")
          (JObject []) (post_headers postUrl cookieStr))) /\
  (succeeds (commentPost env postUrl commentText cookieStr) <->
   exists shortcode,
     extract_shortcode postUrl = Returned shortcode /\
     answered_200
       (axios_post env
          ("https://www.instagram.com/web/comments/" +:+ mediaId shortcode +:+ "/add/")
          (JObject [("comment_text", JString commentText)])
          (post_headers postUrl cookieStr))) /\
  (succeeds (deleteComment env postUrl commentId cookieStr) <->
   answered_200
     (axios_post env
        ("https://www.instagram.com/web/comments/" +:+ commentId +:+ "/delete/")
        (JObject [("comment_id", JString commentId)])
        (post_headers postUrl cookieStr))).
Proof.
  intros mediaId. subst mediaId. cbv beta.
  unfold succeeds, answered_200, likePost, unlikePost, commentPost, deleteComment,
    likePost_try, unlikePost_try, commentPost_try, deleteComment_try.
  split; [|split; [|split]].
  1-3: destruct (extract_shortcode postUrl) as [shortcode|e];
    [|split; intros; cbn [try_catch] in *; settle; cbn in *; congruence];
    split;
    [ intros Hok;
      destruct (axios_post env _ _ _) as [answer|e] eqn:Hpost;
      cbn [try_catch mbind outcome_bind] in Hok; settle; cbn in *; [|discriminate];
      exists shortcode; split; [reflexivity|];
      exists answer; split; [assumption | now apply Z.eqb_eq]
    | intros (shortcode' & Hcode & answer & Hpost & Hanswer);
      settle; rewrite Hpost; cbn [try_catch mbind outcome_bind];
      eexists; split; [reflexivity|]; cbn; now apply Z.eqb_eq ].
  split.
  - intros Hok.
    destruct (axios_post env _ _ _) as [answer|e] eqn:Hpost;
      cbn [try_catch mbind outcome_bind] in Hok; settle; cbn in *; [|discriminate].
    exists answer. split; [reflexivity | now apply Z.eqb_eq].
  - intros (answer & Hpost & Hanswer). rewrite Hpost.
    cbn [try_catch mbind outcome_bind].
    eexists. split; [reflexivity|]. cbn. now apply Z.eqb_eq.
Qed.

(** X19.  [getInstagramProfileInfo] reports success exactly when the lookup
    is answered 200 with a payload whose [data] and [data.user] are
    truthy; the result then carries that [user] as its data, and a
    failure carries none. *)
Theorem profile_info_succeeds_iff (username cookieStr : string) :
  let lookup := axios_get env (profile_url username)
                          (profile_headers username cookieStr) in
  exists r,
    getInstagramProfileInfo env username cookieStr = Returned r /\
    (success r = true <->
     exists response body user,
       lookup = Returned response /\ resp_status response = 200 /\
       get_prop (resp_data response) "data" = Returned body /\
       truthy_json body = true /\
       get_prop body "user" = Returned user /\
       truthy_json user = true /\
       data r = Some user) /\
    (success r = false -> data r = None).
Proof.
  intros lookup. subst lookup.
  unfold getInstagramProfileInfo, getInstagramProfileInfo_try.
  destruct (axios_get env _ _) as [response|e];
    cbn [mbind outcome_bind try_catch];
    [|eexists; split; [reflexivity|]; split; [split|]; intros; settle;
      cbn in *; congruence].
  destruct (Z.eqb_spec (resp_status response) 200) as [Hstatus|Hstatus];
    cbn [negb try_catch];
    [|eexists; split; [reflexivity|]; split; [split|]; intros; settle;
      cbn in *; congruence].
  destruct (get_prop (resp_data response) "data") as [body|e] eqn:Hbody;
    cbn [mbind outcome_bind try_catch];
    [|eexists; split; [reflexivity|]; split; [split|]; intros; settle;
      cbn in *; congruence].
  destruct (truthy_json body) eqn:Htb; cbn [negb try_catch];
    [|eexists; split; [reflexivity|]; split; [split|]; intros; settle;
      cbn in *; congruence].
  destruct (get_prop body "user") as [user|e] eqn:Huser;
    cbn [mbind outcome_bind try_catch];
    [|eexists; split; [reflexivity|]; split; [split|]; intros; settle;
      cbn in *; congruence].
  destruct (truthy_json user) eqn:Htu; cbn [try_catch];
    [|eexists; split; [reflexivity|]; split; [split|]; intros; settle;
      cbn in *; congruence].
  eexists. split; [reflexivity|]. split; [split|].
  - intros _. exists response, body, user. repeat split; assumption.
  - reflexivity.
  - discriminate.
Qed.

End Success.

(** The second piece of a split exists exactly when the separator
    occurs. *)
Lemma split_second_iff_includes (sep s : string) :
  sep <> "" ->
  (Js.split sep s !! 1%nat = None <-> JsMore.includes s sep = false).
Proof.
  intros Hsep. unfold Js.split.
  induction s as [|c s IH]; cbn [Js.split_from JsMore.includes].
  - destruct sep; [contradiction|]. cbn. tauto.
  - destruct (String.prefix sep (String c s)) eqn:Hmatch; cbn [orb].
    + destruct (Js.split_from sep (Nat.pred (String.length sep)) s)
        as [|p ps] eqn:Hs; [now apply split_from_nonempty in Hs|].
      cbn. split; discriminate.
    + destruct (Js.split_from sep 0 s) as [|p ps] eqn:Hs;
        [now apply split_from_nonempty in Hs|].
      exact IH.
Qed.

Lemma append_head_ne (c d : ascii) (s t u : string) :
  c <> d -> String c s +:+ t <> String d u.
Proof. intros Hne. rewrite append_cons. congruence. Qed.

(** X20.  The operations on a post answer "Invalid post URL format" exactly
    for the post URLs that do not contain ["/p/"], whatever the
    transport does. *)
Theorem invalid_post_url_iff
    (env : Env) (postUrl commentText cookieStr : string) :
  let invalid := Returned (result false "Invalid post URL format") in
  (InstagramAutomation.likePost env postUrl cookieStr = invalid
   <-> JsMore.includes postUrl "/p/" = false) /\
  (InstagramAutomation.unlikePost env postUrl cookieStr = invalid
   <-> JsMore.includes postUrl "/p/" = false) /\
  (InstagramAutomation.commentPost env postUrl commentText cookieStr = invalid
   <-> JsMore.includes postUrl "/p/" = false).
Proof.
  intros invalid. subst invalid.
  assert (Hmal : malformed postUrl <-> JsMore.includes postUrl "/p/" = false)
    by (apply split_second_iff_includes; discriminate).
  rewrite <- Hmal. unfold malformed.
  unfold InstagramAutomation.likePost, InstagramAutomation.unlikePost,
    InstagramAutomation.commentPost, InstagramAutomation.likePost_try,
    InstagramAutomation.unlikePost_try, InstagramAutomation.commentPost_try,
    InstagramAutomation.extract_shortcode.
  destruct (Js.split "/p/" postUrl !! 1%nat) as [tail|];
    [|split; [|split]; split; reflexivity].
  split; [|split]; (split; [|discriminate]);
    destruct (axios_post env _ _ _) as [answer|e];
    cbn [mbind outcome_bind try_catch]; intros Hsame; exfalso;
    apply (f_equal (fun out => match out with
                               | Returned r => message r
                               | Raised _ => ""
                               end)) in Hsame;
    cbn [message result] in Hsame;
    try destruct (resp_status answer =? 200);
    revert Hsame; apply append_head_ne; discriminate.
Qed.

(* ================================================================= *)
(** ** Time limits *)

Lemma dig_mul (p q : positive) : dig p + dig q - 1 <= dig (p * q).
Proof.
  rewrite !dig_log2, Pos2Z.inj_mul.
  pose proof (Z.log2_mul_below (Z.pos p) (Z.pos q)). lia.
Qed.

(** The product of two integers of at most 53 digits whose product has
    at most 53 digits is exact. *)
Lemma mul_canon (s1 s2 : bool) (q1 q2 : positive) :
  dig q1 <= 53 -> dig q2 <= 53 -> dig (q1 * q2) <= 53 ->
  Number.mul (canon s1 q1 0) (canon s2 q2 0) = canon (xorb s1 s2) (q1 * q2) 0.
Proof.
  intros H1 H2 H12.
  pose proof (dig_pos q1). pose proof (dig_pos q2). pose proof (dig_mul q1 q2).
  unfold Number.mul, SFmul, canon.
  set (k := Z.to_pos (53 - dig q1 - dig q2 + dig (q1 * q2))).
  assert (Hk : Z.pos k = 53 - dig q1 - dig q2 + dig (q1 * q2))
    by (subst k; rewrite Z2Pos.id; lia).
  assert (Hm : (Pos.shiftl q1 (Z.to_N (53 - dig q1))
                * Pos.shiftl q2 (Z.to_N (53 - dig q2)))%positive
               = Pos.iter xO (Pos.shiftl (q1 * q2) (Z.to_N (53 - dig (q1 * q2)))) k).
  { change (Pos.iter xO ?m k) with (Pos.shiftl m (N.pos k)).
    apply Pos2Z.inj. rewrite Pos2Z.inj_mul, !shiftl_Z, Pos2Z.inj_mul.
    rewrite !Z2N.id by lia. cbn [Z.of_N]. rewrite Hk.
    assert (Hpow : 2 ^ (53 - dig (q1 * q2))
                   * 2 ^ (53 - dig q1 - dig q2 + dig (q1 * q2))
                   = 2 ^ (53 - dig q1) * 2 ^ (53 - dig q2)).
    { rewrite <- !Z.pow_add_r by lia. f_equal. lia. }
    rewrite <- (Z.mul_assoc (Z.pos q1 * Z.pos q2)), Hpow. ring. }
  rewrite Hm, round_shifted.
  - f_equal. lia.
  - now apply dig_canon.
  - lia.
Qed.

Lemma of_Z_pos_canon (a : Z) :
  0 < a < 2 ^ 53 -> Number.of_Z a = canon false (Z.to_pos a) 0.
Proof.
  intros Ha. rewrite of_Z_canon by lia.
  replace (a <? 0) with false by lia. now rewrite Z.abs_eq by lia.
Qed.

(** The product of two numbers that are integers is exact when it is
    below 2^53. *)
Lemma mul_exact (a b : Z) :
  0 <= a -> 0 < b < 2 ^ 53 -> a * b < 2 ^ 53 ->
  Number.mul (Number.of_Z a) (Number.of_Z b) = Number.of_Z (a * b).
Proof.
  intros Ha Hb Hab.
  rewrite (of_Z_pos_canon b) by exact Hb.
  destruct (Z.eq_dec a 0) as [->|Hne]; [reflexivity|].
  assert (a < 2 ^ 53) by nia.
  rewrite (of_Z_pos_canon a), (of_Z_pos_canon (a * b)) by nia.
  rewrite mul_canon.
  - cbn [xorb]. f_equal. rewrite Z2Pos.inj_mul by lia. reflexivity.
  - apply dig_le; [lia|]. rewrite Z2Pos.id; lia.
  - apply dig_le; [lia|]. rewrite Z2Pos.id; lia.
  - apply dig_le; [lia|]. rewrite <- Z2Pos.inj_mul, Z2Pos.id by lia. lia.
Qed.

Ltac by_cases_on_char c :=
  destruct c as [[] [] [] [] [] [] [] []]; vm_compute; try reflexivity; try discriminate.

Lemma lower_char_digit (c : ascii) :
  JsText.is_digit c = true -> JsText.lower_char c = c.
Proof. by_cases_on_char c. Qed.

Lemma lower_char_non_digit (c : ascii) :
  JsText.is_digit c = false -> JsText.is_digit (JsText.lower_char c) = false.
Proof. by_cases_on_char c. Qed.

Lemma white_non_digit (c : ascii) :
  Js.is_white c = true -> JsText.is_digit c = false.
Proof. by_cases_on_char c. Qed.

Lemma digits_of_toLowerCase (s : string) :
  JsText.remove_non_digits (JsText.toLowerCase s) = JsText.remove_non_digits s.
Proof.
  induction s as [|c s IH]; [reflexivity|].
  cbn [JsText.toLowerCase JsText.remove_non_digits].
  destruct (JsText.is_digit c) eqn:Hc.
  - rewrite (lower_char_digit c Hc), Hc, IH. reflexivity.
  - rewrite (lower_char_non_digit c Hc). exact IH.
Qed.

Lemma digits_of_trimStart (s : string) :
  JsText.remove_non_digits (Js.trimStart s) = JsText.remove_non_digits s.
Proof.
  induction s as [|c s IH]; [reflexivity|].
  cbn [Js.trimStart]. destruct (Js.is_white c) eqn:Hc; [|reflexivity].
  cbn [JsText.remove_non_digits]. now rewrite (white_non_digit c Hc).
Qed.

Lemma digits_of_trimEnd (s : string) :
  JsText.remove_non_digits (Js.trimEnd s) = JsText.remove_non_digits s.
Proof.
  induction s as [|c s IH]; [reflexivity|].
  cbn [Js.trimEnd JsText.remove_non_digits]. rewrite <- IH.
  destruct (Js.trimEnd s) as [|d kept].
  - destruct (Js.is_white c) eqn:Hc.
    + now rewrite (white_non_digit c Hc).
    + reflexivity.
  - reflexivity.
Qed.

(** Lower-casing and trimming leave the digits of a text as they are. *)
Lemma digits_of_text (s : string) :
  JsText.remove_non_digits (Js.trim (JsText.toLowerCase s))
  = JsText.remove_non_digits s.
Proof.
  unfold Js.trim.
  now rewrite digits_of_trimEnd, digits_of_trimStart, digits_of_toLowerCase.
Qed.

Lemma remove_non_digits_cases (s : string) :
  JsText.remove_non_digits s = "" \/
  exists c rest, JsText.is_digit c = true /\
                 JsText.remove_non_digits s
                 = String c (JsText.remove_non_digits rest).
Proof.
  induction s as [|c s IH]; [now left|].
  cbn [JsText.remove_non_digits].
  destruct (JsText.is_digit c) eqn:Hc; [right; eauto | exact IH].
Qed.

Lemma digit_facts (c : ascii) :
  JsText.is_digit c = true ->
  Js.is_white c = false /\ Ascii.eqb c "-" = false /\ Ascii.eqb c "+" = false /\
  Ascii.eqb c "x" = false /\ Ascii.eqb c "X" = false /\
  exists d, JsText.digit_value 10 c = Some d /\ 0 <= d.
Proof.
  destruct c as [[] [] [] [] [] [] [] []]; vm_compute; try discriminate;
    intros _; repeat (split; [reflexivity|]); eexists; (split; [reflexivity|]);
    discriminate.
Qed.

Lemma non_digit_facts (c : ascii) :
  JsText.is_digit c = false ->
  Ascii.eqb c "0" = false /\ JsText.digit_value 10 c = None.
Proof. by_cases_on_char c. all: intros _; split; reflexivity. Qed.

(** [parseInt] on digits only reads all of them. *)
Lemma parseInt_digits (s : string) :
  JsText.remove_non_digits s <> "" ->
  JsText.parseInt (JsText.remove_non_digits s) = Number.of_Z (decimal s).
Proof.
  intros Hsome. unfold decimal.
  destruct (remove_non_digits_cases s) as [Hnone|(c & rest & Hc & Hs)];
    [contradiction|].
  rewrite Hs. clear Hsome Hs s.
  destruct (digit_facts c Hc) as (Hwhite & Hminus & Hplus & _ & _ & d & Hd & Hd0).
  unfold JsText.parseInt. cbn [Js.trimStart]. rewrite Hwhite, Hminus, Hplus.
  cbn [orb].
  assert (Hhex : match JsText.remove_non_digits rest with
                 | String x _ => Ascii.eqb c "0" && (Ascii.eqb x "x" || Ascii.eqb x "X")
                 | EmptyString => false
                 end = false).
  { destruct (remove_non_digits_cases rest) as [->|(x & rest' & Hx & ->)];
      [reflexivity|].
    destruct (digit_facts x Hx) as (_ & _ & _ & -> & -> & _).
    apply andb_false_r. }
  destruct (JsText.remove_non_digits rest) as [|x tail] eqn:Hrest.
  - cbn [JsText.leading_digits]. rewrite Hd.
    destruct (Z.eqb_spec (JsText.positional 10 [d]) 0) as [->|_]; reflexivity.
  - rewrite Hhex. cbn [JsText.leading_digits]. rewrite Hd.
    destruct (JsText.digit_value 10 x) as [dx|];
      match goal with
      | |- context [JsText.positional 10 ?l] =>
          destruct (Z.eqb_spec (JsText.positional 10 l) 0) as [->|_]; reflexivity
      end.
Qed.

Lemma digit_value_nonneg (radix : Z) (c : ascii) (d : Z) :
  JsText.digit_value radix c = Some d -> 0 <= d.
Proof.
  unfold JsText.digit_value. set (n := JsText.code c).
  destruct ((48 <=? n) && (n <=? 57)) eqn:H1;
    [|destruct ((97 <=? n) && (n <=? 122)) eqn:H2;
      [|destruct ((65 <=? n) && (n <=? 90)) eqn:H3; [|discriminate]]].
  - apply andb_prop in H1 as [H1 _]. apply Z.leb_le in H1.
    destruct (n - 48 <? radix); intros [= <-]; lia.
  - apply andb_prop in H2 as [H2 _]. apply Z.leb_le in H2.
    destruct (n - 87 <? radix); intros [= <-]; lia.
  - apply andb_prop in H3 as [H3 _]. apply Z.leb_le in H3.
    destruct (n - 55 <? radix); intros [= <-]; lia.
Qed.

Lemma leading_digits_nonneg (radix : Z) (s : string) :
  Forall (fun d => 0 <= d) (JsText.leading_digits radix s).
Proof.
  induction s as [|c s IH]; cbn [JsText.leading_digits]; [constructor|].
  destruct (JsText.digit_value radix c) as [d|] eqn:Hd; [|constructor].
  constructor; [exact (digit_value_nonneg radix c d Hd) | exact IH].
Qed.

Lemma fold_digits_nonneg (radix : Z) (digits : list Z) (value : Z) :
  0 <= radix -> 0 <= value -> Forall (fun d => 0 <= d) digits ->
  0 <= fold_left (fun value d => value * radix + d) digits value.
Proof.
  intros Hradix. revert value.
  induction digits as [|d digits IH]; intros value Hvalue Hall; [exact Hvalue|].
  inversion Hall; subst. cbn [fold_left]. apply IH; [nia|assumption].
Qed.

Lemma decimal_nonneg (s : string) : 0 <= decimal s.
Proof.
  apply fold_digits_nonneg; [lia | lia | apply leading_digits_nonneg].
Qed.

(** X21.  A text that names a unit: its digits, all of them and wherever they
    stand, are read as one number, which is multiplied by the seconds
    of the unit; the result is exact below 2^53. *)
Theorem parseTimeLimitToSeconds_units (timeStr : string) (seconds : Z) :
  ~ digitless timeStr ->
  unit_seconds (Js.trim (JsText.toLowerCase timeStr)) = Some seconds ->
  decimal timeStr * seconds < 2 ^ 53 ->
  parseTimeLimitToSeconds timeStr
  = Returned (Number.of_Z (decimal timeStr * seconds)).
Proof.
  intros Hdigits Hunit Hbound. unfold digitless in Hdigits.
  pose proof (decimal_nonneg timeStr) as Hpos.
  unfold parseTimeLimitToSeconds, unit_seconds in *.
  set (text := Js.trim (JsText.toLowerCase timeStr)) in *.
  assert (Hnum : JsText.parseInt (JsText.remove_non_digits text)
                 = Number.of_Z (decimal timeStr)).
  { subst text. rewrite digits_of_text. now apply parseInt_digits. }
  rewrite Hnum.
  destruct (JsMore.includes text "hour");
    [|destruct (JsMore.includes text "minute");
      [|destruct (JsMore.includes text "sec"); [|discriminate]]];
    injection Hunit as <-.
  - rewrite mul_exact by lia. reflexivity.
  - rewrite mul_exact by lia. reflexivity.
  - now rewrite Z.mul_1_r.
Qed.

Lemma parseTimeLimitToSeconds_units_witness :
  parseTimeLimitToSeconds "1 Hour 30 minutes" = Returned (Number.of_Z 468000).
Proof.
  apply (parseTimeLimitToSeconds_units "1 Hour 30 minutes" 3600);
    [discriminate | reflexivity | vm_compute; reflexivity].
Defined.

Lemma digitless_cons (c : ascii) (s : string) :
  digitless (String c s) -> JsText.is_digit c = false /\ digitless s.
Proof.
  unfold digitless. cbn [JsText.remove_non_digits].
  destruct (JsText.is_digit c); [discriminate|auto].
Qed.

Lemma leading_digits_digitless (s : string) :
  digitless s -> JsText.leading_digits 10 s = [].
Proof.
  destruct s as [|c s]; [reflexivity|]. intros [Hc _]%digitless_cons.
  cbn [JsText.leading_digits]. now destruct (non_digit_facts c Hc) as [_ ->].
Qed.

Lemma parseInt_digitless (s : string) :
  digitless s -> JsText.parseInt s = S754_nan.
Proof.
  intros Hs. unfold JsText.parseInt.
  assert (Hs' : digitless (Js.trimStart s))
    by (unfold digitless; now rewrite digits_of_trimStart).
  destruct (Js.trimStart s) as [|c rest]; [reflexivity|].
  destruct (digitless_cons _ _ Hs') as [Hc Hrest].
  set (stripped := if Ascii.eqb c "-" || Ascii.eqb c "+" then rest else String c rest).
  assert (Hstripped : digitless stripped)
    by (subst stripped; destruct (_ || _); assumption).
  clearbody stripped.
  destruct stripped as [|c1 [|x tail]].
  - reflexivity.
  - now rewrite (leading_digits_digitless _ Hstripped).
  - destruct (digitless_cons _ _ Hstripped) as [Hc1 _].
    destruct (non_digit_facts c1 Hc1) as [-> _]. cbn [andb].
    now rewrite (leading_digits_digitless _ Hstripped).
Qed.

(** X22.  A text without any digit gives [NaN], with or without a unit: the
    default of five minutes is never returned for it. *)
Theorem parseTimeLimitToSeconds_without_digits (timeStr : string) :
  digitless timeStr -> parseTimeLimitToSeconds timeStr = Returned S754_nan.
Proof.
  intros Hnone. unfold parseTimeLimitToSeconds.
  set (text := Js.trim (JsText.toLowerCase timeStr)).
  assert (Htext : digitless text)
    by (subst text; unfold digitless; now rewrite digits_of_text).
  rewrite Htext, (parseInt_digitless text Htext).
  destruct (JsMore.includes text "hour"); [reflexivity|].
  destruct (JsMore.includes text "minute"); [reflexivity|].
  destruct (JsMore.includes text "sec"); reflexivity.
Qed.

Lemma parseTimeLimitToSeconds_without_digits_witness :
  parseTimeLimitToSeconds "half an hour" = Returned S754_nan /\
  parseTimeLimitToSeconds "soon" = Returned S754_nan.
Proof.
  split; apply parseTimeLimitToSeconds_without_digits; reflexivity.
Defined.

(* ================================================================= *)
(** ** Passwords and registration *)

Lemma lacks_app (c : ascii) (s t : string) :
  lacks c s -> lacks c t -> lacks c (s +:+ t).
Proof.
  intros Hs Ht. induction s as [|d s IH]; [exact Ht|].
  destruct Hs as [Hd Hs]. rewrite append_cons. split; [exact Hd | now apply IH].
Qed.

Lemma hex_of_byte_app (b : Byte.byte) (t : string) :
  Auth.hex_of_byte b +:+ t
  = String (Auth.hex_digit (Z.of_N (Byte.to_N b) / 16))
      (String (Auth.hex_digit (Z.of_N (Byte.to_N b) mod 16)) t).
Proof. reflexivity. Qed.

Lemma hex_of_byte_lacks_colon (b : Byte.byte) : lacks ":" (Auth.hex_of_byte b).
Proof. destruct b; vm_compute; repeat split; discriminate. Qed.

(** Hexadecimal text has no colon. *)
Lemma toString_hex_lacks_colon (buf : list Byte.byte) :
  lacks ":" (Auth.toString_hex buf).
Proof.
  induction buf as [|b buf IH]; [exact I|].
  cbn [Auth.toString_hex]. apply lacks_app; [apply hex_of_byte_lacks_colon | exact IH].
Qed.

Lemma hex_digit_value (n : Z) :
  0 <= n < 16 -> JsText.digit_value 16 (Auth.hex_digit n) = Some n.
Proof.
  intros Hn. unfold Auth.hex_digit.
  rewrite <- (Z2Nat.id n) at 2 by lia.
  assert (Hk : (Z.to_nat n < 16)%nat) by lia.
  generalize dependent (Z.to_nat n). intros k Hk.
  do 16 (destruct k as [|k]; [reflexivity|]). lia.
Qed.

Lemma hex_digit_inj (n m : Z) :
  0 <= n < 16 -> 0 <= m < 16 -> Auth.hex_digit n = Auth.hex_digit m -> n = m.
Proof.
  intros Hn Hm Hsame.
  pose proof (hex_digit_value n Hn) as Hvalue.
  rewrite Hsame, (hex_digit_value m Hm) in Hvalue. congruence.
Qed.

Lemma byte_range (b : Byte.byte) : 0 <= Z.of_N (Byte.to_N b) < 256.
Proof. pose proof (Byte.to_N_bounded b). lia. Qed.

Lemma byte_to_N_inj (b1 b2 : Byte.byte) : Byte.to_N b1 = Byte.to_N b2 -> b1 = b2.
Proof.
  intros Hsame. pose proof (Byte.of_to_N b1) as H1.
  rewrite Hsame, Byte.of_to_N in H1. congruence.
Qed.

(** The hexadecimal text determines the bytes. *)
Lemma toString_hex_inj (buf1 buf2 : list Byte.byte) :
  Auth.toString_hex buf1 = Auth.toString_hex buf2 -> buf1 = buf2.
Proof.
  revert buf2. induction buf1 as [|b1 buf1 IH]; intros [|b2 buf2];
    cbn [Auth.toString_hex]; rewrite ?hex_of_byte_app;
    try discriminate; [reflexivity|].
  intros [= Hhigh Hlow Hrest].
  pose proof (byte_range b1). pose proof (byte_range b2).
  apply hex_digit_inj in Hhigh;
    [|split; [apply Z.div_pos | apply Z.div_lt_upper_bound]; lia ..].
  apply hex_digit_inj in Hlow; [|apply Z.mod_pos_bound; lia ..].
  f_equal; [|now apply IH].
  apply byte_to_N_inj, N2Z.inj.
  rewrite (Z.div_mod (Z.of_N (Byte.to_N b1)) 16), (Z.div_mod (Z.of_N (Byte.to_N b2)) 16)
    by lia.
  now rewrite Hhigh, Hlow.
Qed.

Section Passwords.

Variable scrypt : string -> string -> Z -> list Byte.byte.

Lemma split_hashPassword (randomBytes : list Byte.byte) (password : string) :
  Js.split ":" (Auth.hashPassword scrypt randomBytes password)
  = [Auth.toString_hex randomBytes;
     Auth.toString_hex
       (scrypt password (Auth.toString_hex randomBytes) 64)].
Proof.
  unfold Auth.hashPassword.
  change (":" +:+ ?key) with (String ":" key).
  rewrite split_char_cut by apply toString_hex_lacks_colon.
  rewrite split_char_lacks by apply toString_hex_lacks_colon.
  reflexivity.
Qed.

Lemma comparePasswords_hashed
    (randomBytes : list Byte.byte) (password supplied : string) :
  Auth.comparePasswords scrypt supplied
    (Auth.hashPassword scrypt randomBytes password) = true
  <-> scrypt supplied (Auth.toString_hex randomBytes) 64
      = scrypt password (Auth.toString_hex randomBytes) 64.
Proof.
  unfold Auth.comparePasswords. rewrite split_hashPassword.
  cbn [hd lookup list_lookup]. rewrite String.eqb_eq. split.
  - intros Hsame. symmetry. now apply toString_hex_inj.
  - now intros ->.
Qed.

(** X23.  A stored password is [salt:key] in hexadecimal text, which has no
    colon, so that [comparePasswords] finds the salt and the key again:
    it accepts the password that was hashed, and another one exactly
    when [scrypt] derives the same key from it. *)
Theorem comparePasswords_hashPassword
    (randomBytes : list Byte.byte) (password supplied : string) :
  Auth.comparePasswords scrypt password
    (Auth.hashPassword scrypt randomBytes password) = true /\
  (Auth.comparePasswords scrypt supplied
     (Auth.hashPassword scrypt randomBytes password) = true
   <-> scrypt supplied (Auth.toString_hex randomBytes) 64
       = scrypt password (Auth.toString_hex randomBytes) 64).
Proof.
  split; [now apply comparePasswords_hashed | apply comparePasswords_hashed].
Qed.

End Passwords.

Section Registration.

Variable scrypt : string -> string -> Z -> list Byte.byte.

Lemma find_username_app (username : string) (before after : list Auth.User) :
  find (fun user => String.eqb (Auth.user_username user) username) before = None ->
  find (fun user => String.eqb (Auth.user_username user) username) (before ++ after)
  = find (fun user => String.eqb (Auth.user_username user) username) after.
Proof.
  induction before as [|user before IH]; [reflexivity|]. cbn [find app].
  destruct (String.eqb _ _); [discriminate | exact IH].
Qed.

Lemma absent_username (username : string) (st : Auth.Accounts) :
  Auth.getUserByUsername username st = None ->
  ~ In username (map Auth.user_username (JsMap.values (Auth.users st))).
Proof.
  unfold Auth.getUserByUsername. intros Hnone Hin.
  apply in_map_iff in Hin as (user & Hname & Huser).
  pose proof (find_none _ _ Hnone user Huser) as Hno. cbv beta in Hno.
  rewrite Hname, String.eqb_refl in Hno. discriminate.
Qed.

(** What [createUser] leaves, on a store whose keys are below the
    counter. *)
Lemma createUser_appends (userData : Auth.UserData) (createdAt : Z)
    (st : Auth.Accounts) :
  Forall (fun k => k < Auth.userId st) (JsMap.keys (Auth.users st)) ->
  Auth.users (snd (Auth.createUser userData createdAt st))
  = Auth.users st ++ [(Auth.userId st, fst (Auth.createUser userData createdAt st))].
Proof.
  intros Hfresh. cbn [Auth.createUser snd fst Auth.users].
  now rewrite (set_fresh _ _ _ Hfresh).
Qed.

(** The first turn lets a request with its three fields and a new
    name through. *)
Lemma register_check_passes (username email password : option string)
    (st : Auth.Accounts) :
  Js.truthy username = true -> Js.truthy email = true ->
  Js.truthy password = true ->
  Auth.getUserByUsername (text username) st = None ->
  Auth.register_check username email password st
  = Auth.Hashing (text username) (text email) (text password).
Proof.
  intros Hu He Hp Hnone. unfold Auth.register_check.
  now rewrite Hu, He, Hp, Hnone.
Qed.

(** The store that the second turn leaves. *)
Lemma register_create_store (login : Auth.User -> option exn)
    (randomBytes : list Byte.byte) (createdAt : Z)
    (username email password : string) (st : Auth.Accounts) :
  snd (Auth.register_create scrypt login randomBytes createdAt
         username email password st)
  = snd (Auth.createUser
           {| Auth.data_username := username;
              Auth.data_email := email;
              Auth.data_password := Auth.hashPassword scrypt randomBytes password;
              Auth.data_role := "user" |} createdAt st).
Proof.
  unfold Auth.register_create. cbn [Auth.createUser snd].
  now destruct (login _).
Qed.

(** The second turn on a store that lacks the name keeps the store
    well kept. *)
Lemma register_create_well_kept (login : Auth.User -> option exn)
    (randomBytes : list Byte.byte) (createdAt : Z)
    (username email password : string) (st : Auth.Accounts) :
  Auth.well_kept st ->
  Auth.getUserByUsername username st = None ->
  Auth.well_kept
    (snd (Auth.register_create scrypt login randomBytes createdAt
            username email password st)).
Proof.
  intros [Hfresh Hnames] Hget. rewrite register_create_store. split.
  - rewrite createUser_appends by exact Hfresh.
    cbn [Auth.createUser snd fst Auth.userId].
    rewrite keys_app. apply Forall_app. split.
    + eapply Forall_impl; [exact Hfresh|]. cbv beta. intros k Hk. lia.
    + repeat constructor. cbn. lia.
  - rewrite createUser_appends by exact Hfresh.
    rewrite values_app, map_app.
    cbn [JsMap.values map snd fst Auth.createUser Auth.user_username
         Auth.data_username].
    apply NoDup_app. split; [exact Hnames|]. split.
    + intros name Hin ->%list_elem_of_singleton.
      apply (absent_username _ _ Hget). now apply list_elem_of_In.
    + apply NoDup_singleton.
Qed.

(** What the verify function finds after the second turn, on a store
    that lacked the name. *)
Lemma register_create_found (login : Auth.User -> option exn)
    (randomBytes : list Byte.byte) (createdAt : Z)
    (username email password : string) (st : Auth.Accounts) :
  Forall (fun k => k < Auth.userId st) (JsMap.keys (Auth.users st)) ->
  Auth.getUserByUsername username st = None ->
  Auth.getUserByUsername username
    (snd (Auth.register_create scrypt login randomBytes createdAt
            username email password st))
  = Some {| Auth.user_username := username;
            Auth.user_email := email;
            Auth.user_password := Auth.hashPassword scrypt randomBytes password;
            Auth.user_role := "user";
            Auth.user_id := Auth.userId st;
            Auth.user_createdAt := createdAt |}.
Proof.
  intros Hfresh Hnone. rewrite register_create_store.
  unfold Auth.getUserByUsername. rewrite createUser_appends by exact Hfresh.
  rewrite values_app, find_username_app by exact Hnone.
  cbn [JsMap.values map snd fst Auth.createUser find Auth.user_username
       Auth.data_username Auth.data_email Auth.data_password Auth.data_role].
  now rewrite String.eqb_refl.
Qed.

(** X24.  Registering, then logging in, when no other request is handled
    while the password is hashed.  A registration with its three
    fields and a new name stores the user, also when the login that
    follows it fails; the verify function then accepts the name with
    the registered password, and with another password exactly when
    [scrypt] derives the same key from it. *)
Theorem register_then_verify (login : Auth.User -> option exn)
    (randomBytes : list Byte.byte) (createdAt : Z)
    (username email password : option string) (st : Auth.Accounts)
    (supplied : string) :
  Js.truthy username = true -> Js.truthy email = true ->
  Js.truthy password = true ->
  Auth.getUserByUsername (text username) st = None ->
  Forall (fun k => k < Auth.userId st) (JsMap.keys (Auth.users st)) ->
  let user := {| Auth.user_username := text username;
                 Auth.user_email := text email;
                 Auth.user_password :=
                   Auth.hashPassword scrypt randomBytes (text password);
                 Auth.user_role := "user";
                 Auth.user_id := Auth.userId st;
                 Auth.user_createdAt := createdAt |} in
  let registered := Auth.register_alone scrypt login randomBytes createdAt
                      username email password st in
  Auth.answer_code (fst registered)
  = match login user with Some _ => 500 | None => 200 end /\
  Auth.getUser (Auth.userId st) (snd registered) = Some user /\
  Auth.verify scrypt (text username) (text password) (snd registered)
  = Auth.Accepted user /\
  (Auth.verify scrypt (text username) supplied (snd registered)
   = Auth.Accepted user
   <-> scrypt supplied (Auth.toString_hex randomBytes) 64
       = scrypt (text password) (Auth.toString_hex randomBytes) 64).
Proof.
  intros Hu He Hp Hnone Hfresh user registered.
  assert (Hrun : registered
                 = Auth.register_create scrypt login randomBytes createdAt
                     (text username) (text email) (text password) st).
  { subst registered. unfold Auth.register_alone.
    now rewrite register_check_passes. }
  assert (Hfound : Auth.getUserByUsername (text username) (snd registered)
                   = Some user).
  { rewrite Hrun. now apply register_create_found. }
  split; [|split; [|split]].
  - rewrite Hrun. unfold Auth.register_create.
    cbn [Auth.createUser Auth.data_username Auth.data_email
         Auth.data_password Auth.data_role].
    fold user. destruct (login user); reflexivity.
  - rewrite Hrun, register_create_store.
    unfold Auth.getUser. cbn [Auth.createUser snd Auth.users].
    apply get_set_eq.
  - unfold Auth.verify. rewrite Hfound. cbn [Auth.user_password user].
    now rewrite (proj2 (comparePasswords_hashed scrypt _ _ _) eq_refl).
  - unfold Auth.verify. rewrite Hfound. cbn [Auth.user_password user].
    rewrite <- comparePasswords_hashed.
    destruct (Auth.comparePasswords _ _ _); split; congruence.
Qed.

(** X25.  User names stay unique unless a registration of the same
    name is stored between the two turns of the handler.  On a store
    where no two users share a name and the keys are below the
    counter, the handler that no other request overlaps keeps this,
    whatever the request holds; and so does the second turn alone on
    every store that still lacks the name. *)
Theorem register_keeps_usernames_unique (login : Auth.User -> option exn)
    (randomBytes : list Byte.byte) (createdAt : Z)
    (username email password : option string) (st : Auth.Accounts) :
  Auth.well_kept st ->
  Auth.well_kept
    (snd (Auth.register_alone scrypt login randomBytes createdAt
            username email password st)) /\
  (forall name mail word : string,
      Auth.getUserByUsername name st = None ->
      Auth.well_kept
        (snd (Auth.register_create scrypt login randomBytes createdAt
                name mail word st))).
Proof.
  intros Hkept. split.
  - unfold Auth.register_alone, Auth.register_check.
    destruct (negb (Js.truthy username) || negb (Js.truthy email)
              || negb (Js.truthy password)); [exact Hkept|].
    destruct (Auth.getUserByUsername (text username) st) as [existing|] eqn:Hget;
      [exact Hkept|].
    now apply register_create_well_kept.
  - intros name mail word Hget. now apply register_create_well_kept.
Qed.

(** X27.  Two registrations of one new name that overlap: both pass the
    check before either user is created, both users are stored, under
    successive keys, and the store then holds two users of one name.
    The verify function finds the first of them only: the second user
    is never accepted, whatever password is supplied. *)
Theorem overlapping_registrations_share_a_name
    (login1 login2 : Auth.User -> option exn)
    (randomBytes1 randomBytes2 : list Byte.byte) (createdAt1 createdAt2 : Z)
    (username email1 password1 email2 password2 : option string)
    (st : Auth.Accounts) (supplied : string) :
  Js.truthy username = true ->
  Js.truthy email1 = true -> Js.truthy password1 = true ->
  Js.truthy email2 = true -> Js.truthy password2 = true ->
  Auth.getUserByUsername (text username) st = None ->
  Forall (fun k => k < Auth.userId st) (JsMap.keys (Auth.users st)) ->
  let user1 := {| Auth.user_username := text username;
                  Auth.user_email := text email1;
                  Auth.user_password :=
                    Auth.hashPassword scrypt randomBytes1 (text password1);
                  Auth.user_role := "user";
                  Auth.user_id := Auth.userId st;
                  Auth.user_createdAt := createdAt1 |} in
  let user2 := {| Auth.user_username := text username;
                  Auth.user_email := text email2;
                  Auth.user_password :=
                    Auth.hashPassword scrypt randomBytes2 (text password2);
                  Auth.user_role := "user";
                  Auth.user_id := Auth.userId st + 1;
                  Auth.user_createdAt := createdAt2 |} in
  let st1 := snd (Auth.register_create scrypt login1 randomBytes1 createdAt1
                    (text username) (text email1) (text password1) st) in
  let st2 := snd (Auth.register_create scrypt login2 randomBytes2 createdAt2
                    (text username) (text email2) (text password2) st1) in
  Auth.register_check username email1 password1 st
  = Auth.Hashing (text username) (text email1) (text password1) /\
  Auth.register_check username email2 password2 st
  = Auth.Hashing (text username) (text email2) (text password2) /\
  Auth.getUser (Auth.userId st) st2 = Some user1 /\
  Auth.getUser (Auth.userId st + 1) st2 = Some user2 /\
  ~ NoDup (map Auth.user_username (JsMap.values (Auth.users st2))) /\
  Auth.verify scrypt (text username) supplied st2 <> Auth.Accepted user2.
Proof.
  intros Hu He1 Hp1 He2 Hp2 Hnone Hfresh user1 user2 st1 st2.
  assert (Husers : Auth.users st2
                   = Auth.users st ++ [(Auth.userId st, user1);
                                       (Auth.userId st + 1, user2)]).
  { subst st2 st1. rewrite !register_create_store.
    cbn [Auth.createUser snd Auth.users Auth.userId Auth.data_username
         Auth.data_email Auth.data_password Auth.data_role].
    fold user1. rewrite (set_fresh _ _ _ Hfresh).
    rewrite set_fresh.
    - fold user2. now rewrite <- app_assoc.
    - rewrite keys_app. apply Forall_app. split.
      + eapply Forall_impl; [exact Hfresh|]. cbv beta. intros k Hk. lia.
      + repeat constructor. cbn. lia. }
  assert (Habsent : JsMap.get (Auth.userId st) (Auth.users st) = None
                    /\ JsMap.get (Auth.userId st + 1) (Auth.users st) = None).
  { split; apply (get_above_keys _ _ _ Hfresh); lia. }
  split; [now apply register_check_passes|].
  split; [now apply register_check_passes|].
  split; [|split; [|split]].
  - unfold Auth.getUser. rewrite Husers, get_app_absent by apply Habsent.
    cbn [JsMap.get]. now rewrite Z.eqb_refl.
  - unfold Auth.getUser. rewrite Husers, get_app_absent by apply Habsent.
    cbn [JsMap.get]. destruct (Z.eqb_spec (Auth.userId st) (Auth.userId st + 1));
      [lia|]. now rewrite Z.eqb_refl.
  - rewrite Husers, values_app, map_app. intros Hdup.
    apply NoDup_app in Hdup as (_ & _ & Hdup).
    cbn [JsMap.values map snd Auth.user_username user1 user2] in Hdup.
    inversion Hdup as [|? ? Hin _]; subst. apply Hin. constructor.
  - unfold Auth.verify, Auth.getUserByUsername.
    rewrite Husers, values_app, find_username_app by exact Hnone.
    cbn [JsMap.values map snd find Auth.user_username user1].
    rewrite String.eqb_refl.
    destruct (Auth.comparePasswords _ _ _); [|discriminate].
    intros Hsame.
    assert (Hid : Auth.user_id user1 = Auth.user_id user2) by congruence.
    cbn [Auth.user_id user1 user2] in Hid. lia.
Qed.

Lemma find_username_set (username : string) (k : Z) (user : Auth.User)
    (m : JsMap.t Auth.User) :
  Auth.user_username user = username ->
  find (fun user => String.eqb (Auth.user_username user) username)
       (JsMap.values m) = None ->
  find (fun user => String.eqb (Auth.user_username user) username)
       (JsMap.values (JsMap.set k user m)) = Some user.
Proof.
  intros Hname. induction m as [|[k' user'] m IH]; cbn [JsMap.set JsMap.values map snd find].
  - now rewrite Hname, String.eqb_refl.
  - destruct (String.eqb (Auth.user_username user') username) eqn:Hother;
      [discriminate|].
    intros Hnone. destruct (k' =? k); cbn [map snd find].
    + now rewrite Hname, String.eqb_refl.
    + rewrite Hother. now apply IH.
Qed.

(** X26.  The administrator.  [createAdminUser] stores it under the key 1,
    whoever was stored there, and where nobody was named [david] the
    verify function accepts it with its password. *)
Theorem createAdminUser_then_verify
    (randomBytes : list Byte.byte) (createdAt : Z) (st : Auth.Accounts) :
  let admin := {| Auth.user_username := "david";
                  Auth.user_email := "admin@example.com";
                  Auth.user_password :=
                    Auth.hashPassword scrypt randomBytes "david@@@";
                  Auth.user_role := "admin";
                  Auth.user_id := 1;
                  Auth.user_createdAt := createdAt |} in
  let st' := Auth.createAdminUser scrypt randomBytes createdAt st in
  Auth.getUser 1 st' = Some admin /\
  (Auth.getUserByUsername "david" st = None ->
   Auth.verify scrypt "david" "david@@@" st' = Auth.Accepted admin) /\
  (st = Auth.initial -> Auth.well_kept st').
Proof.
  intros admin st'. split; [|split].
  - apply get_set_eq.
  - intros Hnone. unfold Auth.verify, Auth.getUserByUsername. subst st'.
    cbn [Auth.createAdminUser Auth.users]. fold admin.
    rewrite (find_username_set "david" 1 admin) by (reflexivity || exact Hnone).
    cbn [Auth.user_password admin].
    now rewrite (proj2 (comparePasswords_hashed scrypt _ _ _) eq_refl).
  - intros ->. subst st'. unfold Auth.well_kept.
    cbn [Auth.createAdminUser Auth.initial Auth.users Auth.userId JsMap.set
         JsMap.keys JsMap.values map fst snd Auth.user_username].
    split.
    + constructor; [lia | constructor].
    + constructor; [intros Hin; inversion Hin | constructor].
Qed.

End Registration.

Lemma register_then_verify_witness :
  let scrypt := fun (password salt : string) (keylen : Z) =>
                  [Byte.x2a; Byte.xff] in
  let registered := Auth.register_alone scrypt (fun _ => Some (JsError "no session"))
                      [Byte.x00; Byte.x1f] 2000
                      (Some "ann") (Some "ann@example.com") (Some "secret")
                      Auth.initial in
  Auth.answer_code (fst registered) = 500 /\
  Auth.verify scrypt "ann" "secret" (snd registered)
  = Auth.Accepted {| Auth.user_username := "ann";
                     Auth.user_email := "ann@example.com";
                     Auth.user_password := "001f:2aff";
                     Auth.user_role := "user";
                     Auth.user_id := 1;
                     Auth.user_createdAt := 2000 |}.
Proof.
  intros scrypt registered.
  destruct (register_then_verify scrypt (fun _ => Some (JsError "no session"))
              [Byte.x00; Byte.x1f] 2000
              (Some "ann") (Some "ann@example.com") (Some "secret")
              Auth.initial "secret")
    as (Hcode & _ & Hverify & _);
    [reflexivity | reflexivity | reflexivity | reflexivity | constructor |].
  split; [exact Hcode | exact Hverify].
Defined.

Lemma register_keeps_usernames_unique_witness :
  Auth.well_kept
    (snd (Auth.register_alone (fun _ _ _ => [Byte.x2a]) (fun _ => None)
            [Byte.x00] 2000
            (Some "ann") (Some "ann@example.com") (Some "secret")
            Auth.initial)).
Proof.
  destruct (register_keeps_usernames_unique (fun _ _ _ => [Byte.x2a])
              (fun _ => None) [Byte.x00] 2000
              (Some "ann") (Some "ann@example.com") (Some "secret") Auth.initial)
    as [Hkept _]; [split; constructor | exact Hkept].
Defined.

Lemma overlapping_registrations_share_a_name_witness :
  let scrypt := fun (password salt : string) (keylen : Z) => [Byte.x2a] in
  let st1 := snd (Auth.register_create scrypt (fun _ => None) [Byte.x00] 2000
                    "ann" "ann@example.com" "secret" Auth.initial) in
  let st2 := snd (Auth.register_create scrypt (fun _ => None) [Byte.x01] 2001
                    "ann" "other@example.com" "hidden" st1) in
  Auth.register_check (Some "ann") (Some "other@example.com") (Some "hidden")
    Auth.initial
  = Auth.Hashing "ann" "other@example.com" "hidden" /\
  ~ NoDup (map Auth.user_username (JsMap.values (Auth.users st2))).
Proof.
  intros scrypt st1 st2.
  destruct (overlapping_registrations_share_a_name scrypt
              (fun _ => None) (fun _ => None) [Byte.x00] [Byte.x01] 2000 2001
              (Some "ann") (Some "ann@example.com") (Some "secret")
              (Some "other@example.com") (Some "hidden") Auth.initial "hidden")
    as (_ & Hcheck & _ & _ & Hdup & _);
    [reflexivity | reflexivity | reflexivity | reflexivity | reflexivity
     | reflexivity | constructor |].
  split; [exact Hcheck | exact Hdup].
Defined.

Lemma createAdminUser_then_verify_witness :
  let scrypt := fun (password salt : string) (keylen : Z) => [Byte.x2a] in
  Auth.verify scrypt "david" "david@@@"
    (Auth.createAdminUser scrypt [Byte.x00] 2000 Auth.initial)
  = Auth.Accepted {| Auth.user_username := "david";
                     Auth.user_email := "admin@example.com";
                     Auth.user_password := "00:2a";
                     Auth.user_role := "admin";
                     Auth.user_id := 1;
                     Auth.user_createdAt := 2000 |}.
Proof.
  intros scrypt.
  destruct (createAdminUser_then_verify scrypt [Byte.x00] 2000 Auth.initial)
    as (_ & Hverify & _).
  apply Hverify. reflexivity.
Defined.
